(** * zed_terrain_mapping: terrain-chunk rasterization of the ZED wrapper

    A shallow embedding of [zed_wrapper/src/nodelet/src/zed_terrain_mapping.cpp]:
    the local and global rasterizers ([publishLocalMaps], [publishGlobalMaps]),
    the two timer callbacks, [initGlobalMapMsgs] and the map services.

    Conventions.
    - C++ [uint32_t], [int] and [int8_t] values are [Z] with the wrap-around
      written out ([u32], [i32], [i8]).
    - C++ [float] and [double] values live in one type [F] with the
      operations of class [FloatOps] (the conversions between the two
      widths are not modelled); the rasterizer is written once over that
      class.  Two instances are given: IEEE-754 binary32 (module
      [Binary32], on the Standard Library's [SpecFloat]) and exact rational
      arithmetic with a NaN (module [Exact]).
    - The members declared in zed_terrain_mapping.hpp are the fields of
      [Config], [LocalMaps], [GlobalMaps] and [State]; the SDK's terrain,
      the camera, the parameter server and tf are records of what they
      answer ([Terrain], [Sensor]).
    - [std::vector] is [list]; [vector::at] is [vec_at_put], which fails
      (std::out_of_range) outside the vector.
    - The OpenMP loops are run in index order; the mutexes are not
      modelled, and the wait for the terrain request at the head of a
      callback is taken as over.
    - The timer callbacks are modelled for a camera that is there: with a
      null [mZed] the source does not get past its first call on it. *)

From Stdlib Require Import ZArith QArith Qabs Qround Lia Lqa Bool List.
From Stdlib Require Import Floats.SpecFloat.
From stdpp Require Import base option list strings.

Local Open Scope Z_scope.
Set Default Proof Using "Type".

(** ** Machine integers *)

Definition u32 (z : Z) : Z := z mod 2 ^ 32.
Definition i32 (z : Z) : Z := (z + 2 ^ 31) mod 2 ^ 32 - 2 ^ 31.
Definition i8 (z : Z) : Z := (z + 2 ^ 7) mod 2 ^ 8 - 2 ^ 7.

(** ** Floating-point interface

    The operations the source applies to [float] and [double] values. *)

Class FloatOps (F : Type) := {
  fadd : F -> F -> F;
  fsub : F -> F -> F;
  fmul : F -> F -> F;
  fdiv : F -> F -> F;
  fneg : F -> F;
  (** [fabs] *)
  fabs : F -> F;
  (** [round]: nearest integer, halves away from zero *)
  fround : F -> F;
  (** [ceil] *)
  fceil : F -> F;
  (** [a < b]; false as soon as one side is a NaN *)
  flt : F -> F -> bool;
  (** integer to floating conversion *)
  of_int : Z -> F;
  (** [static_cast<uint32_t>] *)
  to_uint32 : F -> Z;
  (** [static_cast<int8_t>] *)
  to_int8 : F -> Z;
  (** [static_cast<int>] *)
  to_int : F -> Z;
  (** [std::numeric_limits<float>::quiet_NaN()] *)
  quiet_NaN : F;
  FLT_MAX : F
}.

(** [sqrt] is only used by the local rasterizer. *)
Class FloatSqrt (F : Type) := fsqrt : F -> F.

Definition fgt {F} `{FloatOps F} (a b : F) : bool := flt b a.

(** ** Rounding a rational to an integer *)

(** Toward zero, as a conversion to an integer type does. *)
Definition Qtrunc (q : Q) : Z := if Qle_bool 0 q then Qfloor q else Qceiling q.

(** To the nearest integer, halves away from zero, as C's [round] does. *)
Definition Qround_away (q : Q) : Z :=
if Qle_bool 0 q then Qfloor (q + (1 # 2)) else Qceiling (q - (1 # 2)).

(** ** IEEE-754 binary32 *)

Module Binary32.

Definition prec : Z := 24.
Definition emax : Z := 128.

Definition float : Type := spec_float.

(** The value of a finite float; 0 for NaN and the infinities. *)
Definition B2Q (x : float) : Q :=
match x with
| S754_finite s m e =>
    let v := match e with
             | Zneg p => Zpos m # (2 ^ p)
             | _ => inject_Z (Zpos m * 2 ^ e)
             end in
    if s then Qopp v else v
| _ => 0%Q
end.

(** Truncation toward zero of a float, as an integer. *)
Definition trunc (x : float) : Z := Qtrunc (B2Q x).

Definition of_Z (z : Z) : float := binary_normalize prec emax z 0 false.

(** A finite float with a non-negative exponent is an integer already. *)
Definition to_integral (r : Q -> Z) (x : float) : float :=
match x with
| S754_finite s m (Zneg _) => binary_normalize prec emax (r (B2Q x)) 0 s
| _ => x
end.

Definition round : float -> float := to_integral Qround_away.
Definition ceil : float -> float := to_integral Qceiling.

(** Conversions to integer types.  Out of the target's range the C++
    conversion is undefined; the model wraps, as the x86-64 code of the
    usual compilers does for values that fit 64 bits. *)
#[global] Instance ops : FloatOps float := {|
  fadd := SFadd prec emax;
  fsub := SFsub prec emax;
  fmul := SFmul prec emax;
  fdiv := SFdiv prec emax;
  fneg := SFopp;
  fabs := SFabs;
  fround := round;
  fceil := ceil;
  flt := SFltb;
  of_int := of_Z;
  to_uint32 := fun x => u32 (trunc x);
  to_int8 := fun x => i8 (trunc x);
  to_int := fun x => i32 (trunc x);
  quiet_NaN := S754_nan;
  FLT_MAX := S754_finite false (2 ^ 24 - 1) 104
|}.

#[global] Instance sqrt_op : FloatSqrt float := SFsqrt prec emax.

(** The literal [n / 10^k], correctly rounded (e.g. [dec 73 2] is [0.73f]). *)
Definition dec (n : Z) (k : Z) : float := SFdiv prec emax (of_Z n) (of_Z (10 ^ k)).

End Binary32.

(** ** Exact arithmetic

    Rationals with one non-finite value: the model of the computation when
    no operation rounds.  It has no square root. *)

Module Exact.

Inductive real := Fin (q : Q) | NaN.

Definition lift1 (f : Q -> Q) (a : real) : real :=
match a with Fin x => Fin (f x) | NaN => NaN end.

Definition lift2 (f : Q -> Q -> Q) (a b : real) : real :=
match a, b with Fin x, Fin y => Fin (f x y) | _, _ => NaN end.

Definition div (a b : real) : real :=
match a, b with
| Fin x, Fin y => if Qeq_bool y 0 then NaN else Fin (x / y)
| _, _ => NaN
end.

Definition lt (a b : real) : bool :=
match a, b with
| Fin x, Fin y => negb (Qle_bool y x)
| _, _ => false
end.

Definition to_Z (a : real) : Z :=
match a with Fin x => Qtrunc x | NaN => 0 end.

#[global] Instance ops : FloatOps real := {|
  fadd := lift2 Qplus;
  fsub := lift2 Qminus;
  fmul := lift2 Qmult;
  fdiv := div;
  fneg := lift1 Qopp;
  fabs := lift1 Qabs;
  fround := lift1 (fun x => inject_Z (Qround_away x));
  fceil := lift1 (fun x => inject_Z (Qceiling x));
  flt := lt;
  of_int := fun z => Fin (inject_Z z);
  to_uint32 := fun x => u32 (to_Z x);
  to_int8 := fun x => i8 (to_Z x);
  to_int := fun x => i32 (to_Z x);
  quiet_NaN := NaN;
  FLT_MAX := Fin (inject_Z ((2 ^ 24 - 1) * 2 ^ 104))
|}.

Definition finite (a : real) : Prop := match a with Fin _ => True | NaN => False end.

Definition val (a : real) : Q := match a with Fin q => q | NaN => 0%Q end.

(** [a <= b], both finite. *)
Definition leq (a b : real) : Prop := finite a /\ finite b /\ (val a <= val b)%Q.

End Exact.

(** ** Containers *)

(** [v.at(i) = x]: std::out_of_range ([None]) outside the vector. *)
Definition vec_at_put {A} (v : list A) (i : Z) (x : A) : option (list A) :=
  if (0 <=? i) && (i <? Z.of_nat (length v)) then Some (<[Z.to_nat i := x]> v) else None.

(** [p[i] = x] through a raw pointer into the vector's storage.  Outside
    the storage the C++ store is undefined; the model leaves the list as
    it is.  [i] counts points: the offset [4 * i + k] of the source, an
    [int] or a [uint32_t], is not modelled. *)
Definition raw_put {A} (v : list A) (i : Z) (x : A) : list A :=
  if 0 <=? i then <[Z.to_nat i := x]> v else v.

(** [std::vector<T>(n, x)] *)
Definition vec_fill {A} (n : Z) (x : A) : list A := replicate (Z.to_nat n) x.

(** [v.resize(n)]: the first elements are kept, new ones are value-initialised. *)
Definition vec_resize {A} (zero : A) (n : Z) (v : list A) : list A :=
  take (Z.to_nat n) v ++ replicate (Z.to_nat n - length v) zero.

(** ** The sensor SDK's terrain, as the wrapper reads it *)

Inductive LayerName := ELEVATION | TRAVERSABILITY_COST | COLOR.

Definition HashKey : Type := Z.

Section Model.

Context {F : Type} `{FloatOps F} `{FloatSqrt F}.

(** [sl_tools::depackColor3f] (declared in sl_tools.h). *)
Variable depackColor3f : F -> F * F * F.

(** [sl::Dimension]; [index2x_y] is [None] when the SDK reports the index
    out of range (the C++ call returns true), else the cell's [(xm, ym)]. *)
Record Dimension := {
  getXmin : F; getYmin : F; getXmax : F; getYmax : F;
  getFullSizeIdx : nat;
  index2x_y : nat -> option (F * F)
}.

(** [sl::TerrainChunk] *)
Record TerrainChunk := {
  getDimension : Dimension;
  isCellValid : nat -> bool;
  at_ : LayerName -> nat -> F
}.

(** [sl::Mat], as far as the wrapper looks at it. *)
Record Mat := { mat_width : Z; mat_height : Z; mat_pixels : list F }.

(** [sl::Terrain] *)
Record Terrain := {
  getChunk : HashKey -> TerrainChunk;
  getAllValidChunk : list HashKey;
  getUpdatedChunks : Z -> list HashKey;
  getSurroundingValidChunks : F -> F -> F -> list HashKey;
  getReferenceTS : Z;
  generateTerrainMap : LayerName -> Mat
}.

(** ** ROS messages *)

Record MapMetaData := {
  map_load_time : Z;
  resolution : F;
  width : Z;
  height : Z;
  origin_x : F;
  origin_y : F
}.

Record OccupancyGrid := { stamp : Z; info : MapMetaData; data : list Z }.

Definition Point3 : Type := F * F * F.
Definition Point4 : Type := F * F * F * F.

(** [sensor_msgs::PointCloud2] with four FLOAT32 fields; [pc_data] holds
    one [(x, y, z, rgb)] per point. *)
Record PointCloud2 := { pc_stamp : Z; pc_width : Z; pc_height : Z; pc_data : list Point4 }.

(** [visualization_msgs::Marker]: the cube list uses [points] and
    [colors], a box uses [id], [position], [scale] and [color]. *)
Record Marker := {
  mk_stamp : Z;
  mk_ns : string;
  mk_id : Z;
  mk_position : Point3;
  mk_scale : Point3;
  mk_color : Point3;
  mk_points : list Point3;
  mk_colors : list Point3
}.

Inductive Published :=
| PubLocalHeightMap (g : OccupancyGrid)
| PubLocalCostMap (g : OccupancyGrid)
| PubLocalHeightCloud (c : PointCloud2)
| PubLocalHeightMrk (m : Marker)
| PubLocalHeightMrks (ms : list Marker)
| PubGlobalHeightMap (g : OccupancyGrid)
| PubGlobalCostMap (g : OccupancyGrid)
| PubGlobalHeightCloud (c : PointCloud2)
| PubGlobalHeightMrk (m : Marker)
| PubGlobalHeightMapImg (i : Mat)
| PubGlobalColorMapImg (i : Mat)
| PubGlobalCostMapImg (i : Mat).

Definition fzero : F := of_int 0.
Definition zero3 : Point3 := (fzero, fzero, fzero).
Definition zero4 : Point4 := (fzero, fzero, fzero, fzero).

(** A default-constructed message. *)
Definition empty_info : MapMetaData :=
  {| map_load_time := 0; resolution := fzero; width := 0; height := 0;
     origin_x := fzero; origin_y := fzero |}.
Definition empty_grid : OccupancyGrid := {| stamp := 0; info := empty_info; data := [] |}.
Definition empty_cloud : PointCloud2 :=
  {| pc_stamp := 0; pc_width := 0; pc_height := 0; pc_data := [] |}.
(** [sensor_msgs::PointCloud2Modifier] (ROS library): [setPointCloud2Fields]
    sizes the data for the message's current [width * height] points, and
    [resize n] keeps the leading points, zero-fills new ones and makes the
    cloud one row of [n] points (or one column when its width is 1). *)
Definition setPointCloud2Fields (c : PointCloud2) : PointCloud2 :=
  {| pc_stamp := pc_stamp c; pc_width := pc_width c; pc_height := pc_height c;
     pc_data := vec_resize zero4 (u32 (pc_height c * pc_width c)) (pc_data c) |}.

Definition modifier_resize (n : Z) (c : PointCloud2) : PointCloud2 :=
  let d := vec_resize zero4 n (pc_data c) in
  if pc_height c =? 1 then
    {| pc_stamp := pc_stamp c; pc_width := u32 n; pc_height := 1; pc_data := d |}
  else if pc_width c =? 1 then
    {| pc_stamp := pc_stamp c; pc_width := 1; pc_height := u32 n; pc_data := d |}
  else
    {| pc_stamp := pc_stamp c; pc_width := u32 n; pc_height := 1; pc_data := d |}.

Definition set_pc_stamp (t : Z) (c : PointCloud2) : PointCloud2 :=
  {| pc_stamp := t; pc_width := pc_width c; pc_height := pc_height c; pc_data := pc_data c |}.

Definition set_pc_data (d : list Point4) (c : PointCloud2) : PointCloud2 :=
  {| pc_stamp := pc_stamp c; pc_width := pc_width c; pc_height := pc_height c; pc_data := d |}.

(** ** The node's members *)

(** Parameters read in [startTerrainMapping] and by dynamic reconfigure. *)
Record Config := {
  mTerrainMapRes : F;
  mMapMaxHeight : F;
  mMapHeightResol : F;
  mMapLocalRadius : F;
  mDefaultMap : Z
}.

Record LocalMaps := {
  mLocHeightMapMsg : OccupancyGrid;
  mLocCostMapMsg : OccupancyGrid;
  mLocalHeightPointcloudMsg : PointCloud2
}.

Record GlobalMaps := {
  mGlobHeightMapMsg : OccupancyGrid;
  mGlobCostMapMsg : OccupancyGrid;
  mGlobalHeightPointcloudMsg : PointCloud2;
  mGlobMapWholeUpdate : bool;
  mLastGlobMapTimestamp : Z
}.

Record State := {
  mMappingReady : bool;
  mTerrain : Terrain;
  cfg : Config;
  loc : LocalMaps;
  glob : GlobalMaps
}.

(** Subscriber counts, as [getNumSubscribers] returns them. *)
Record Subscribers := {
  heightSub : Z; costSub : Z; cloudSub : Z; mrkSub : Z; mrksSub : Z
}.

(** ** The buffers a rasterization loop writes *)

Record Buffers := {
  b_height : list Z;
  b_cost : list Z;
  b_cloud : list Point4;
  b_points : list Point3;
  b_colors : list Point3;
  b_boxes : list Marker
}.

Definition set_height d (b : Buffers) : Buffers :=
  {| b_height := d; b_cost := b_cost b; b_cloud := b_cloud b;
     b_points := b_points b; b_colors := b_colors b; b_boxes := b_boxes b |}.
Definition set_cost d (b : Buffers) : Buffers :=
  {| b_height := b_height b; b_cost := d; b_cloud := b_cloud b;
     b_points := b_points b; b_colors := b_colors b; b_boxes := b_boxes b |}.
Definition set_cloud d (b : Buffers) : Buffers :=
  {| b_height := b_height b; b_cost := b_cost b; b_cloud := d;
     b_points := b_points b; b_colors := b_colors b; b_boxes := b_boxes b |}.
Definition push_cubes ps cs (b : Buffers) : Buffers :=
  {| b_height := b_height b; b_cost := b_cost b; b_cloud := b_cloud b;
     b_points := b_points b ++ ps; b_colors := b_colors b ++ cs; b_boxes := b_boxes b |}.
Definition push_box m (b : Buffers) : Buffers :=
  {| b_height := b_height b; b_cost := b_cost b; b_cloud := b_cloud b;
     b_points := b_points b; b_colors := b_colors b; b_boxes := b_boxes b ++ [m] |}.

(** A loop whose body may throw. *)
Fixpoint fold_opt {A B} (f : B -> A -> option B) (l : list A) (b : B) : option B :=
match l with
| [] => Some b
| x :: l' => b' ← f b x; fold_opt f l' b'
end.

(** ** The local rasterizer: [publishLocalMaps] *)

(** The column of unit cubes of one cell: [i = 1 .. col_count], at height
    [i * mMapHeightResol], below the ground for a negative elevation. *)
Definition cube_column (cf : Config) (x y z : F) (col_count : Z) : list Point3 :=
map (fun i : nat =>
       let pz := fmul (of_int (Z.of_nat i)) (mMapHeightResol cf) in
       (x, y, if flt z (of_int 0) then fmul pz (fneg (of_int 1)) else pz))
    (seq 1 (Z.to_nat col_count)).

(** Lines 420-431: the cell's raster index, [None] when it is out of range. *)
Definition local_index (cf : Config) (mapMinX mapMinY : F) (mapCols totCell : Z)
  (xm ym : F) : option Z :=
let v := u32 (to_uint32 (fround (fdiv (fsub (fneg xm) mapMinY) (mTerrainMapRes cf)))) in
let u := u32 (to_uint32 (fround (fdiv (fsub ym mapMinX) (mTerrainMapRes cf)))) in
let mapIdx := u32 (u + v * mapCols) in
if totCell <=? mapIdx then None else Some mapIdx.

(** Lines 413: distance of the cell from the camera, in the map frame. *)
Definition local_dist (camX camY xm ym : F) : F :=
fsqrt (fadd (fmul (fsub (fneg xm) camY) (fsub (fneg xm) camY))
            (fmul (fsub ym camX) (fsub ym camX))).

(** [static_cast<int8_t>(cost * 100)] *)
Definition cost_norm (cost : F) : Z := i8 (to_int8 (fmul cost (of_int 100))).

(** [static_cast<int8_t>(fabs(round(height / mMapMaxHeight) * 100))] *)
Definition height_norm (cf : Config) (height : F) : Z :=
i8 (to_int8 (fabs (fmul (fround (fdiv height (mMapMaxHeight cf))) (of_int 100)))).

Definition local_box (cf : Config) (t : Z) (mapIdx : Z) (xm ym height : F) (color : Point3)
  : Marker :=
let half := fdiv (mTerrainMapRes cf) (of_int 2) in
{| mk_stamp := t; mk_ns := "height_boxes"; mk_id := mapIdx;
   mk_position := (fadd ym half, fadd (fneg xm) half, fdiv height (of_int 2));
   mk_scale := (mTerrainMapRes cf, mTerrainMapRes cf, height);
   mk_color := color; mk_points := []; mk_colors := [] |}.

(** Lines 433-521: what is written for cell [i] once it is accepted, at
    raster index [mapIdx]. *)
Definition local_write (cf : Config) (subs : Subscribers) (t : Z) (chunk : TerrainChunk)
  (i : nat) (xm ym : F) (mapIdx : Z) (b : Buffers) : option Buffers :=
(* Cost Map *)
b1 ← (if 0 <? costSub subs then
        d ← vec_at_put (b_cost b) mapIdx (cost_norm (at_ chunk TRAVERSABILITY_COST i));
        Some (set_cost d b)
      else Some b);
if (0 <? cloudSub subs) || (0 <? heightSub subs) || (0 <? mrkSub subs)
   || (0 <? mrksSub subs) then
  let height := at_ chunk ELEVATION i in
  let heightAbs := height_norm cf height in
  (* Height Map *)
  b2 ← (if 0 <? heightSub subs then
          d ← vec_at_put (b_height b1) mapIdx heightAbs; Some (set_height d b1)
        else Some b1);
  if (0 <? cloudSub subs) || (0 <? mrkSub subs) || (0 <? mrksSub subs) then
    let color_f := at_ chunk COLOR i in
    let color := depackColor3f color_f in
    let half := fdiv (mTerrainMapRes cf) (of_int 2) in
    (* PointCloud *)
    let b3 :=
      if 0 <? cloudSub subs then
        set_cloud (raw_put (b_cloud b2) mapIdx
                     (fadd ym half, fadd (fneg xm) half, height, color_f)) b2
      else b2 in
    (* Cube List *)
    let b4 :=
      if 0 <? mrkSub subs then
        let col_count := i32 (to_int (fceil (fdiv (fabs height) (mMapHeightResol cf)))) in
        let pts := cube_column cf (fadd ym half) (fadd (fneg xm) half) height col_count in
        push_cubes pts (map (fun _ => color) pts) b3
      else b3 in
    (* Parallelepipeds *)
    let b5 :=
      if (0 <? mrksSub subs) && fgt (fabs height) (of_int 0) then
        push_box (local_box cf t mapIdx xm ym height color) b4
      else b4 in
    Some b5
  else Some b2
else Some b1.

(** Lines 403-522: the body of the inner loop, for cell [i] of [chunk]. *)
Definition local_cell (cf : Config) (camX camY mapMinX mapMinY : F) (mapCols totCell : Z)
  (subs : Subscribers) (t : Z) (chunk : TerrainChunk) (b : Buffers) (i : nat)
  : option Buffers :=
if negb (isCellValid chunk i) then Some b else
match index2x_y (getDimension chunk) i with
| None => Some b
| Some (xm, ym) =>
  let dist := local_dist camX camY xm ym in
  if fgt dist (mMapLocalRadius cf) then Some b else
  match local_index cf mapMinX mapMinY mapCols totCell xm ym with
  | None => Some b
  | Some mapIdx => local_write cf subs t chunk i xm ym mapIdx b
  end
end.

(** Lines 393-523: both loops, over the chunks and over the cells of each. *)
Definition local_chunk (cf : Config) (terrain : Terrain) (camX camY mapMinX mapMinY : F)
  (mapCols totCell : Z) (subs : Subscribers) (t : Z) (b : Buffers) (key : HashKey)
  : option Buffers :=
let chunk := getChunk terrain key in
let cellCount := getFullSizeIdx (getDimension chunk) in
fold_opt (local_cell cf camX camY mapMinX mapMinY mapCols totCell subs t chunk)
         (seq 0 cellCount) b.

Definition local_rasterize (cf : Config) (terrain : Terrain) (camX camY mapMinX mapMinY : F)
  (mapCols totCell : Z) (subs : Subscribers) (t : Z) (chunks : list HashKey) (b : Buffers)
  : option Buffers :=
fold_opt (local_chunk cf terrain camX camY mapMinX mapMinY mapCols totCell subs t) chunks b.

(** Lines 303-316: the window of the local map and its size in cells. *)
Record Window := {
  mapMinX : F; mapMinY : F; mapMaxX : F; mapMaxY : F;
  mapRows : Z; mapCols : Z
}.

(** [static_cast<uint32_t>(ceil(span / mTerrainMapRes)) + 1] *)
Definition cells_of_span (cf : Config) (span : F) : Z :=
u32 (u32 (to_uint32 (fceil (fdiv span (mTerrainMapRes cf)))) + 1).

Definition local_window (cf : Config) (camX camY minX minY maxX maxY : F) : Window :=
let R := mMapLocalRadius cf in
let mapMinX := if fgt minY (fsub camX R) then minY else fsub camX R in
let mapMaxX := if flt maxY (fadd camX R) then maxY else fadd camX R in
let mapMinY := if fgt (fneg maxX) (fsub camY R) then fneg maxX else fsub camY R in
let mapMaxY := if flt (fneg minX) (fadd camY R) then fneg minX else fadd camY R in
let mapW := fabs (fsub mapMaxX mapMinX) in
let mapH := fabs (fsub mapMaxY mapMinY) in
{| mapMinX := mapMinX; mapMinY := mapMinY; mapMaxX := mapMaxX; mapMaxY := mapMaxY;
   mapRows := cells_of_span cf mapH; mapCols := cells_of_span cf mapW |}.

(** The cube-list marker as it is set up before the loops ([if (mrkSub)]). *)
Definition cube_marker (cf : Config) (mrk : Z) (t : Z) (pts cols : list Point3) : Marker :=
if mrk =? 0 then
  {| mk_stamp := 0; mk_ns := EmptyString; mk_id := 0; mk_position := zero3;
     mk_scale := zero3; mk_color := zero3; mk_points := pts; mk_colors := cols |}
else
  {| mk_stamp := t; mk_ns := "height_cubes"; mk_id := 0; mk_position := zero3;
     mk_scale := (mTerrainMapRes cf, mTerrainMapRes cf, mMapHeightResol cf);
     mk_color := zero3; mk_points := pts; mk_colors := cols |}.

Definition publishLocalMaps (cf : Config) (terrain : Terrain)
  (camX camY minX minY maxX maxY : F) (chunks : list HashKey)
  (subs : Subscribers) (t : Z) (lm : LocalMaps) : option (LocalMaps * list Published) :=
let w := local_window cf camX camY minX minY maxX maxY in
let totCell := u32 (mapRows w * mapCols w) in
(* Pointcloud *)
let ptsCount := i32 (u32 (mapRows w * mapCols w)) in
let pc0 := set_pc_stamp t (mLocalHeightPointcloudMsg lm) in
let pc1 :=
  if negb (pc_width pc0 =? mapCols w) || negb (pc_height pc0 =? mapRows w) then
    modifier_resize ptsCount (setPointCloud2Fields pc0)
  else pc0 in
(* MetaData *)
let mapInfo :=
  {| map_load_time := t; resolution := mTerrainMapRes cf;
     width := mapCols w; height := mapRows w;
     origin_x := mapMinX w; origin_y := mapMinY w |} in
let b0 :=
  {| b_height := vec_fill totCell (-1); b_cost := vec_fill totCell (-1);
     b_cloud := pc_data pc1; b_points := []; b_colors := []; b_boxes := [] |} in
b ← local_rasterize cf terrain camX camY (mapMinX w) (mapMinY w) (mapCols w) totCell
      subs t chunks b0;
let heightMsg := {| stamp := t; info := mapInfo; data := b_height b |} in
let costMsg := {| stamp := t; info := mapInfo; data := b_cost b |} in
let cloudMsg := set_pc_data (b_cloud b) pc1 in
let marker := cube_marker cf (mrkSub subs) t (b_points b) (b_colors b) in
let markers := b_boxes b in
Some ({| mLocHeightMapMsg := heightMsg; mLocCostMapMsg := costMsg;
         mLocalHeightPointcloudMsg := cloudMsg |},
      (if 0 <? heightSub subs then [PubLocalHeightMap heightMsg] else [])
      ++ (if 0 <? costSub subs then [PubLocalCostMap costMsg] else [])
      ++ (if 0 <? cloudSub subs then [PubLocalHeightCloud cloudMsg] else [])
      ++ (if 0 <? mrkSub subs then [PubLocalHeightMrk marker] else [])
      ++ (if 0 <? mrksSub subs then [PubLocalHeightMrks markers] else [])).

(** ** The global rasterizer: [publishGlobalMaps] *)

(** [isfinite] applied to an [int]: the argument is converted to [double],
    and every [int] converts to a finite one. *)
Definition isfinite_int (n : Z) : bool := true.

(** Lines 610-628: elevation, normalized height and normalized cost of cell
    [i]; [(NaN, -1, -1)] for a cell that is not valid. *)
Definition global_sample (cf : Config) (chunk : TerrainChunk) (i : nat) : F * Z * Z :=
if isCellValid chunk i then
  let height := at_ chunk ELEVATION i in
  let heightNorm := height_norm cf height in
  let costNorm := cost_norm (at_ chunk TRAVERSABILITY_COST i) in
  let '(heightNorm, height) :=
    if negb (isfinite_int heightNorm) then (-1, quiet_NaN) else (heightNorm, height) in
  let '(costNorm, height) :=
    if negb (isfinite_int heightNorm) then (-1, quiet_NaN) else (costNorm, height) in
  (height, heightNorm, costNorm)
else (quiet_NaN, -1, -1).

(** Lines 635-648: the cell's raster index, [None] when it is out of range.
    [u], [v] and [mapIdx] are [int]; they meet [uint32_t] operands in
    unsigned arithmetic. *)
Definition global_index (cf : Config) (info : MapMetaData) (xm ym : F) : option Z :=
let mapMinX := origin_x info in
let mapMinY := origin_y info in
let mapRows := height info in
let mapCols := width info in
let u := i32 (u32 (to_uint32 (fround (fdiv (fsub ym mapMinX) (mTerrainMapRes cf))))) in
let v := i32 (u32 (to_uint32 (fround (fdiv (fsub (fneg xm) mapMinY) (mTerrainMapRes cf))))) in
let mapIdx := i32 (u32 (u32 u + u32 (u32 v * mapCols))) in
if (u <? 0) || (v <? 0) || (width info <? u32 u) || (height info <? u32 v)
   || (mapIdx <? 0) || (u32 (mapCols * mapRows) <=? u32 mapIdx)
then None else Some mapIdx.

(** Lines 651-665: what is written for cell [i] at raster index [mapIdx]. *)
Definition global_write (cf : Config) (cloudSub mrkSub : Z) (chunk : TerrainChunk) (i : nat)
  (xm ym : F) (height : F) (heightNorm costNorm : Z) (mapIdx : Z) (b : Buffers)
  : option Buffers :=
dh ← vec_at_put (b_height b) mapIdx (i8 heightNorm);
dc ← vec_at_put (b_cost b) mapIdx (i8 costNorm);
let b1 := set_cost dc (set_height dh b) in
if (0 <? cloudSub) || (0 <? mrkSub) then
  let color_f := at_ chunk COLOR i in
  let half := fdiv (mTerrainMapRes cf) (of_int 2) in
  Some (set_cloud (raw_put (b_cloud b1) mapIdx
                     (fadd ym half, fadd (fneg xm) half, height, color_f)) b1)
else Some b1.

(** Lines 608-666: the body of the inner loop, for cell [i] of [chunk]. *)
Definition global_cell (cf : Config) (info : MapMetaData) (cloudSub mrkSub : Z)
  (chunk : TerrainChunk) (b : Buffers) (i : nat) : option Buffers :=
let '(height, heightNorm, costNorm) := global_sample cf chunk i in
match index2x_y (getDimension chunk) i with
| None => Some b
| Some (xm, ym) =>
  match global_index cf info xm ym with
  | None => Some b
  | Some mapIdx =>
      global_write cf cloudSub mrkSub chunk i xm ym height heightNorm costNorm mapIdx b
  end
end.

Definition global_chunk (cf : Config) (terrain : Terrain) (info : MapMetaData)
  (cloudSub mrkSub : Z) (b : Buffers) (key : HashKey) : option Buffers :=
let chunk := getChunk terrain key in
let cellCount := getFullSizeIdx (getDimension chunk) in
fold_opt (global_cell cf info cloudSub mrkSub chunk) (seq 0 cellCount) b.

Definition global_rasterize (cf : Config) (terrain : Terrain) (info : MapMetaData)
  (cloudSub mrkSub : Z) (chunks : list HashKey) (b : Buffers) : option Buffers :=
fold_opt (global_chunk cf terrain info cloudSub mrkSub) chunks b.

(** Lines 672-714: the cube list is rebuilt from the whole point cloud. *)
Definition global_cubes (cf : Config) (cloud : list Point4) : list Point3 * list Point3 :=
fold_left
  (fun acc (p : Point4) =>
     let '(xm, ym, zm, color_f) := p in
     let color := depackColor3f color_f in
     let col_count := i32 (to_int (fceil (fdiv (fabs zm) (mMapHeightResol cf)))) in
     let half := fdiv (mTerrainMapRes cf) (of_int 2) in
     let pts := cube_column cf (fadd xm half) (fadd ym half) zm col_count in
     (fst acc ++ pts, snd acc ++ map (fun _ => color) pts))
  cloud ([], []).

Definition set_stamps (t : Z) (g : OccupancyGrid) : OccupancyGrid :=
{| stamp := t;
   info := {| map_load_time := t; resolution := resolution (info g);
              width := width (info g); height := height (info g);
              origin_x := origin_x (info g); origin_y := origin_y (info g) |};
   data := data g |}.

Definition set_data (d : list Z) (g : OccupancyGrid) : OccupancyGrid :=
{| stamp := stamp g; info := info g; data := d |}.

Definition set_origin (x y : F) (g : OccupancyGrid) : OccupancyGrid :=
{| stamp := stamp g;
   info := {| map_load_time := map_load_time (info g); resolution := resolution (info g);
              width := width (info g); height := height (info g);
              origin_x := x; origin_y := y |};
   data := data g |}.

Definition publishGlobalMaps (cf : Config) (terrain : Terrain) (chunks : list HashKey)
  (subs : Subscribers) (t : Z) (gm : GlobalMaps) : option (GlobalMaps * list Published) :=
let pc0 := set_pc_stamp t (mGlobalHeightPointcloudMsg gm) in
let height0 := set_stamps t (mGlobHeightMapMsg gm) in
let cost0 := set_stamps t (mGlobCostMapMsg gm) in
let b0 :=
  {| b_height := data height0; b_cost := data cost0; b_cloud := pc_data pc0;
     b_points := []; b_colors := []; b_boxes := [] |} in
b ← global_rasterize cf terrain (info height0) (cloudSub subs) (mrkSub subs) chunks b0;
let '(pts, cols) :=
  if 0 <? mrkSub subs then global_cubes cf (b_cloud b) else ([], []) in
let marker := cube_marker cf (mrkSub subs) t pts cols in
let heightMsg := set_data (b_height b) height0 in
let costMsg := set_data (b_cost b) cost0 in
let cloudMsg := set_pc_data (b_cloud b) pc0 in
Some ({| mGlobHeightMapMsg := heightMsg; mGlobCostMapMsg := costMsg;
         mGlobalHeightPointcloudMsg := cloudMsg;
         mGlobMapWholeUpdate := mGlobMapWholeUpdate gm;
         mLastGlobMapTimestamp := mLastGlobMapTimestamp gm |},
      (if 0 <? heightSub subs then [PubGlobalHeightMap heightMsg] else [])
      ++ (if 0 <? costSub subs then [PubGlobalCostMap costMsg] else [])
      ++ (if 0 <? cloudSub subs then [PubGlobalHeightCloud cloudMsg] else [])
      ++ (if 0 <? mrkSub subs then [PubGlobalHeightMrk marker] else [])).

(** ** [initGlobalMapMsgs] *)

Definition initGlobalMapMsgs (cf : Config) (map_W_m map_H_m : F) (gm : GlobalMaps)
  : GlobalMaps :=
let mapRows := cells_of_span cf map_H_m in
let mapCols := cells_of_span cf map_W_m in
let mapInfo :=
  {| map_load_time := 0; resolution := mTerrainMapRes cf;
     width := mapCols; height := mapRows;
     origin_x := fneg (fdiv map_W_m (of_int 2));
     origin_y := fneg (fdiv map_H_m (of_int 2)) |} in
let pc := mGlobalHeightPointcloudMsg gm in
{| mGlobHeightMapMsg :=
     {| stamp := stamp (mGlobHeightMapMsg gm); info := mapInfo;
        data := vec_fill (u32 (mapRows * mapCols)) (-1) |};
   mGlobCostMapMsg :=
     {| stamp := stamp (mGlobCostMapMsg gm); info := mapInfo;
        data := vec_fill (u32 (mapRows * mapCols)) (-1) |};
   mGlobalHeightPointcloudMsg :=
     if negb (pc_width pc =? mapCols) || negb (pc_height pc =? mapRows) then
       modifier_resize (u32 (mapRows * mapCols)) (setPointCloud2Fields pc)
     else pc;
   mGlobMapWholeUpdate := true;
   mLastGlobMapTimestamp := mLastGlobMapTimestamp gm |}.

(** ** The node: start-up, the two timer callbacks, the services *)

(** What the camera, the parameter server and tf answer during one callback. *)
Record Sensor := {
  (** [mZed] is not null *)
  zed_present : bool;
  (** the [getParam] calls and [setGridResolution] of [startTerrainMapping] *)
  params : Config -> Config;
  (** [enableTerrainMapping(...) == sl::SUCCESS] *)
  enableTerrainMapping : bool;
  (** [retrieveTerrainAsync(mTerrain)]: the new terrain on [sl::SUCCESS] *)
  retrieveTerrainAsync : option Terrain;
  (** [lookupTransform(map, camera)]: the camera position, [None] when tf throws *)
  lookupTransform : option (F * F)
}.

Record ImageSubscribers := { heightImgSub : Z; colorImgSub : Z; costImgSub : Z }.

Definition set_ready (r : bool) (st : State) : State :=
{| mMappingReady := r; mTerrain := mTerrain st; cfg := cfg st; loc := loc st; glob := glob st |}.
Definition set_terrain (t : Terrain) (st : State) : State :=
{| mMappingReady := mMappingReady st; mTerrain := t; cfg := cfg st; loc := loc st;
   glob := glob st |}.
Definition set_cfg (c : Config) (st : State) : State :=
{| mMappingReady := mMappingReady st; mTerrain := mTerrain st; cfg := c; loc := loc st;
   glob := glob st |}.
Definition set_loc (l : LocalMaps) (st : State) : State :=
{| mMappingReady := mMappingReady st; mTerrain := mTerrain st; cfg := cfg st; loc := l;
   glob := glob st |}.
Definition set_glob (g : GlobalMaps) (st : State) : State :=
{| mMappingReady := mMappingReady st; mTerrain := mTerrain st; cfg := cfg st; loc := loc st;
   glob := g |}.

Definition startTerrainMapping (env : Sensor) (st : State) : State * bool :=
if negb (zed_present env) then (st, false) else
let st1 := set_cfg (params env (cfg st)) st in
if negb (enableTerrainMapping env) then (set_ready false st1, false) else
let st2 := set_glob (initGlobalMapMsgs (cfg st1) (of_int 1) (of_int 1) (glob st1)) st1 in
(set_ready true st2, true).

Definition dynamicReconfCallback (loc_map_radius : F) (level : Z) (st : State) : State :=
if level =? 0 then
  set_cfg {| mTerrainMapRes := mTerrainMapRes (cfg st); mMapMaxHeight := mMapMaxHeight (cfg st);
             mMapHeightResol := mMapHeightResol (cfg st); mMapLocalRadius := loc_map_radius;
             mDefaultMap := mDefaultMap (cfg st) |} st
else st.

(** Lines 184-189 and 735-740. *)
Definition ensure_started (env : Sensor) (st : State) : State :=
let st1 :=
  if negb (mMappingReady st) then
    let '(st', r) := startTerrainMapping env st in set_ready r st'
  else st in
set_ready true st1.

(** Lines 260-283: the bounding box of the chunks around the camera. *)
Definition local_limits (terrain : Terrain) (chunks : list HashKey) : F * F * F * F :=
fold_left
  (fun (acc : F * F * F * F) key =>
     let '(minX, minY, maxX, maxY) := acc in
     let dim := getDimension (getChunk terrain key) in
     let minX := if flt (getXmin dim) minX then getXmin dim else minX in
     let minY := if flt (getYmin dim) minY then getYmin dim else minY in
     let maxX := if fgt (getXmax dim) maxX then getXmax dim else maxX in
     let maxY := if fgt (getYmax dim) maxY then getYmax dim else maxY in
     (minX, minY, maxX, maxY))
  chunks (FLT_MAX, FLT_MAX, fneg FLT_MAX, fneg FLT_MAX).

(** Lines 184-296.  The camera is taken to be there: the source calls
    [mZed] at line 195 whatever [startTerrainMapping] returned, and with a
    null [mZed] that call does not return, where this function goes on.
    The wait for the terrain request and the mutex are left out. *)
Definition localTerrainCallback (env : Sensor) (subs : Subscribers) (st : State)
  : option (State * list Published) :=
let st := ensure_started env st in
let run := u32 (heightSub subs + costSub subs + cloudSub subs + mrkSub subs + mrksSub subs) in
if 0 <? run then
  match retrieveTerrainAsync env with
  | Some terrain =>
    let st := set_terrain terrain st in
    let t := getReferenceTS terrain in
    match lookupTransform env with
    | None => Some (st, [])
    | Some (camX, camY) =>
      let chunks :=
        getSurroundingValidChunks terrain (fneg camY) camX (mMapLocalRadius (cfg st)) in
      if 0 <? Z.of_nat (length chunks) then
        let '(minX, minY, maxX, maxY) := local_limits terrain chunks in
        r ← publishLocalMaps (cfg st) terrain camX camY minX minY maxX maxY chunks subs t
              (loc st);
        Some (set_loc (fst r) st, snd r)
      else Some (st, [])
    end
  | None => Some (st, [])
  end
else Some (st, []).

(** Lines 780-791: which chunks this cycle rasterizes, and the new baseline. *)
Definition select_chunks (terrain : Terrain) (gm : GlobalMaps) : list HashKey * GlobalMaps :=
if mGlobMapWholeUpdate gm then
  (getAllValidChunk terrain,
   {| mGlobHeightMapMsg := mGlobHeightMapMsg gm; mGlobCostMapMsg := mGlobCostMapMsg gm;
      mGlobalHeightPointcloudMsg := mGlobalHeightPointcloudMsg gm;
      mGlobMapWholeUpdate := false;
      mLastGlobMapTimestamp := getReferenceTS terrain |})
else
  (getUpdatedChunks terrain (mLastGlobMapTimestamp gm),
   {| mGlobHeightMapMsg := mGlobHeightMapMsg gm; mGlobCostMapMsg := mGlobCostMapMsg gm;
      mGlobalHeightPointcloudMsg := mGlobalHeightPointcloudMsg gm;
      mGlobMapWholeUpdate := mGlobMapWholeUpdate gm;
      mLastGlobMapTimestamp := getReferenceTS terrain |}).

(** Lines 796-806: the bounds of the current raster, in the SDK's axes
    ([minX], [minY], [maxX], [maxY]). *)
Definition global_bounds (gm : GlobalMaps) : F * F * F * F :=
let i := info (mGlobHeightMapMsg gm) in
let mapWm := fmul (of_int (width i)) (resolution i) in
let mapMinX := origin_x i in
let mapMaxX := fadd mapMinX mapWm in
let mapHm := fmul (of_int (height i)) (resolution i) in
let mapMinY := origin_y i in
let mapMaxY := fadd mapMinY mapHm in
(fneg mapMaxY, mapMinX, fneg mapMinY, mapMaxX).

(** Lines 811-835: one chunk of the limits loop. *)
Definition global_limits_step (terrain : Terrain) (acc : F * F * F * F * bool) (key : HashKey)
  : F * F * F * F * bool :=
let '(minX, minY, maxX, maxY, doResize) := acc in
let dim := getDimension (getChunk terrain key) in
let '(minX, doResize) :=
  if flt (getXmin dim) minX then (getXmin dim, true) else (minX, doResize) in
let '(minY, doResize) :=
  if flt (getYmin dim) minY then (getYmin dim, true) else (minY, doResize) in
let '(maxX, doResize) :=
  if fgt (getXmax dim) maxX then (getXmax dim, true) else (maxX, doResize) in
let '(maxY, doResize) :=
  if fgt (getYmax dim) maxY then (getYmax dim, true) else (maxY, doResize) in
(minX, minY, maxX, maxY, doResize).

(** Lines 808-835: the limits of the chunk list, and whether one exceeds
    the current bounds. *)
Definition global_limits (terrain : Terrain) (chunks : list HashKey) (bounds : F * F * F * F)
  : F * F * F * F * bool :=
fold_left (global_limits_step terrain) chunks (bounds, false).

Definition set_whole (w : bool) (gm : GlobalMaps) : GlobalMaps :=
{| mGlobHeightMapMsg := mGlobHeightMapMsg gm; mGlobCostMapMsg := mGlobCostMapMsg gm;
   mGlobalHeightPointcloudMsg := mGlobalHeightPointcloudMsg gm;
   mGlobMapWholeUpdate := w; mLastGlobMapTimestamp := mLastGlobMapTimestamp gm |}.

Definition set_origins (x y : F) (gm : GlobalMaps) : GlobalMaps :=
{| mGlobHeightMapMsg := set_origin x y (mGlobHeightMapMsg gm);
   mGlobCostMapMsg := set_origin x y (mGlobCostMapMsg gm);
   mGlobalHeightPointcloudMsg := mGlobalHeightPointcloudMsg gm;
   mGlobMapWholeUpdate := mGlobMapWholeUpdate gm;
   mLastGlobMapTimestamp := mLastGlobMapTimestamp gm |}.

(** Lines 840-856: the map is reallocated around the new limits. *)
Definition global_resize (cf : Config) (terrain : Terrain) (minX minY maxX maxY : F)
  (gm : GlobalMaps) : list HashKey * GlobalMaps :=
let width := fsub maxX minX in
let height := fsub maxY minY in
let gm1 := initGlobalMapMsgs cf height width gm in
let chunks := getAllValidChunk terrain in
let gm2 := set_whole false gm1 in
(chunks, set_origins minY (fneg maxX) gm2).

(** Lines 794-856: limits, then the resize when one is needed. *)
Definition global_prepare (cf : Config) (terrain : Terrain) (chunks : list HashKey)
  (gm : GlobalMaps) : list HashKey * GlobalMaps :=
let '(minX, minY, maxX, maxY, doResize) :=
  global_limits terrain chunks (global_bounds gm) in
if doResize then global_resize cf terrain minX minY maxX maxY gm else (chunks, gm).

(** Lines 867-904: the three image products. *)
Definition publish_image (sub : Z) (terrain : Terrain) (layer : LayerName)
  (pub : Mat -> Published) : list Published :=
if 0 <? sub then
  let m := generateTerrainMap terrain layer in
  if 0 <? mat_width m * mat_height m then [pub m] else []
else [].

(** Lines 735-912.  As for the local callback the camera is taken to be
    there (line 746), and the wait and the mutex are left out. *)
Definition globalTerrainCallback (env : Sensor) (imgs : ImageSubscribers)
  (subs : Subscribers) (st : State) : option (State * list Published) :=
let st := ensure_started env st in
let run := u32 (heightImgSub imgs + colorImgSub imgs + costImgSub imgs + heightSub subs
                + costSub subs + cloudSub subs + mrkSub subs) in
if 0 <? run then
  match retrieveTerrainAsync env with
  | Some terrain =>
    let st := set_terrain terrain st in
    let '(chunks, gm) := select_chunks terrain (glob st) in
    if 0 <? Z.of_nat (length chunks) then
      let '(chunks, gm) := global_prepare (cfg st) terrain chunks gm in
      r ← publishGlobalMaps (cfg st) terrain chunks subs (mLastGlobMapTimestamp gm) gm;
      Some (set_glob (fst r) st,
            snd r
            ++ publish_image (heightImgSub imgs) terrain ELEVATION PubGlobalHeightMapImg
            ++ publish_image (colorImgSub imgs) terrain COLOR PubGlobalColorMapImg
            ++ publish_image (costImgSub imgs) terrain TRAVERSABILITY_COST
                 PubGlobalCostMapImg)
    else Some (set_glob gm st, [])
  | None => Some (st, [])
  end
else Some (st, []).

(** Lines 1047-1057. *)
Definition globalMapSubscribeCallback (subs : Subscribers) (st : State) : State :=
if (heightSub subs =? 1) || (costSub subs =? 1) || (cloudSub subs =? 1) || (mrkSub subs =? 1)
then set_glob (set_whole true (glob st)) st else st.

(** *** Services *)

(** A handler gets the response object and returns its result and the
    response as it leaves it. *)
Definition Handler : Type := State -> OccupancyGrid -> bool * OccupancyGrid.

Definition on_get_static_map : Handler := fun st res =>
if negb (mMappingReady st) then (false, res) else
(true, if mDefaultMap (cfg st) =? 0 then mGlobHeightMapMsg (glob st)
       else mGlobCostMapMsg (glob st)).

Definition on_get_loc_height_map : Handler := fun st res =>
if negb (mMappingReady st) then (false, res) else (true, mLocHeightMapMsg (loc st)).

Definition on_get_loc_cost_map : Handler := fun st res =>
if negb (mMappingReady st) then (false, res) else (true, mLocCostMapMsg (loc st)).

Definition on_get_glob_height_map : Handler := fun st res =>
if negb (mMappingReady st) then (false, res) else (true, mGlobHeightMapMsg (glob st)).

Definition on_get_glob_cost_map : Handler := fun st res =>
if negb (mMappingReady st) then (false, res) else (true, mGlobCostMapMsg (glob st)).

(** Lines 91-95 of [init]: the services the node advertises. *)
Definition advertised_services : list (string * Handler) :=
[ ("static_map", on_get_static_map);
  ("local_height_map", on_get_loc_height_map);
  ("local_cost_map", on_get_loc_height_map);
  ("global_height_map", on_get_glob_height_map);
  ("global_cost_map", on_get_glob_cost_map) ]%string.

Fixpoint find_service (name : string) (l : list (string * Handler)) : option Handler :=
match l with
| [] => None
| (n, h) :: l' => if String.eqb name n then Some h else find_service name l'
end.

(** A request to the service [name]; [None] when no such service exists. *)
Definition call_service (name : string) (st : State) (res : OccupancyGrid)
  : option (bool * OccupancyGrid) :=
h ← find_service name advertised_services; Some (h st res).

(** ** The node as a state machine

    The callbacks ROS may invoke on the node, in any order. *)

Inductive Event :=
| LocalTick (env : Sensor) (subs : Subscribers)
| GlobalTick (env : Sensor) (imgs : ImageSubscribers) (subs : Subscribers)
| NewSubscriber (subs : Subscribers)
| Reconfigure (loc_map_radius : F) (level : Z).

Definition step (e : Event) (st : State) : option (State * list Published) :=
match e with
| LocalTick env subs => localTerrainCallback env subs st
| GlobalTick env imgs subs => globalTerrainCallback env imgs subs st
| NewSubscriber subs => Some (globalMapSubscribeCallback subs st, [])
| Reconfigure r level => Some (dynamicReconfCallback r level st, [])
end.

Fixpoint run (es : list Event) (st : State) : option (State * list Published) :=
match es with
| [] => Some (st, [])
| e :: es' =>
    r1 ← step e st;
    r2 ← run es' (fst r1);
    Some (fst r2, snd r1 ++ snd r2)
end.

(** ** Derived notions used to state the properties *)

(** The raster index cell [i] of [chunk] writes to in the local rasterizer,
    [None] when the cell is skipped (not valid, no coordinates, beyond the
    radius, or out of the raster). *)
Definition local_target (cf : Config) (camX camY mapMinX mapMinY : F) (mapCols totCell : Z)
  (chunk : TerrainChunk) (i : nat) : option Z :=
if negb (isCellValid chunk i) then None else
match index2x_y (getDimension chunk) i with
| None => None
| Some (xm, ym) =>
  if fgt (local_dist camX camY xm ym) (mMapLocalRadius cf) then None
  else local_index cf mapMinX mapMinY mapCols totCell xm ym
end.

(** The raster index of cell [i] of [chunk] in the global rasterizer,
    valid or not. *)
Definition global_target (cf : Config) (info : MapMetaData) (chunk : TerrainChunk) (i : nat)
  : option Z :=
match index2x_y (getDimension chunk) i with
| None => None
| Some (xm, ym) => global_index cf info xm ym
end.

(** Whether the bounding box [dim] of a chunk exceeds the bounds
    [(minX, minY, maxX, maxY)], given in the SDK's axes. *)
Definition exceeds (bounds : F * F * F * F) (dim : Dimension) : bool :=
let '(minX, minY, maxX, maxY) := bounds in
flt (getXmin dim) minX || flt (getYmin dim) minY
|| fgt (getXmax dim) maxX || fgt (getYmax dim) maxY.

(** The bounding box of a chunk, as [(minX, minY, maxX, maxY)]. *)
Definition box_of (dim : Dimension) : F * F * F * F :=
(getXmin dim, getYmin dim, getXmax dim, getYmax dim).

(** Both rasters have [tot] cells. *)
Definition raster_sized (tot : Z) (b : Buffers) : Prop :=
Z.of_nat (length (b_height b)) = tot /\ Z.of_nat (length (b_cost b)) = tot.


(** Some valid cell of [chunks] within the local radius of the camera has
    the raster index [n]. *)
Definition near_cell (cf : Config) (terrain : Terrain) (chunks : list HashKey)
  (camX camY mapMinX mapMinY : F) (mapCols totCell : Z) (n : nat) : Prop :=
exists key i xm ym,
  key ∈ chunks
  /\ (i < getFullSizeIdx (getDimension (getChunk terrain key)))%nat
  /\ isCellValid (getChunk terrain key) i = true
  /\ index2x_y (getDimension (getChunk terrain key)) i = Some (xm, ym)
  /\ fgt (local_dist camX camY xm ym) (mMapLocalRadius cf) = false
  /\ local_index cf mapMinX mapMinY mapCols totCell xm ym = Some (Z.of_nat n).

(** The invariant of the global maps that [initGlobalMapMsgs] sets up:
    both rasters hold [width * height] cells (as a [uint32_t]). *)
Definition global_wf (gm : GlobalMaps) : Prop :=
let i := info (mGlobHeightMapMsg gm) in
Z.of_nat (length (data (mGlobHeightMapMsg gm))) = u32 (width i * height i)
/\ Z.of_nat (length (data (mGlobCostMapMsg gm))) = u32 (width i * height i).

(** The cost normalization as the specification words it: [round(cost * 100)]. *)
Definition spec_cost_norm (cost : F) : Z := i8 (to_int8 (fround (fmul cost (of_int 100)))).

(** The height normalization as the specification words it:
    [round(|elevation| / maxHeight * 100)]. *)
Definition spec_height_norm (cf : Config) (height : F) : Z :=
i8 (to_int8 (fround (fmul (fdiv (fabs height) (mMapMaxHeight cf)) (of_int 100)))).

(** What a callback's outcome shows of the node's state. *)
Definition observe {A} (f : State -> A) (r : option (State * list Published)) : option A :=
match r with Some (st, _) => Some (f st) | None => None end.

(** A node as its constructor leaves it. *)
Definition initial_state (terrain : Terrain) (cf : Config) : State :=
{| mMappingReady := false; mTerrain := terrain; cfg := cf;
   loc := {| mLocHeightMapMsg := empty_grid; mLocCostMapMsg := empty_grid;
             mLocalHeightPointcloudMsg := empty_cloud |};
   glob := {| mGlobHeightMapMsg := empty_grid; mGlobCostMapMsg := empty_grid;
              mGlobalHeightPointcloudMsg := empty_cloud;
              mGlobMapWholeUpdate := false; mLastGlobMapTimestamp := 0 |} |}.

(** Two sets of buffers that agree on everything but the point buffer,
    with rasters of [tot] cells. *)
Definition same_but_cloud (tot : Z) (b1 b2 : Buffers) : Prop :=
raster_sized tot b1 /\ raster_sized tot b2
/\ b_height b1 = b_height b2 /\ b_cost b1 = b_cost b2
/\ b_points b1 = b_points b2 /\ b_colors b1 = b_colors b2 /\ b_boxes b1 = b_boxes b2.

(** The height raster holds [hv] and the cost raster [cv] at index [n],
    each as far as the local map gives it a subscriber. *)
Definition local_holds (subs : Subscribers) (n : nat) (hv cv : Z) (b : Buffers) : Prop :=
(0 < heightSub subs -> b_height b !! n = Some hv)
/\ (0 < costSub subs -> b_cost b !! n = Some cv).

(** Both rasters hold these values at index [n]. *)
Definition global_holds (n : nat) (hv cv : Z) (b : Buffers) : Prop :=
b_height b !! n = Some hv /\ b_cost b !! n = Some cv.

(** The message [p] carries the time stamp [t] (an image keeps none in
    this model). *)
Definition stamped (t : Z) (p : Published) : Prop :=
match p with
| PubLocalHeightMap g | PubLocalCostMap g | PubGlobalHeightMap g | PubGlobalCostMap g =>
    stamp g = t /\ map_load_time (info g) = t
| PubLocalHeightCloud c | PubGlobalHeightCloud c => pc_stamp c = t
| PubLocalHeightMrk m | PubGlobalHeightMrk m => mk_stamp m = t
| PubLocalHeightMrks ms => forall m, m ∈ ms -> mk_stamp m = t
| PubGlobalHeightMapImg _ | PubGlobalColorMapImg _ | PubGlobalCostMapImg _ => True
end.

(** [m] is the box marker that a local cycle at time [t] builds for cell
    [i] of chunk [key], a cell the cycle writes at raster index [idx]. *)
Definition box_of_cell (cf : Config) (terrain : Terrain) (camX camY mapMinX mapMinY : F)
  (mapCols totCell : Z) (t : Z) (key : HashKey) (i : nat) (xm ym : F) (idx : Z) (m : Marker)
  : Prop :=
index2x_y (getDimension (getChunk terrain key)) i = Some (xm, ym)
/\ local_target cf camX camY mapMinX mapMinY mapCols totCell (getChunk terrain key) i = Some idx
/\ m = local_box cf t idx xm ym (at_ (getChunk terrain key) ELEVATION i)
          (depackColor3f (at_ (getChunk terrain key) COLOR i)).

(** [m] is the box marker of some cell of the chunks [chunks]. *)
Definition box_of_cycle (cf : Config) (terrain : Terrain) (chunks : list HashKey)
  (camX camY mapMinX mapMinY : F) (mapCols totCell : Z) (t : Z) (m : Marker) : Prop :=
exists key i xm ym idx,
  key ∈ chunks
  /\ (i < getFullSizeIdx (getDimension (getChunk terrain key)))%nat
  /\ box_of_cell cf terrain camX camY mapMinX mapMinY mapCols totCell t key i xm ym idx m.

(** The global height and cost grids describe the same raster. *)
Definition global_twins (gm : GlobalMaps) : Prop :=
global_wf gm /\ info (mGlobCostMapMsg gm) = info (mGlobHeightMapMsg gm).

(** The cloud holds as many points as its [height] and [width] announce. *)
Definition cloud_sized (c : PointCloud2) : Prop :=
Z.of_nat (length (pc_data c)) = u32 (pc_height c * pc_width c).

(** The global grids are twins and the point buffer is a sized cloud with
    one point per raster cell. *)
Definition global_cloud_fits (gm : GlobalMaps) : Prop :=
global_twins gm
/\ cloud_sized (mGlobalHeightPointcloudMsg gm)
/\ length (pc_data (mGlobalHeightPointcloudMsg gm)) = length (data (mGlobHeightMapMsg gm)).

End Model.

(** ** Boxes in exact arithmetic *)

(** The box [outer] contains the box [inner]; both are
    [(minX, minY, maxX, maxY)] with finite coordinates. *)
Definition covers (outer inner : Exact.real * Exact.real * Exact.real * Exact.real) : Prop :=
let '(a', b', c', d') := outer in
let '(a, b, c, d) := inner in
Exact.leq a' a /\ Exact.leq b' b /\ Exact.leq c c' /\ Exact.leq d d'.

Definition box_finite (b : Exact.real * Exact.real * Exact.real * Exact.real) : Prop :=
let '(a, b, c, d) := b in
Exact.finite a /\ Exact.finite b /\ Exact.finite c /\ Exact.finite d.

(** The cell count of the span [lo .. hi] at resolution [r] fits the
    [uint32_t] it is converted to, with room for the [+ 1]. *)
Definition span_fits (r : Q) (lo hi : Exact.real) : Prop :=
0 <= Qceiling ((Exact.val hi - Exact.val lo) / r) < 2 ^ 32 - 1.

Definition limits_fit (r : Q)
  (lim : Exact.real * Exact.real * Exact.real * Exact.real * bool) : Prop :=
let '(minX, minY, maxX, maxY, _) := lim in
span_fits r minX maxX /\ span_fits r minY maxY.

(** A value within the range of the finite [float]s. *)
Definition in_float_range (x : Exact.real) : Prop :=
Exact.leq (fneg FLT_MAX) x /\ Exact.leq x FLT_MAX.

Definition box_in_float_range (b : Exact.real * Exact.real * Exact.real * Exact.real) : Prop :=
let '(a, b, c, d) := b in
in_float_range a /\ in_float_range b /\ in_float_range c /\ in_float_range d.

(** ** A concrete scene, in binary32

    Chunk [k] has the bounding box [2k,0]-[2k+1,1] and 3 x 3 cells at
    resolution 0.5; every cell but the middle one is valid, and all carry
    the same elevation and cost.  The maximum height is 4.0. *)

Module Scene.

Import Binary32.

Definition depack (c : float) : float * float * float := (c, c, c).

Definition half : float := dec 5 1.

Definition dim (x0 y0 : Z) : Dimension :=
{| getXmin := of_Z x0; getYmin := of_Z y0; getXmax := of_Z (x0 + 1); getYmax := of_Z (y0 + 1);
   getFullSizeIdx := 9;
   index2x_y := fun i =>
     if (i <? 9)%nat
     then Some (fadd (of_Z x0) (fmul (of_Z (Z.of_nat (i mod 3))) half),
                fadd (of_Z y0) (fmul (of_Z (Z.of_nat (i / 3))) half))
     else None |}.

Definition chunk (k : Z) (elevation cost : float) : TerrainChunk :=
{| getDimension := dim (2 * k) 0;
   isCellValid := fun i => negb (i =? 4)%nat;
   at_ := fun l _ =>
     match l with ELEVATION => elevation | TRAVERSABILITY_COST => cost | COLOR => of_Z 7 end |}.

(** A snapshot taken at [ts] with the valid chunks [all], of which
    [updated] changed since the snapshot before. *)
Definition terrain (elevation cost : float) (ts : Z) (all updated : list HashKey) : Terrain :=
{| getChunk := fun k => chunk k elevation cost;
   getAllValidChunk := all;
   getUpdatedChunks := fun since => if since <? ts then updated else [];
   getSurroundingValidChunks := fun _ _ _ => [0];
   getReferenceTS := ts;
   generateTerrainMap := fun _ => {| mat_width := 0; mat_height := 0; mat_pixels := [] |} |}.

Definition config (radius : Z) : Config :=
{| mTerrainMapRes := half; mMapMaxHeight := of_Z 4; mMapHeightResol := of_Z 1;
   mMapLocalRadius := of_Z radius; mDefaultMap := 0 |}.

Definition subscribers (h c p m ms : Z) : Subscribers :=
{| heightSub := h; costSub := c; cloudSub := p; mrkSub := m; mrksSub := ms |}.

Definition no_images : ImageSubscribers :=
{| heightImgSub := 0; colorImgSub := 0; costImgSub := 0 |}.

(** The camera stands at the map's origin. *)
Definition sensor (t : Terrain) : Sensor :=
{| zed_present := true; params := fun c => c; enableTerrainMapping := true;
   retrieveTerrainAsync := Some t; lookupTransform := Some (of_Z 0, of_Z 0) |}.

(** Elevation 2.0 and cost 0.73: first chunk 0 alone, then chunk 1 appears. *)
Definition terrain0 : Terrain := terrain (of_Z 2) (dec 73 2) 42 [0] [0].
Definition terrain1 : Terrain := terrain (of_Z 2) (dec 73 2) 43 [0; 1] [1].

(** The same scene with cost 65/128 = 0.5078125. *)
Definition cost_frac : float := fdiv (of_Z 65) (of_Z 128).
Definition terrain_frac : Terrain := terrain (of_Z 2) cost_frac 42 [0] [0].

Definition state0 : State := initial_state terrain0 (config 3).

Definition empty_local : LocalMaps := loc state0.

(** The global maps as [startTerrainMapping] sets them up. *)
Definition glob0 : GlobalMaps :=
initGlobalMapMsgs (config 3) (of_Z 1) (of_Z 1) (glob state0).

(** The first local cycle, for the height and the cost raster. *)
Definition local_cycle (t : Terrain) : option (State * list Published) :=
localTerrainCallback depack (sensor t) (subscribers 1 1 0 0 0) (initial_state t (config 3)).

(** Two global cycles: the first sees chunk 0 and serves a point-cloud
    subscriber; the second sees chunk 1 appear and serves a height-map
    subscriber only. *)
Definition global_cycle1 : option (State * list Published) :=
globalTerrainCallback depack (sensor terrain0) no_images (subscribers 0 0 1 0 0) state0.

Definition global_cycle2 : option (State * list Published) :=
match global_cycle1 with
| Some (st, _) =>
    globalTerrainCallback depack (sensor terrain1) no_images (subscribers 1 0 0 0 0) st
| None => None
end.

(** Empty buffers for a raster of 9 cells. *)
Definition buffers9 : Buffers (F := float) :=
{| b_height := vec_fill 9 (-1); b_cost := vec_fill 9 (-1); b_cloud := vec_fill 9 zero4;
   b_points := []; b_colors := []; b_boxes := [] |}.

(** The global maps after the resize that chunk 0 forces at start-up. *)
Definition glob1 : GlobalMaps := snd (global_prepare (config 3) terrain0 [0] glob0).

(** The same maps after earlier cycles left the value 55 in every cell. *)
Definition glob_left : GlobalMaps :=
{| mGlobHeightMapMsg := set_data (vec_fill 20 55) (mGlobHeightMapMsg glob1);
   mGlobCostMapMsg := set_data (vec_fill 20 55) (mGlobCostMapMsg glob1);
   mGlobalHeightPointcloudMsg := mGlobalHeightPointcloudMsg glob1;
   mGlobMapWholeUpdate := false; mLastGlobMapTimestamp := 41 |}.

(** The point the first global cycle writes for cell 2 of chunk 0. *)
Definition point1 : float * float * float * float :=
(dec 25 2, fneg (dec 75 2), of_Z 2, of_Z 7).

(** A node without camera, and one whose camera transform is not known. *)
Definition no_camera : Sensor :=
{| zed_present := false; params := fun c => c; enableTerrainMapping := false;
   retrieveTerrainAsync := Some terrain0; lookupTransform := Some (of_Z 0, of_Z 0) |}.

Definition no_transform : Sensor :=
{| zed_present := true; params := fun c => c; enableTerrainMapping := true;
   retrieveTerrainAsync := Some terrain0; lookupTransform := None |}.

(** A later snapshot in which no chunk has changed. *)
Definition terrain_quiet : Terrain := terrain (of_Z 2) (dec 73 2) 44 [0] [].

(** The node of the scene once it is ready. *)
Definition state_ready : State := set_ready true state0.

(** A camera on which the terrain mapping cannot be enabled. *)
Definition no_mapping : Sensor :=
{| zed_present := true; params := fun c => c; enableTerrainMapping := false;
   retrieveTerrainAsync := Some terrain0; lookupTransform := Some (of_Z 0, of_Z 0) |}.



(** The first snapshot with 2 x 2 terrain images. *)
Definition terrain_pictured : Terrain :=
{| getChunk := getChunk terrain0;
   getAllValidChunk := getAllValidChunk terrain0;
   getUpdatedChunks := getUpdatedChunks terrain0;
   getSurroundingValidChunks := getSurroundingValidChunks terrain0;
   getReferenceTS := getReferenceTS terrain0;
   generateTerrainMap := fun _ =>
     {| mat_width := 2; mat_height := 2; mat_pixels := [of_Z 0; of_Z 0; of_Z 0; of_Z 0] |} |}.

End Scene.

(** ** The same kind of scene in exact arithmetic, without cells

    Every chunk has the bounding box [2,0]-[3,1]; the resolution is 1/2. *)

Module ExactScene.

Import Exact.

Definition dim : Dimension :=
{| getXmin := Fin 2; getYmin := Fin 0; getXmax := Fin 3; getYmax := Fin 1;
   getFullSizeIdx := 0; index2x_y := fun _ => None |}.

Definition chunk : TerrainChunk :=
{| getDimension := dim; isCellValid := fun _ => false; at_ := fun _ _ => NaN |}.

Definition terrain : Terrain :=
{| getChunk := fun _ => chunk;
   getAllValidChunk := [0; 1];
   getUpdatedChunks := fun _ => [1];
   getSurroundingValidChunks := fun _ _ _ => [0];
   getReferenceTS := 43;
   generateTerrainMap := fun _ => {| mat_width := 0; mat_height := 0; mat_pixels := [] |} |}.

Definition config : Config :=
{| mTerrainMapRes := Fin (1 # 2); mMapMaxHeight := Fin 4; mMapHeightResol := Fin 1;
   mMapLocalRadius := Fin 3; mDefaultMap := 0 |}.

(** The global maps as [startTerrainMapping] sets them up. *)
Definition glob0 : GlobalMaps :=
initGlobalMapMsgs config (Fin 1) (Fin 1) (glob (initial_state terrain config)).

(** A 3 x 3 raster with its origin at (0, 0). *)
Definition info33 : MapMetaData :=
{| map_load_time := 0; resolution := Fin (1 # 2); width := 3; height := 3;
   origin_x := Fin 0; origin_y := Fin 0 |}.

End ExactScene.

(** * Properties *)

(** ** Machine integers and containers *)

Lemma u32_range z : 0 <= u32 z < 2 ^ 32.
Proof. unfold u32. apply Z.mod_pos_bound. lia. Qed.

Lemma u32_small z : 0 <= z < 2 ^ 32 -> u32 z = z.
Proof. intros. unfold u32. apply Z.mod_small. lia. Qed.

Lemma u32_le z : 0 <= z -> u32 z <= z.
Proof. intros. unfold u32. apply Z.mod_le; lia. Qed.

Lemma i32_range z : - 2 ^ 31 <= i32 z < 2 ^ 31.
Proof. unfold i32. pose proof (Z.mod_pos_bound (z + 2 ^ 31) (2 ^ 32)). lia. Qed.

Lemma i32_nonneg_u32 z : 0 <= i32 z -> u32 (i32 z) = i32 z.
Proof. intros. apply u32_small. pose proof (i32_range z). lia. Qed.

Lemma i8_range z : -128 <= i8 z <= 127.
Proof. unfold i8. pose proof (Z.mod_pos_bound (z + 2 ^ 7) (2 ^ 8)). lia. Qed.

Lemma i8_small z : -128 <= z <= 127 -> i8 z = z.
Proof. intros. unfold i8. rewrite Z.mod_small; lia. Qed.

Lemma vec_at_put_Some {A} (v : list A) i x :
  0 <= i < Z.of_nat (length v) -> vec_at_put v i x = Some (<[Z.to_nat i := x]> v).
Proof.
  intros Hi. unfold vec_at_put.
  destruct (Z.leb_spec 0 i); [|lia]. destruct (Z.ltb_spec i (Z.of_nat (length v))); [|lia].
  reflexivity.
Qed.

Lemma vec_fill_length {A} n (x : A) : 0 <= n -> Z.of_nat (length (vec_fill n x)) = n.
Proof. intros. unfold vec_fill. rewrite length_replicate. lia. Qed.

(** ** Loops *)

Lemma fold_opt_invariant {A B} (P : B -> Prop) (f : B -> A -> option B) (l : list A) (b : B) :
  (forall b x, x ∈ l -> P b -> exists b', f b x = Some b' /\ P b') ->
  P b -> exists b', fold_opt f l b = Some b' /\ P b'.
Proof.
  revert b. induction l as [|x l IH]; intros b Hf Hb; simpl.
  - eauto.
  - destruct (Hf b x) as (b1 & -> & Hb1); [left | assumption |]. simpl.
    apply IH; [|assumption]. intros b2 y Hy. apply Hf. by right.
Qed.

Lemma fold_opt_establish {A B} (I P : B -> Prop) (f : B -> A -> option B) (l : list A)
    (b : B) :
  (forall b x, x ∈ l -> I b -> exists b', f b x = Some b' /\ I b' /\ (P b -> P b')) ->
  (exists x, x ∈ l /\ forall b b', I b -> f b x = Some b' -> P b') ->
  I b -> exists b', fold_opt f l b = Some b' /\ I b' /\ P b'.
Proof.
  revert b. induction l as [|x l IH]; intros b Hstep (y & Hy & Hest) Hb.
  - by apply elem_of_nil in Hy.
  - simpl. destruct (Hstep b x) as (b1 & Hfx & Hb1 & Hkeep); [left | assumption |].
    rewrite Hfx. simpl.
    apply elem_of_cons in Hy as [->|Hy].
    + assert (HP : P b1) by exact (Hest b b1 Hb Hfx).
      destruct (fold_opt_invariant (fun b => I b /\ P b) f l b1) as (b' & Hb' & HI & HP').
      * intros b2 z Hz [HI2 HP2].
        destruct (Hstep b2 z) as (b3 & ? & ? & ?); [by right | assumption |]. eauto.
      * split; assumption.
      * eauto.
    + apply IH; [|eauto|assumption]. intros b2 z Hz. apply Hstep. by right.
Qed.

Section Facts.

Context {F : Type} `{FloatOps F} `{FloatSqrt F}.
Variable depackColor3f : F -> F * F * F.

(** ** Raster indices stay inside the raster *)

Lemma local_index_bound (cf : Config) mapMinX mapMinY mapCols totCell (xm ym : F) idx :
  local_index cf mapMinX mapMinY mapCols totCell xm ym = Some idx ->
  0 <= idx < totCell.
Proof.
  unfold local_index. intros Hidx.
  destruct (Z.leb_spec totCell
    (u32 (u32 (to_uint32 (fround (fdiv (fsub ym mapMinX) (mTerrainMapRes cf)))) +
          u32 (to_uint32 (fround (fdiv (fsub (fneg xm) mapMinY) (mTerrainMapRes cf)))) *
          mapCols))) as [Hle|Hlt]; [discriminate|].
  injection Hidx as <-. split; [apply u32_range | exact Hlt].
Qed.

Lemma global_index_bound (cf : Config) (i : MapMetaData) (xm ym : F) idx :
  global_index cf i xm ym = Some idx ->
  0 <= idx < u32 (width i * height i).
Proof.
  unfold global_index. cbv zeta.
  set (u := i32 _). set (v := i32 _). set (m := i32 _).
  intros Hidx.
  destruct (u <? 0), (v <? 0), (width i <? u32 u), (height i <? u32 v);
    simpl in Hidx; try discriminate.
  destruct (Z.ltb_spec m 0) as [|Hm]; simpl in Hidx; [discriminate|].
  destruct (Z.leb_spec (u32 (width i * height i)) (u32 m)) as [|Hlt];
    simpl in Hidx; [discriminate|].
  injection Hidx as <-. unfold m in *. rewrite (i32_nonneg_u32 _ Hm) in Hlt.
  split; assumption.
Qed.

(** A subscriber count that is zero does not pass its [0 < sub] test. *)
Ltac gate_contra :=
  repeat match goal with
         | |- _ -> _ => intro
         | E : ?x = 0, E' : (0 <? ?x) = true |- _ => rewrite E in E'; discriminate
         end.

(** What [local_write] leaves in the buffers. *)
Lemma local_write_spec cf subs t chunk i xm ym idx totCell b :
  raster_sized totCell b -> 0 <= idx < totCell ->
  exists b', local_write depackColor3f cf subs t chunk i xm ym idx b = Some b'
    /\ raster_sized totCell b'
    /\ b_cost b' = (if 0 <? costSub subs
                    then <[Z.to_nat idx := cost_norm (at_ chunk TRAVERSABILITY_COST i)]>
                           (b_cost b)
                    else b_cost b)
    /\ b_height b' = (if 0 <? heightSub subs
                      then <[Z.to_nat idx := height_norm cf (at_ chunk ELEVATION i)]>
                             (b_height b)
                      else b_height b)
    /\ (cloudSub subs = 0 -> b_cloud b' = b_cloud b)
    /\ (mrkSub subs = 0 -> b_points b' = b_points b /\ b_colors b' = b_colors b)
    /\ (mrksSub subs = 0 -> b_boxes b' = b_boxes b).
Proof.
  intros [Hh Hc] Hidx. unfold local_write.
  rewrite (vec_at_put_Some (b_cost b)) by lia.
  destruct (0 <? costSub subs) eqn:Ec; simpl.
  - rewrite (vec_at_put_Some (b_height b)) by lia.
    destruct (0 <? heightSub subs) eqn:Eh, (0 <? cloudSub subs) eqn:Ep,
      (0 <? mrkSub subs) eqn:Em, (0 <? mrksSub subs) eqn:Es; simpl;
      try destruct (fgt _ _); simpl;
      (eexists; split; [reflexivity|]); unfold raster_sized; simpl;
      rewrite ?length_insert;
      repeat split; try assumption; try reflexivity; gate_contra.
  - rewrite (vec_at_put_Some (b_height b)) by lia.
    destruct (0 <? heightSub subs) eqn:Eh, (0 <? cloudSub subs) eqn:Ep,
      (0 <? mrkSub subs) eqn:Em, (0 <? mrksSub subs) eqn:Es; simpl;
      try destruct (fgt _ _); simpl;
      (eexists; split; [reflexivity|]); unfold raster_sized; simpl;
      rewrite ?length_insert;
      repeat split; try assumption; try reflexivity; gate_contra.
Qed.

Lemma local_cell_target cf camX camY mapMinX mapMinY mapCols totCell subs t chunk b i :
  local_cell depackColor3f cf camX camY mapMinX mapMinY mapCols totCell subs t chunk b i
  = match local_target cf camX camY mapMinX mapMinY mapCols totCell chunk i with
    | None => Some b
    | Some idx =>
        match index2x_y (getDimension chunk) i with
        | Some (xm, ym) => local_write depackColor3f cf subs t chunk i xm ym idx b
        | None => Some b
        end
    end.
Proof.
  unfold local_cell, local_target.
  destruct (negb (isCellValid chunk i)); [reflexivity|].
  destruct (index2x_y (getDimension chunk) i) as [[xm ym]|]; [|reflexivity].
  destruct (fgt _ _); [reflexivity|].
  destruct (local_index _ _ _ _ _ _ _); reflexivity.
Qed.

Lemma local_target_bound cf camX camY mapMinX mapMinY mapCols totCell chunk i idx :
  local_target cf camX camY mapMinX mapMinY mapCols totCell chunk i = Some idx ->
  0 <= idx < totCell.
Proof.
  unfold local_target.
  destruct (negb (isCellValid chunk i)); [discriminate|].
  destruct (index2x_y (getDimension chunk) i) as [[xm ym]|]; [|discriminate].
  destruct (fgt _ _); [discriminate|]. apply local_index_bound.
Qed.

(** What one cell of the local rasterizer leaves in the buffers. *)
Lemma local_cell_spec cf camX camY mapMinX mapMinY mapCols totCell subs t chunk b i :
  raster_sized totCell b ->
  exists b', local_cell depackColor3f cf camX camY mapMinX mapMinY mapCols totCell
               subs t chunk b i = Some b'
    /\ raster_sized totCell b'
    /\ b_cost b' =
         match local_target cf camX camY mapMinX mapMinY mapCols totCell chunk i with
         | Some idx =>
             if 0 <? costSub subs
             then <[Z.to_nat idx := cost_norm (at_ chunk TRAVERSABILITY_COST i)]> (b_cost b)
             else b_cost b
         | None => b_cost b
         end
    /\ b_height b' =
         match local_target cf camX camY mapMinX mapMinY mapCols totCell chunk i with
         | Some idx =>
             if 0 <? heightSub subs
             then <[Z.to_nat idx := height_norm cf (at_ chunk ELEVATION i)]> (b_height b)
             else b_height b
         | None => b_height b
         end
    /\ (cloudSub subs = 0 -> b_cloud b' = b_cloud b)
    /\ (mrkSub subs = 0 -> b_points b' = b_points b /\ b_colors b' = b_colors b)
    /\ (mrksSub subs = 0 -> b_boxes b' = b_boxes b).
Proof.
  intros Hb. rewrite local_cell_target.
  destruct (local_target _ _ _ _ _ _ _ _ _) as [idx|] eqn:Ht;
    [|exists b; repeat split; auto; apply Hb].
  pose proof (local_target_bound _ _ _ _ _ _ _ _ _ _ Ht) as Hidx.
  destruct (index2x_y (getDimension chunk) i) as [[xm ym]|] eqn:Hxy.
  - by apply local_write_spec.
  - unfold local_target in Ht. rewrite Hxy in Ht.
    destruct (negb (isCellValid chunk i)); discriminate.
Qed.

Lemma local_cell_sized cf camX camY mapMinX mapMinY mapCols totCell subs t chunk b i :
  raster_sized totCell b ->
  exists b', local_cell depackColor3f cf camX camY mapMinX mapMinY mapCols totCell
               subs t chunk b i = Some b'
             /\ raster_sized totCell b'.
Proof.
  intros Hb.
  destruct (local_cell_spec cf camX camY mapMinX mapMinY mapCols totCell subs t chunk b i Hb)
    as (b' & Hb' & Hs & _).
  eauto.
Qed.

Lemma local_rasterize_sized cf terrain camX camY mapMinX mapMinY mapCols totCell subs t
    chunks b :
  raster_sized totCell b ->
  exists b', local_rasterize depackColor3f cf terrain camX camY mapMinX mapMinY mapCols
               totCell subs t chunks b = Some b'
             /\ raster_sized totCell b'.
Proof.
  intros Hb. unfold local_rasterize.
  apply fold_opt_invariant; [|assumption].
  intros b1 key _ Hb1. unfold local_chunk.
  apply fold_opt_invariant; [|assumption].
  intros b2 i _ Hb2. by apply local_cell_sized.
Qed.

(** What one cell of the global rasterizer leaves in the buffers. *)
Lemma global_cell_spec cf (i0 : MapMetaData) cloud mrk chunk b i :
  raster_sized (u32 (width i0 * height i0)) b ->
  exists b', global_cell cf i0 cloud mrk chunk b i = Some b'
    /\ raster_sized (u32 (width i0 * height i0)) b'
    /\ b_height b' =
         match global_target cf i0 chunk i with
         | Some idx => <[Z.to_nat idx := i8 (snd (fst (global_sample cf chunk i)))]> (b_height b)
         | None => b_height b
         end
    /\ b_cost b' =
         match global_target cf i0 chunk i with
         | Some idx => <[Z.to_nat idx := i8 (snd (global_sample cf chunk i))]> (b_cost b)
         | None => b_cost b
         end
    /\ (cloud = 0 -> mrk = 0 -> b_cloud b' = b_cloud b)
    /\ b_points b' = b_points b /\ b_colors b' = b_colors b /\ b_boxes b' = b_boxes b.
Proof.
  intros [Hh Hc]. unfold global_cell, global_target.
  destruct (global_sample cf chunk i) as [[hgt hn] cn]. simpl.
  destruct (index2x_y (getDimension chunk) i) as [[xm ym]|];
    [|exists b; repeat split; auto].
  destruct (global_index cf i0 xm ym) as [idx|] eqn:Hidx;
    [|exists b; repeat split; auto].
  apply global_index_bound in Hidx. unfold global_write.
  rewrite (vec_at_put_Some (b_height b)) by lia.
  rewrite (vec_at_put_Some (b_cost b)) by lia. simpl.
  destruct (0 <? cloud) eqn:Ec, (0 <? mrk) eqn:Em; simpl;
    (eexists; split; [reflexivity|]); unfold raster_sized; simpl;
    rewrite ?length_insert; repeat split; try assumption; try reflexivity; gate_contra.
Qed.

Lemma global_cell_sized cf (i0 : MapMetaData) cloud mrk chunk b i :
  raster_sized (u32 (width i0 * height i0)) b ->
  exists b', global_cell cf i0 cloud mrk chunk b i = Some b'
             /\ raster_sized (u32 (width i0 * height i0)) b'.
Proof.
  intros Hb. destruct (global_cell_spec cf i0 cloud mrk chunk b i Hb) as (b' & Hb' & Hs & _).
  eauto.
Qed.

Lemma global_rasterize_sized cf terrain (i0 : MapMetaData) cloud mrk chunks b :
  raster_sized (u32 (width i0 * height i0)) b ->
  exists b', global_rasterize cf terrain i0 cloud mrk chunks b = Some b'
             /\ raster_sized (u32 (width i0 * height i0)) b'.
Proof.
  intros Hb. unfold global_rasterize.
  apply fold_opt_invariant; [|assumption].
  intros b1 key _ Hb1. unfold global_chunk.
  apply fold_opt_invariant; [|assumption].
  intros b2 i _ Hb2. by apply global_cell_sized.
Qed.

Lemma cells_of_span_range (cf : Config) (span : F) : 0 <= cells_of_span cf span < 2 ^ 32.
Proof. apply u32_range. Qed.

Lemma publishLocalMaps_total cf terrain camX camY minX minY maxX maxY chunks subs t lm :
  let w := local_window cf camX camY minX minY maxX maxY in
  exists lm' pubs,
    publishLocalMaps depackColor3f cf terrain camX camY minX minY maxX maxY chunks subs t lm
    = Some (lm', pubs)
    /\ Z.of_nat (length (data (mLocHeightMapMsg lm'))) = u32 (mapRows w * mapCols w)
    /\ Z.of_nat (length (data (mLocCostMapMsg lm'))) = u32 (mapRows w * mapCols w)
    /\ width (info (mLocHeightMapMsg lm')) = mapCols w
    /\ height (info (mLocHeightMapMsg lm')) = mapRows w
    /\ info (mLocCostMapMsg lm') = info (mLocHeightMapMsg lm').
Proof.
  intros w. unfold publishLocalMaps. fold w.
  set (tot := u32 (mapRows w * mapCols w)).
  match goal with
  | |- context [local_rasterize _ _ _ _ _ _ _ _ _ _ _ _ ?b0] =>
      destruct (local_rasterize_sized cf terrain camX camY (mapMinX w) (mapMinY w)
                  (mapCols w) tot subs t chunks b0) as (b & -> & Hh & Hc)
  end.
  { pose proof (u32_range (mapRows w * mapCols w)).
    split; simpl; apply vec_fill_length; unfold tot; lia. }
  simpl. eexists _, _. split; [reflexivity|]. simpl. auto.
Qed.

Lemma publishGlobalMaps_total cf terrain chunks subs t gm :
  global_wf gm ->
  exists gm' pubs,
    publishGlobalMaps depackColor3f cf terrain chunks subs t gm = Some (gm', pubs)
    /\ global_wf gm'
    /\ width (info (mGlobHeightMapMsg gm')) = width (info (mGlobHeightMapMsg gm))
    /\ height (info (mGlobHeightMapMsg gm')) = height (info (mGlobHeightMapMsg gm))
    /\ mGlobMapWholeUpdate gm' = mGlobMapWholeUpdate gm
    /\ mLastGlobMapTimestamp gm' = mLastGlobMapTimestamp gm.
Proof.
  intros [Hh Hc]. unfold publishGlobalMaps.
  match goal with
  | |- context [global_rasterize _ _ ?i0 _ _ _ ?b0] =>
      destruct (global_rasterize_sized cf terrain i0 (cloudSub subs) (mrkSub subs) chunks b0)
        as (b & -> & Hh' & Hc')
  end.
  { split; simpl; assumption. }
  simpl in *. destruct (if 0 <? mrkSub subs then _ else _) as [pts cols].
  eexists _, _. split; [reflexivity|]. unfold global_wf. simpl. auto 10.
Qed.

Lemma initGlobalMapMsgs_wf cf (w h : F) gm : global_wf (initGlobalMapMsgs cf w h gm).
Proof.
  unfold global_wf, initGlobalMapMsgs. simpl.
  pose proof (u32_range (cells_of_span cf h * cells_of_span cf w)).
  rewrite (Z.mul_comm (cells_of_span cf w)).
  split; apply vec_fill_length; lia.
Qed.

(** ** Frames: what a rasterization leaves untouched *)

Lemma local_rasterize_frame cf terrain camX camY mapMinX mapMinY mapCols totCell subs t
    chunks b :
  raster_sized totCell b ->
  exists b', local_rasterize depackColor3f cf terrain camX camY mapMinX mapMinY mapCols
               totCell subs t chunks b = Some b'
    /\ raster_sized totCell b'
    /\ (costSub subs = 0 -> b_cost b' = b_cost b)
    /\ (heightSub subs = 0 -> b_height b' = b_height b)
    /\ (cloudSub subs = 0 -> b_cloud b' = b_cloud b)
    /\ (mrkSub subs = 0 -> b_points b' = b_points b /\ b_colors b' = b_colors b)
    /\ (mrksSub subs = 0 -> b_boxes b' = b_boxes b).
Proof.
  intros Hb.
  set (P := fun b1 : Buffers =>
    raster_sized totCell b1
    /\ (costSub subs = 0 -> b_cost b1 = b_cost b)
    /\ (heightSub subs = 0 -> b_height b1 = b_height b)
    /\ (cloudSub subs = 0 -> b_cloud b1 = b_cloud b)
    /\ (mrkSub subs = 0 -> b_points b1 = b_points b /\ b_colors b1 = b_colors b)
    /\ (mrksSub subs = 0 -> b_boxes b1 = b_boxes b)).
  unfold local_rasterize. apply (fold_opt_invariant P); [|unfold P; repeat split; auto; apply Hb].
  intros b1 key _ Hb1. unfold local_chunk.
  apply (fold_opt_invariant P); [|assumption].
  unfold P. intros b2 i _ (Hs & Hc & Hh & Hp & Hm & Hx).
  destruct (local_cell_spec cf camX camY mapMinX mapMinY mapCols totCell subs t
              (getChunk terrain key) b2 i Hs)
    as (b3 & Hb3 & Hs3 & Hc3 & Hh3 & Hp3 & Hm3 & Hx3).
  exists b3. split; [assumption|]. split; [assumption|].
  split; [|split; [|split; [|split]]].
  - intros E. rewrite Hc3, E. simpl. destruct (local_target _ _ _ _ _ _ _ _ _); auto.
  - intros E. rewrite Hh3, E. simpl. destruct (local_target _ _ _ _ _ _ _ _ _); auto.
  - intros E. rewrite (Hp3 E). auto.
  - intros E. destruct (Hm3 E) as [-> ->]. by apply Hm.
  - intros E. rewrite (Hx3 E). auto.
Qed.

Lemma global_rasterize_frame cf terrain (i0 : MapMetaData) cloud mrk chunks b :
  raster_sized (u32 (width i0 * height i0)) b ->
  exists b', global_rasterize cf terrain i0 cloud mrk chunks b = Some b'
    /\ raster_sized (u32 (width i0 * height i0)) b'
    /\ (cloud = 0 -> mrk = 0 -> b_cloud b' = b_cloud b)
    /\ b_points b' = b_points b /\ b_colors b' = b_colors b /\ b_boxes b' = b_boxes b.
Proof.
  intros Hb.
  set (P := fun b1 : Buffers =>
    raster_sized (u32 (width i0 * height i0)) b1
    /\ (cloud = 0 -> mrk = 0 -> b_cloud b1 = b_cloud b)
    /\ b_points b1 = b_points b /\ b_colors b1 = b_colors b /\ b_boxes b1 = b_boxes b).
  unfold global_rasterize. apply (fold_opt_invariant P); [|unfold P; repeat split; auto; apply Hb].
  intros b1 key _ Hb1. unfold global_chunk.
  apply (fold_opt_invariant P); [|assumption].
  unfold P. intros b2 i _ (Hs & Hp & Hm & Hc & Hx).
  destruct (global_cell_spec cf i0 cloud mrk (getChunk terrain key) b2 i Hs)
    as (b3 & Hb3 & Hs3 & _ & _ & Hp3 & Hm3 & Hc3 & Hx3).
  exists b3. split; [assumption|]. split; [assumption|].
  repeat split; try congruence. intros E1 E2. rewrite (Hp3 E1 E2). auto.
Qed.

(** ** Cells that hold "unknown" *)



Lemma global_sample_invalid cf (chunk : TerrainChunk) i :
  isCellValid chunk i = false -> global_sample cf chunk i = (quiet_NaN, -1, -1).
Proof. intros Hv. unfold global_sample. by rewrite Hv. Qed.



(** ** The global controller keeps its rasters well sized *)

Lemma select_chunks_spec (terrain : Terrain (F := F)) (gm : GlobalMaps (F := F)) :
  select_chunks terrain gm
  = (if mGlobMapWholeUpdate gm then getAllValidChunk terrain
     else getUpdatedChunks terrain (mLastGlobMapTimestamp gm),
     {| mGlobHeightMapMsg := mGlobHeightMapMsg gm; mGlobCostMapMsg := mGlobCostMapMsg gm;
        mGlobalHeightPointcloudMsg := mGlobalHeightPointcloudMsg gm;
        mGlobMapWholeUpdate := false;
        mLastGlobMapTimestamp := getReferenceTS terrain |}).
Proof. unfold select_chunks. destruct (mGlobMapWholeUpdate gm) eqn:E; rewrite ?E; reflexivity. Qed.

Lemma global_resize_spec cf terrain (minX minY maxX maxY : F) gm :
  let r := global_resize cf terrain minX minY maxX maxY gm in
  fst r = getAllValidChunk terrain
  /\ global_wf (snd r)
  /\ mGlobMapWholeUpdate (snd r) = false
  /\ mLastGlobMapTimestamp (snd r) = mLastGlobMapTimestamp gm.
Proof.
  simpl. split; [reflexivity|]. split; [|split; reflexivity].
  pose proof (initGlobalMapMsgs_wf cf (fsub maxY minY) (fsub maxX minX) gm) as Hwf.
  unfold global_wf in *. simpl in *. exact Hwf.
Qed.

Lemma global_prepare_spec cf terrain chunks gm :
  global_wf gm ->
  let r := global_prepare cf terrain chunks gm in
  global_wf (snd r)
  /\ mLastGlobMapTimestamp (snd r) = mLastGlobMapTimestamp gm
  /\ (mGlobMapWholeUpdate gm = false -> mGlobMapWholeUpdate (snd r) = false).
Proof.
  intros Hwf. unfold global_prepare.
  destruct (global_limits terrain chunks (global_bounds gm)) as [[[[minX minY] maxX] maxY] [|]].
  - destruct (global_resize_spec cf terrain minX minY maxX maxY gm) as (_ & ? & ? & ?).
    simpl in *. auto.
  - simpl. auto.
Qed.

Lemma ensure_started_wf env st :
  global_wf (glob st) -> global_wf (glob (ensure_started env st)).
Proof.
  intros Hwf. unfold ensure_started, startTerrainMapping.
  destruct (mMappingReady st); simpl; [assumption|].
  destruct (zed_present env); simpl; [|assumption].
  destruct (enableTerrainMapping env); simpl; [|assumption].
  apply initGlobalMapMsgs_wf.
Qed.

(** A global cycle that gets a snapshot always completes, and leaves the
    baseline at the snapshot's reference timestamp with the flag cleared. *)
Lemma globalTerrainCallback_total env imgs subs st terrain :
  global_wf (glob st) ->
  0 < u32 (heightImgSub imgs + colorImgSub imgs + costImgSub imgs + heightSub subs
           + costSub subs + cloudSub subs + mrkSub subs) ->
  retrieveTerrainAsync env = Some terrain ->
  exists st' pubs,
    globalTerrainCallback depackColor3f env imgs subs st = Some (st', pubs)
    /\ global_wf (glob st')
    /\ mLastGlobMapTimestamp (glob st') = getReferenceTS terrain
    /\ mGlobMapWholeUpdate (glob st') = false.
Proof.
  intros Hwf Hrun Hret. unfold globalTerrainCallback.
  apply Z.ltb_lt in Hrun. rewrite Hrun, Hret.
  pose proof (ensure_started_wf env st Hwf) as Hwf1.
  revert Hwf1. generalize (ensure_started env st). intros st1 Hwf1.
  change (glob (set_terrain terrain st1)) with (glob st1).
  change (cfg (set_terrain terrain st1)) with (cfg st1).
  rewrite select_chunks_spec.
  set (chunks := if mGlobMapWholeUpdate (glob st1) then _ else _).
  set (gm := {| mGlobHeightMapMsg := _ |}).
  assert (Hgm : global_wf gm) by exact Hwf1.
  destruct (0 <? Z.of_nat (length chunks)).
  - pose proof (global_prepare_spec (cfg st1) terrain chunks gm Hgm) as (Hwf2 & Hts & Hfl).
    destruct (global_prepare _ terrain chunks gm) as [chunks' gm2]. simpl in Hwf2, Hts, Hfl.
    destruct (publishGlobalMaps_total (cfg st1) terrain chunks' subs
                (mLastGlobMapTimestamp gm2) gm2 Hwf2)
      as (gm3 & pubs & Hp & Hwf3 & _ & _ & Hfl3 & Hts3).
    rewrite Hp. simpl. eexists _, _. split; [reflexivity|]. simpl.
    split; [assumption|]. split; [congruence|]. rewrite Hfl3. by apply Hfl.
  - eexists _, _. split; [reflexivity|]. simpl. auto.
Qed.

Lemma localTerrainCallback_wf env subs st :
  global_wf (glob st) ->
  exists st' pubs,
    localTerrainCallback depackColor3f env subs st = Some (st', pubs)
    /\ global_wf (glob st').
Proof.
  intros Hwf. unfold localTerrainCallback.
  pose proof (ensure_started_wf env st Hwf) as Hwf1.
  revert Hwf1. generalize (ensure_started env st). intros st1 Hwf1.
  destruct (0 <? _); [|by eexists _, _].
  destruct (retrieveTerrainAsync env) as [terrain|]; [|by eexists _, _].
  destruct (lookupTransform env) as [[camX camY]|]; [|by eexists _, _].
  destruct (0 <? _); [|by eexists _, _].
  destruct (local_limits terrain _) as [[[minX minY] maxX] maxY].
  match goal with
  | |- context [publishLocalMaps _ ?c ?tr ?x ?y ?a1 ?a2 ?a3 ?a4 ?ch ?su ?ts ?lm] =>
      destruct (publishLocalMaps_total c tr x y a1 a2 a3 a4 ch su ts lm)
        as (lm' & pubs & -> & _)
  end.
  simpl. by eexists _, _.
Qed.

Lemma globalTerrainCallback_wf env imgs subs st :
  global_wf (glob st) ->
  exists st' pubs,
    globalTerrainCallback depackColor3f env imgs subs st = Some (st', pubs)
    /\ global_wf (glob st').
Proof.
  intros Hwf.
  destruct (0 <? u32 (heightImgSub imgs + colorImgSub imgs + costImgSub imgs
                      + heightSub subs + costSub subs + cloudSub subs + mrkSub subs))
    eqn:Hrun.
  - destruct (retrieveTerrainAsync env) as [terrain|] eqn:Hret.
    + apply Z.ltb_lt in Hrun.
      destruct (globalTerrainCallback_total env imgs subs st terrain Hwf Hrun Hret)
        as (st' & pubs & Hcb & Hwf' & _).
      eauto.
    + unfold globalTerrainCallback. rewrite Hrun, Hret.
      eexists _, _. split; [reflexivity|]. by apply ensure_started_wf.
  - unfold globalTerrainCallback. rewrite Hrun.
    eexists _, _. split; [reflexivity|]. by apply ensure_started_wf.
Qed.

Lemma step_wf e st :
  global_wf (glob st) ->
  exists st' pubs, step depackColor3f e st = Some (st', pubs) /\ global_wf (glob st').
Proof.
  intros Hwf. destruct e as [env subs|env imgs subs|subs|r level]; simpl.
  - by apply localTerrainCallback_wf.
  - by apply globalTerrainCallback_wf.
  - eexists _, _. split; [reflexivity|]. unfold globalMapSubscribeCallback.
    destruct (_ || _); exact Hwf.
  - eexists _, _. split; [reflexivity|]. unfold dynamicReconfCallback.
    destruct (level =? 0); exact Hwf.
Qed.

(** The global maps stay well sized along every run of callbacks, and no
    callback of the run throws. *)
Lemma run_wf es st :
  global_wf (glob st) ->
  exists st' pubs, run depackColor3f es st = Some (st', pubs) /\ global_wf (glob st').
Proof.
  revert st. induction es as [|e es IH]; intros st Hwf; simpl.
  - by eexists _, _.
  - destruct (step_wf e st Hwf) as (st1 & p1 & -> & Hwf1). simpl.
    destruct (IH st1 Hwf1) as (st2 & p2 & -> & Hwf2). simpl.
    by eexists _, _.
Qed.

(** ** Properties that hold for every arithmetic *)

(** C1.  Local and global rasterizer: a cell's raster index, when it is not
    dropped, satisfies [0 <= index < width * height]; the two rasters hold
    exactly that many cells, so no [data.at(index)] is ever out of range:
    [publishLocalMaps] always returns, [publishGlobalMaps] returns on
    every global map that keeps the size [initGlobalMapMsgs] gave it, and
    every run of callbacks from the node's initial state completes with
    such a global map. *)
Theorem raster_writes_in_range :
  (forall (cf : Config) camX camY minX minY maxX maxY (xm ym : F) idx,
      let w := local_window cf camX camY minX minY maxX maxY in
      local_index cf (mapMinX w) (mapMinY w) (mapCols w) (u32 (mapRows w * mapCols w)) xm ym
      = Some idx ->
      0 <= idx < u32 (mapRows w * mapCols w)
      /\ u32 (mapRows w * mapCols w) <= mapCols w * mapRows w)
  /\ (forall cf terrain camX camY minX minY maxX maxY chunks subs t lm,
      let w := local_window cf camX camY minX minY maxX maxY in
      exists lm' pubs,
        publishLocalMaps depackColor3f cf terrain camX camY minX minY maxX maxY chunks subs
          t lm = Some (lm', pubs)
        /\ Z.of_nat (length (data (mLocHeightMapMsg lm'))) = u32 (mapRows w * mapCols w)
        /\ Z.of_nat (length (data (mLocCostMapMsg lm'))) = u32 (mapRows w * mapCols w))
  /\ (forall (cf : Config) (i : MapMetaData) (xm ym : F) idx,
      0 <= width i -> 0 <= height i ->
      global_index cf i xm ym = Some idx ->
      0 <= idx < u32 (width i * height i)
      /\ u32 (width i * height i) <= width i * height i)
  /\ (forall cf terrain chunks subs t gm,
      global_wf gm ->
      exists gm' pubs,
        publishGlobalMaps depackColor3f cf terrain chunks subs t gm = Some (gm', pubs)
        /\ global_wf gm')
  /\ (forall terrain cf es,
      exists st' pubs,
        run depackColor3f es (initial_state terrain cf) = Some (st', pubs)
        /\ global_wf (glob st')).
Proof.
  split; [|split; [|split; [|split]]].
  - intros cf camX camY minX minY maxX maxY xm ym idx w Hidx.
    apply local_index_bound in Hidx.
    pose proof (cells_of_span_range cf (fabs (fsub (mapMaxX w) (mapMinX w)))).
    pose proof (cells_of_span_range cf (fabs (fsub (mapMaxY w) (mapMinY w)))).
    assert (Hpos : 0 <= mapRows w * mapCols w) by (subst w; simpl in *; nia).
    pose proof (u32_le _ Hpos). lia.
  - intros. destruct (publishLocalMaps_total cf terrain camX camY minX minY maxX maxY
                        chunks subs t lm) as (lm' & pubs & Hp & Hh & Hc & _).
    eauto.
  - intros cf i xm ym idx Hw Hh Hidx. apply global_index_bound in Hidx.
    assert (Hpos : 0 <= width i * height i) by nia.
    pose proof (u32_le _ Hpos). lia.
  - intros cf terrain chunks subs t gm Hwf.
    destruct (publishGlobalMaps_total cf terrain chunks subs t gm Hwf)
      as (gm' & pubs & Hp & Hwf' & _).
    eauto.
  - intros terrain cf es. apply run_wf. split; reflexivity.
Qed.

Lemma local_target_inv cf camX camY mapMinX mapMinY mapCols totCell (chunk : TerrainChunk)
    i idx :
  local_target cf camX camY mapMinX mapMinY mapCols totCell chunk i = Some idx ->
  isCellValid chunk i = true
  /\ exists xm ym,
       index2x_y (getDimension chunk) i = Some (xm, ym)
       /\ fgt (local_dist camX camY xm ym) (mMapLocalRadius cf) = false
       /\ local_index cf mapMinX mapMinY mapCols totCell xm ym = Some idx.
Proof.
  unfold local_target.
  destruct (isCellValid chunk i); [|discriminate]. simpl.
  destruct (index2x_y (getDimension chunk) i) as [[xm ym]|]; [|discriminate].
  destruct (fgt _ _) eqn:Hd; [discriminate|]. intros Hidx. eauto 6.
Qed.

(** Whatever the local rasterizer writes over "unknown" comes from a valid
    cell within the radius. *)
Lemma local_rasterize_near cf terrain camX camY mapMinX mapMinY mapCols totCell subs t
    chunks b :
  raster_sized totCell b ->
  (forall n v, b_height b !! n = Some v \/ b_cost b !! n = Some v -> v = -1) ->
  exists b', local_rasterize depackColor3f cf terrain camX camY mapMinX mapMinY mapCols
               totCell subs t chunks b = Some b'
    /\ forall n v, b_height b' !! n = Some v \/ b_cost b' !! n = Some v -> v <> -1 ->
         near_cell cf terrain chunks camX camY mapMinX mapMinY mapCols totCell n.
Proof.
  intros Hb Hfresh.
  set (P := fun b1 : Buffers (F := F) =>
    raster_sized totCell b1
    /\ forall n v, b_height b1 !! n = Some v \/ b_cost b1 !! n = Some v -> v <> -1 ->
         near_cell cf terrain chunks camX camY mapMinX mapMinY mapCols totCell n).
  destruct (fold_opt_invariant P
              (local_chunk depackColor3f cf terrain camX camY mapMinX mapMinY mapCols
                 totCell subs t) chunks b) as (b' & Hb' & _ & HP).
  - intros b1 key Hkey Hb1. unfold local_chunk.
    apply (fold_opt_invariant P); [|assumption].
    intros b2 i Hi [Hs HP2]. apply elem_of_seq in Hi.
    destruct (local_cell_spec cf camX camY mapMinX mapMinY mapCols totCell subs t
                (getChunk terrain key) b2 i Hs) as (b3 & Hb3 & Hs3 & Hc3 & Hh3 & _).
    exists b3. split; [assumption|]. split; [assumption|].
    destruct (local_target cf camX camY mapMinX mapMinY mapCols totCell
                (getChunk terrain key) i) as [idx|] eqn:Ht;
      [|intros n v; rewrite Hc3, Hh3; apply HP2].
    pose proof (local_target_bound _ _ _ _ _ _ _ _ _ _ Ht) as Hidx.
    destruct (local_target_inv _ _ _ _ _ _ _ _ _ _ Ht) as (Hv & xm & ym & Hxy & Hd & Hli).
    assert (Hnear : near_cell cf terrain chunks camX camY mapMinX mapMinY mapCols totCell
                      (Z.to_nat idx)).
    { exists key, i, xm, ym. rewrite Z2Nat.id by lia. repeat split; auto. lia. }
    intros n v Hn Hne. rewrite Hc3, Hh3 in Hn.
    destruct (decide (n = Z.to_nat idx)) as [->|Hneq]; [exact Hnear|].
    apply (HP2 n v); [|assumption].
    destruct (0 <? heightSub subs), (0 <? costSub subs);
      rewrite ?list_lookup_insert_ne in Hn by auto; exact Hn.
  - split; [assumption|]. intros n v Hn Hne. by apply Hfresh in Hn.
  - exists b'. split; [exact Hb' | exact HP].
Qed.

(** C4.  Local rasterizer: a cell whose distance from the camera position
    [(camX, camY)], computed in the map frame as the source computes it,
    is greater than the local radius is skipped: its step leaves every
    buffer as it was, and it has no raster index to write to.  So, after a
    local cycle, every entry of the height or cost raster other than -1
    was written by a valid cell within the radius. *)
Theorem local_radius_gating :
  (forall (cf : Config) camX camY mapMinX mapMinY mapCols totCell subs t
          (chunk : TerrainChunk) b i (xm ym : F),
      index2x_y (getDimension chunk) i = Some (xm, ym) ->
      fgt (local_dist camX camY xm ym) (mMapLocalRadius cf) = true ->
      local_cell depackColor3f cf camX camY mapMinX mapMinY mapCols totCell subs t chunk b i
      = Some b
      /\ local_target cf camX camY mapMinX mapMinY mapCols totCell chunk i = None)
  /\ (forall cf terrain camX camY minX minY maxX maxY chunks subs t lm,
      let w := local_window cf camX camY minX minY maxX maxY in
      exists lm' pubs,
        publishLocalMaps depackColor3f cf terrain camX camY minX minY maxX maxY chunks subs
          t lm = Some (lm', pubs)
        /\ forall n v,
             data (mLocHeightMapMsg lm') !! n = Some v
             \/ data (mLocCostMapMsg lm') !! n = Some v ->
             v <> -1 ->
             near_cell cf terrain chunks camX camY (mapMinX w) (mapMinY w) (mapCols w)
               (u32 (mapRows w * mapCols w)) n).
Proof.
  split.
  - intros cf camX camY mapMinX mapMinY mapCols totCell subs t chunk b i xm ym Hxy Hfar.
    unfold local_cell, local_target. rewrite Hxy. cbv zeta. rewrite Hfar.
    destruct (negb (isCellValid chunk i)); split; reflexivity.
  - intros cf terrain camX camY minX minY maxX maxY chunks subs t lm w.
    unfold publishLocalMaps. fold w.
    match goal with
    | |- context [local_rasterize _ _ _ _ _ _ _ _ _ _ _ _ ?b0] =>
        destruct (local_rasterize_near cf terrain camX camY (mapMinX w) (mapMinY w)
                    (mapCols w) (u32 (mapRows w * mapCols w)) subs t chunks b0)
          as (b & -> & Hnear)
    end.
    + pose proof (u32_range (mapRows w * mapCols w)).
      split; cbn [b_height b_cost]; apply vec_fill_length; lia.
    + cbn [b_height b_cost]. unfold vec_fill.
      intros n v [Hn|Hn]; apply lookup_replicate in Hn; tauto.
    + simpl. eexists _, _. split; [reflexivity|]. simpl. exact Hnear.
Qed.




(** ** Publishing *)

Ltac not_published :=
  let Hin := fresh "Hin" in
  intros Hin; simpl in Hin;
  repeat match type of Hin with
         | _ ∈ _ ++ _ => apply elem_of_app in Hin as [Hin|Hin]
         | _ ∈ (if ?c then _ else _) => destruct c
         | _ ∈ [] => by apply elem_of_nil in Hin
         | _ ∈ [_] => apply list_elem_of_singleton in Hin; discriminate
         end.

Lemma publishLocalMaps_gated cf terrain camX camY minX minY maxX maxY chunks subs t lm :
  let w := local_window cf camX camY minX minY maxX maxY in
  let tot := u32 (mapRows w * mapCols w) in
  exists lm' pubs,
    publishLocalMaps depackColor3f cf terrain camX camY minX minY maxX maxY chunks subs t lm
    = Some (lm', pubs)
    /\ (heightSub subs = 0 ->
        data (mLocHeightMapMsg lm') = vec_fill tot (-1)
        /\ forall g, PubLocalHeightMap g ∉ pubs)
    /\ (costSub subs = 0 ->
        data (mLocCostMapMsg lm') = vec_fill tot (-1)
        /\ forall g, PubLocalCostMap g ∉ pubs)
    /\ (cloudSub subs = 0 -> forall c, PubLocalHeightCloud c ∉ pubs)
    /\ (mrkSub subs = 0 -> forall m, PubLocalHeightMrk m ∉ pubs)
    /\ (mrksSub subs = 0 -> forall ms, PubLocalHeightMrks ms ∉ pubs).
Proof.
  intros w tot. unfold publishLocalMaps. fold w. fold tot.
  match goal with
  | |- context [local_rasterize _ _ _ _ _ _ _ _ _ _ _ _ ?b0] =>
      destruct (local_rasterize_frame cf terrain camX camY (mapMinX w) (mapMinY w)
                  (mapCols w) tot subs t chunks b0)
        as (b & -> & _ & Hc & Hh & _)
  end.
  { pose proof (u32_range (mapRows w * mapCols w)).
    split; simpl; apply vec_fill_length; unfold tot; lia. }
  simpl in *. eexists _, _. split; [reflexivity|]. simpl.
  split; [|split; [|split; [|split]]].
  - intros E. split; [by apply Hh|]. intros g. rewrite E. not_published.
  - intros E. split; [by apply Hc|]. intros g. rewrite E. not_published.
  - intros E c. rewrite E. not_published.
  - intros E m. rewrite E. not_published.
  - intros E ms. rewrite E. not_published.
Qed.

Lemma publishGlobalMaps_gated cf terrain chunks subs t gm :
  global_wf gm ->
  exists gm' pubs,
    publishGlobalMaps depackColor3f cf terrain chunks subs t gm = Some (gm', pubs)
    /\ (heightSub subs = 0 -> forall g, PubGlobalHeightMap g ∉ pubs)
    /\ (costSub subs = 0 -> forall g, PubGlobalCostMap g ∉ pubs)
    /\ (cloudSub subs = 0 -> forall c, PubGlobalHeightCloud c ∉ pubs)
    /\ (mrkSub subs = 0 -> forall m, PubGlobalHeightMrk m ∉ pubs)
    /\ (cloudSub subs = 0 -> mrkSub subs = 0 ->
        pc_data (mGlobalHeightPointcloudMsg gm') = pc_data (mGlobalHeightPointcloudMsg gm)).
Proof.
  intros [Hh Hc]. unfold publishGlobalMaps.
  match goal with
  | |- context [global_rasterize _ _ ?i0 _ _ _ ?b0] =>
      destruct (global_rasterize_frame cf terrain i0 (cloudSub subs) (mrkSub subs) chunks b0)
        as (b & -> & _ & Hp & _)
  end.
  { split; simpl; assumption. }
  simpl in *. destruct (if 0 <? mrkSub subs then _ else _) as [pts cols].
  eexists _, _. split; [reflexivity|]. simpl.
  split; [|split; [|split; [|split]]].
  - intros E g. rewrite E. not_published.
  - intros E g. rewrite E. not_published.
  - intros E c. rewrite E. not_published.
  - intros E m. rewrite E. not_published.
  - exact Hp.
Qed.

Lemma localTerrainCallback_idle env subs st :
  heightSub subs = 0 -> costSub subs = 0 -> cloudSub subs = 0 -> mrkSub subs = 0 ->
  mrksSub subs = 0 ->
  localTerrainCallback depackColor3f env subs st = Some (ensure_started env st, []).
Proof.
  intros E1 E2 E3 E4 E5. unfold localTerrainCallback. rewrite E1, E2, E3, E4, E5.
  reflexivity.
Qed.

Lemma globalTerrainCallback_idle env imgs subs st :
  heightImgSub imgs = 0 -> colorImgSub imgs = 0 -> costImgSub imgs = 0 ->
  heightSub subs = 0 -> costSub subs = 0 -> cloudSub subs = 0 -> mrkSub subs = 0 ->
  globalTerrainCallback depackColor3f env imgs subs st = Some (ensure_started env st, []).
Proof.
  intros E1 E2 E3 E4 E5 E6 E7. unfold globalTerrainCallback.
  rewrite E1, E2, E3, E4, E5, E6, E7. reflexivity.
Qed.

(** ** The values a cell writes *)

Lemma i8_idem z : i8 (i8 z) = i8 z.
Proof. apply i8_small. apply i8_range. Qed.

Lemma cost_norm_i8 (c : F) : i8 (cost_norm c) = cost_norm c.
Proof. apply i8_idem. Qed.

Lemma height_norm_i8 cf (h : F) : i8 (height_norm cf h) = height_norm cf h.
Proof. apply i8_idem. Qed.

Lemma global_sample_valid cf (chunk : TerrainChunk) i :
  isCellValid chunk i = true ->
  global_sample cf chunk i
  = (at_ chunk ELEVATION i, height_norm cf (at_ chunk ELEVATION i),
     cost_norm (at_ chunk TRAVERSABILITY_COST i)).
Proof. intros Hv. unfold global_sample. rewrite Hv. reflexivity. Qed.

(** The local rasterizer writes [cost_norm] and [height_norm] of the cell's
    samples at the cell's index, for the rasters that have a subscriber. *)
Lemma local_cell_values cf camX camY mapMinX mapMinY mapCols totCell subs t chunk b i idx :
  raster_sized totCell b ->
  local_target cf camX camY mapMinX mapMinY mapCols totCell chunk i = Some idx ->
  exists b', local_cell depackColor3f cf camX camY mapMinX mapMinY mapCols totCell
               subs t chunk b i = Some b'
    /\ (0 < costSub subs ->
        b_cost b' !! Z.to_nat idx = Some (cost_norm (at_ chunk TRAVERSABILITY_COST i)))
    /\ (0 < heightSub subs ->
        b_height b' !! Z.to_nat idx = Some (height_norm cf (at_ chunk ELEVATION i))).
Proof.
  intros Hs Ht. pose proof (local_target_bound _ _ _ _ _ _ _ _ _ _ Ht) as Hidx.
  destruct (local_cell_spec cf camX camY mapMinX mapMinY mapCols totCell subs t chunk b i Hs)
    as (b' & Hb' & _ & Hc & Hh & _).
  rewrite Ht in Hc, Hh. destruct Hs as [Hlh Hlc].
  exists b'. split; [assumption|]. split; intros Hsub; apply Z.ltb_lt in Hsub;
    rewrite Hsub in *.
  - rewrite Hc. apply list_lookup_insert_eq. lia.
  - rewrite Hh. apply list_lookup_insert_eq. lia.
Qed.

(** The global rasterizer writes them for every valid cell, whoever
    subscribes. *)
Lemma global_cell_values cf (i0 : MapMetaData) cloud mrk (chunk : TerrainChunk) b i idx :
  raster_sized (u32 (width i0 * height i0)) b ->
  isCellValid chunk i = true ->
  global_target cf i0 chunk i = Some idx ->
  exists b', global_cell cf i0 cloud mrk chunk b i = Some b'
    /\ b_cost b' !! Z.to_nat idx = Some (cost_norm (at_ chunk TRAVERSABILITY_COST i))
    /\ b_height b' !! Z.to_nat idx = Some (height_norm cf (at_ chunk ELEVATION i)).
Proof.
  intros Hs Hv Ht.
  assert (Hidx : 0 <= idx < u32 (width i0 * height i0)).
  { unfold global_target in Ht.
    destruct (index2x_y (getDimension chunk) i) as [[xm ym]|]; [|discriminate].
    by apply global_index_bound in Ht. }
  destruct (global_cell_spec cf i0 cloud mrk chunk b i Hs) as (b' & Hb' & _ & Hh & Hc & _).
  rewrite Ht, (global_sample_valid cf chunk i Hv) in Hh, Hc. simpl in Hh, Hc.
  rewrite height_norm_i8 in Hh. rewrite cost_norm_i8 in Hc. destruct Hs as [Hlh Hlc].
  exists b'. split; [assumption|].
  split; [rewrite Hc | rewrite Hh]; apply list_lookup_insert_eq; lia.
Qed.

(** C9, as the code has it.  Local map: a product without subscriber gets
    no per-cell write (its raster stays at -1 everywhere, the point buffer,
    the cube list and the box list stay as they were) and is not published.
    Global map: a product without subscriber is not published, and the
    point buffer is written only when the point cloud or the cube list has
    a subscriber; a callback whose products all lack subscribers does
    nothing beyond start-up. *)
Theorem subscriber_gating :
  (forall cf terrain camX camY mapMinX mapMinY mapCols totCell subs t chunks b,
      raster_sized totCell b ->
      exists b',
        local_rasterize depackColor3f cf terrain camX camY mapMinX mapMinY mapCols
          totCell subs t chunks b = Some b'
        /\ (heightSub subs = 0 -> b_height b' = b_height b)
        /\ (costSub subs = 0 -> b_cost b' = b_cost b)
        /\ (cloudSub subs = 0 -> b_cloud b' = b_cloud b)
        /\ (mrkSub subs = 0 -> b_points b' = b_points b /\ b_colors b' = b_colors b)
        /\ (mrksSub subs = 0 -> b_boxes b' = b_boxes b))
  /\ (forall cf terrain camX camY minX minY maxX maxY chunks subs t lm,
      exists lm' pubs,
        publishLocalMaps depackColor3f cf terrain camX camY minX minY maxX maxY chunks subs
          t lm = Some (lm', pubs)
        /\ (heightSub subs = 0 -> forall g, PubLocalHeightMap g ∉ pubs)
        /\ (costSub subs = 0 -> forall g, PubLocalCostMap g ∉ pubs)
        /\ (cloudSub subs = 0 -> forall c, PubLocalHeightCloud c ∉ pubs)
        /\ (mrkSub subs = 0 -> forall m, PubLocalHeightMrk m ∉ pubs)
        /\ (mrksSub subs = 0 -> forall ms, PubLocalHeightMrks ms ∉ pubs))
  /\ (forall cf terrain chunks subs t gm,
      global_wf gm ->
      exists gm' pubs,
        publishGlobalMaps depackColor3f cf terrain chunks subs t gm = Some (gm', pubs)
        /\ (heightSub subs = 0 -> forall g, PubGlobalHeightMap g ∉ pubs)
        /\ (costSub subs = 0 -> forall g, PubGlobalCostMap g ∉ pubs)
        /\ (cloudSub subs = 0 -> forall c, PubGlobalHeightCloud c ∉ pubs)
        /\ (mrkSub subs = 0 -> forall m, PubGlobalHeightMrk m ∉ pubs)
        /\ (cloudSub subs = 0 -> mrkSub subs = 0 ->
            pc_data (mGlobalHeightPointcloudMsg gm')
            = pc_data (mGlobalHeightPointcloudMsg gm)))
  /\ (forall env subs st,
      heightSub subs = 0 -> costSub subs = 0 -> cloudSub subs = 0 -> mrkSub subs = 0 ->
      mrksSub subs = 0 ->
      localTerrainCallback depackColor3f env subs st = Some (ensure_started env st, []))
  /\ (forall env imgs subs st,
      heightImgSub imgs = 0 -> colorImgSub imgs = 0 -> costImgSub imgs = 0 ->
      heightSub subs = 0 -> costSub subs = 0 -> cloudSub subs = 0 -> mrkSub subs = 0 ->
      globalTerrainCallback depackColor3f env imgs subs st
      = Some (ensure_started env st, [])).
Proof.
  split; [|split; [|split; [|split]]].
  - intros cf terrain camX camY mapMinX mapMinY mapCols totCell subs t chunks b Hb.
    destruct (local_rasterize_frame cf terrain camX camY mapMinX mapMinY mapCols totCell
                subs t chunks b Hb) as (b' & Hb' & _ & Hc & Hh & Hp & Hm & Hx).
    exists b'. auto 10.
  - intros cf terrain camX camY minX minY maxX maxY chunks subs t lm.
    destruct (publishLocalMaps_gated cf terrain camX camY minX minY maxX maxY chunks subs
                t lm) as (lm' & pubs & Hp & Hh & Hc & Hcl & Hm & Hms).
    exists lm', pubs. split; [assumption|].
    split; [intros E; by apply Hh|]. split; [intros E; by apply Hc|]. auto.
  - intros cf terrain chunks subs t gm Hwf.
    destruct (publishGlobalMaps_gated cf terrain chunks subs t gm Hwf)
      as (gm' & pubs & Hp & Hrest).
    eauto.
  - intros. by apply localTerrainCallback_idle.
  - intros. by apply globalTerrainCallback_idle.
Qed.

(** ** The resize of the global map *)

Lemma global_limits_step_flag (terrain : Terrain) bounds key :
  snd (global_limits_step terrain (bounds, true) key) = true.
Proof.
  destruct bounds as [[[a b] c] d]. unfold global_limits_step.
  destruct (flt _ a), (flt _ b), (fgt _ c), (fgt _ d); reflexivity.
Qed.

Lemma global_limits_step_exceeds (terrain : Terrain) bounds r key :
  exceeds bounds (getDimension (getChunk terrain key)) = true ->
  snd (global_limits_step terrain (bounds, r) key) = true.
Proof.
  destruct bounds as [[[a b] c] d]. unfold global_limits_step, exceeds.
  destruct (flt _ a), (flt _ b), (fgt _ c), (fgt _ d); simpl; auto; discriminate.
Qed.

(** A box that exceeded the bounds before a step and no longer does after
    it: the step has moved a bound. *)
Lemma global_limits_step_moved (terrain : Terrain) bounds r key (dim : Dimension) :
  exceeds bounds dim = true ->
  exceeds (fst (global_limits_step terrain (bounds, r) key)) dim = false ->
  snd (global_limits_step terrain (bounds, r) key) = true.
Proof.
  destruct bounds as [[[a b] c] d]. unfold global_limits_step.
  destruct (flt _ a), (flt _ b), (fgt _ c), (fgt _ d); simpl; auto.
  congruence.
Qed.

Lemma global_limits_fold_trigger (terrain : Terrain) chunks bounds r :
  (r = true \/ exists key, key ∈ chunks
                 /\ exceeds bounds (getDimension (getChunk terrain key)) = true) ->
  snd (fold_left (global_limits_step terrain) chunks (bounds, r)) = true.
Proof.
  revert bounds r. induction chunks as [|k l IH]; intros bounds r Hex; cbn [fold_left snd].
  - destruct Hex as [->|(key & Hin & _)]; [reflexivity | by apply elem_of_nil in Hin].
  - destruct (global_limits_step terrain (bounds, r) k) as [bounds1 r1] eqn:Hstep.
    apply IH. destruct Hex as [->|(key & Hin & Hk)].
    + left. pose proof (global_limits_step_flag terrain bounds k) as Hf.
      by rewrite Hstep in Hf.
    + apply elem_of_cons in Hin as [->|Hin].
      * left. pose proof (global_limits_step_exceeds terrain bounds r k Hk) as Hf.
        by rewrite Hstep in Hf.
      * destruct (exceeds bounds1 (getDimension (getChunk terrain key))) eqn:E1.
        -- right. eauto.
        -- left.
           pose proof (global_limits_step_moved terrain bounds r k
                         (getDimension (getChunk terrain key)) Hk) as Hf.
           rewrite Hstep in Hf. by apply Hf.
Qed.

(** A chunk whose box exceeds the bounds of the raster forces the resize. *)
Lemma global_limits_trigger (terrain : Terrain) chunks bounds key :
  key ∈ chunks ->
  exceeds bounds (getDimension (getChunk terrain key)) = true ->
  snd (global_limits terrain chunks bounds) = true.
Proof. intros Hin Hk. apply global_limits_fold_trigger. eauto. Qed.

Lemma vec_resize_length {A} (z : A) n (v : list A) :
  length (vec_resize z n v) = Z.to_nat n.
Proof. unfold vec_resize. rewrite length_app, length_take, length_replicate. lia. Qed.

Lemma vec_resize_lookup {A} (z : A) n (v : list A) (k : nat) x :
  v !! k = Some x -> (k < Z.to_nat n)%nat -> vec_resize z n v !! k = Some x.
Proof.
  intros Hv Hk. unfold vec_resize. pose proof (lookup_lt_Some _ _ _ Hv).
  rewrite lookup_app_l by (rewrite length_take; lia).
  rewrite lookup_take_lt by lia. exact Hv.
Qed.

Lemma modifier_resize_data n (c : PointCloud2) :
  pc_data (modifier_resize n c) = vec_resize zero4 n (pc_data c).
Proof. unfold modifier_resize. destruct (pc_height c =? 1), (pc_width c =? 1); reflexivity. Qed.

(** [initGlobalMapMsgs] does not clear the point buffer: a point below
    the old message size and the new cell count stays where it is. *)
Lemma initGlobalMapMsgs_cloud cf (w h : F) gm (k : nat) p :
  let pc := mGlobalHeightPointcloudMsg gm in
  let pc' := mGlobalHeightPointcloudMsg (initGlobalMapMsgs cf w h gm) in
  pc_data pc !! k = Some p ->
  (k < Z.to_nat (u32 (pc_height pc * pc_width pc)))%nat ->
  (k < Z.to_nat (u32 (cells_of_span cf h * cells_of_span cf w)))%nat ->
  pc_data pc' !! k = Some p.
Proof.
  intros pc pc' Hp Hold Hnew. unfold pc', initGlobalMapMsgs. simpl. fold pc.
  destruct (negb (pc_width pc =? cells_of_span cf w)
            || negb (pc_height pc =? cells_of_span cf h)); [|exact Hp].
  rewrite modifier_resize_data. apply vec_resize_lookup; [|assumption].
  unfold setPointCloud2Fields. simpl. by apply vec_resize_lookup.
Qed.

(** It does bring the buffer to the new cell count when the size of the
    cloud differs from the raster's. *)
Lemma initGlobalMapMsgs_cloud_length cf (w h : F) gm :
  let pc := mGlobalHeightPointcloudMsg gm in
  pc_width pc <> cells_of_span cf w \/ pc_height pc <> cells_of_span cf h ->
  length (pc_data (mGlobalHeightPointcloudMsg (initGlobalMapMsgs cf w h gm)))
  = Z.to_nat (u32 (cells_of_span cf h * cells_of_span cf w)).
Proof.
  intros pc Hne. unfold initGlobalMapMsgs. simpl. fold pc.
  assert (negb (pc_width pc =? cells_of_span cf w)
          || negb (pc_height pc =? cells_of_span cf h) = true) as ->.
  { apply orb_true_iff. destruct Hne as [Hne|Hne]; [left | right];
      apply negb_true_iff, Z.eqb_neq; exact Hne. }
  rewrite modifier_resize_data. apply vec_resize_length.
Qed.

(** What the resize leaves: all valid chunks selected, both rasters at -1
    everywhere with the new size and origin, the flag clear. *)
Lemma global_resize_result cf (terrain : Terrain) (minX minY maxX maxY : F) gm :
  let r := global_resize cf terrain minX minY maxX maxY gm in
  let rows := cells_of_span cf (fsub maxX minX) in
  let cols := cells_of_span cf (fsub maxY minY) in
  fst r = getAllValidChunk terrain
  /\ data (mGlobHeightMapMsg (snd r)) = vec_fill (u32 (rows * cols)) (-1)
  /\ data (mGlobCostMapMsg (snd r)) = vec_fill (u32 (rows * cols)) (-1)
  /\ mGlobMapWholeUpdate (snd r) = false
  /\ info (mGlobHeightMapMsg (snd r))
     = {| map_load_time := 0; resolution := mTerrainMapRes cf; width := cols; height := rows;
          origin_x := minY; origin_y := fneg maxX |}
  /\ info (mGlobCostMapMsg (snd r)) = info (mGlobHeightMapMsg (snd r))
  /\ mGlobalHeightPointcloudMsg (snd r)
     = mGlobalHeightPointcloudMsg
         (initGlobalMapMsgs cf (fsub maxY minY) (fsub maxX minX) gm).
Proof. simpl. repeat split; reflexivity. Qed.

End Facts.

(** ** Exact arithmetic: sizes and bounds of the global raster *)

Section ExactFacts.

Import Exact.

Lemma Qtrunc_inject_Z z : Qtrunc (inject_Z z) = z.
Proof.
  unfold Qtrunc. destruct (Qle_bool 0 (inject_Z z)); [apply Qfloor_Z | apply Qceiling_Z].
Qed.

Lemma lt_val (a b : real) :
  finite a -> finite b -> (lt a b = true <-> (val a < val b)%Q).
Proof.
  destruct a as [x|], b as [y|]; simpl; try tauto. intros _ _.
  rewrite negb_true_iff, <- not_true_iff_false, Qle_bool_iff. split.
  - apply Qnot_le_lt.
  - apply Qlt_not_le.
Qed.

Lemma lt_val_false (a b : real) :
  finite a -> finite b -> (lt a b = false <-> (val b <= val a)%Q).
Proof.
  destruct a as [x|], b as [y|]; simpl; try tauto. intros _ _.
  rewrite negb_false_iff, Qle_bool_iff. tauto.
Qed.

(** With a positive resolution [r] and a span [s] whose cell count fits a
    [uint32_t], [cells_of_span] is [ceil(s / r) + 1]. *)
Lemma cells_of_span_exact (cf : Config) (r s : Q) :
  mTerrainMapRes cf = Fin r -> (0 < r)%Q ->
  0 <= Qceiling (s / r) < 2 ^ 32 - 1 ->
  cells_of_span cf (Fin s) = Qceiling (s / r) + 1.
Proof.
  intros Hres Hr Hfit. unfold cells_of_span. rewrite Hres. simpl.
  assert (Qeq_bool r 0 = false) as ->.
  { apply not_true_iff_false. intros E. apply Qeq_bool_iff in E. rewrite E in Hr.
    by apply Qlt_irrefl in Hr. }
  simpl. rewrite Qtrunc_inject_Z. rewrite !(u32_small (Qceiling (s / r))) by lia.
  apply u32_small. lia.
Qed.

(** That many cells of size [r] cover the span, with one cell to spare. *)
Lemma cells_cover (r s : Q) :
  (0 < r)%Q -> (s + r <= inject_Z (Qceiling (s / r) + 1) * r)%Q.
Proof.
  intros Hr. rewrite inject_Z_plus.
  pose proof (Qle_ceiling (s / r)) as Hc.
  assert (Hs : (s == s / r * r)%Q) by (field; intros E; rewrite E in Hr; by apply Qlt_irrefl in Hr).
  assert (Hm : (s / r * r <= inject_Z (Qceiling (s / r)) * r)%Q).
  { apply Qmult_le_compat_r; [assumption | by apply Qlt_le_weak]. }
  rewrite Hs at 1. rewrite Qmult_plus_distr_l. rewrite Qmult_1_l.
  apply Qplus_le_compat; [assumption | apply Qle_refl].
Qed.

Lemma leq_trans a b c : leq a b -> leq b c -> leq a c.
Proof.
  intros (? & ? & ?) (? & ? & ?). repeat split; auto. eapply Qle_trans; eauto.
Qed.

Lemma covers_refl b : box_finite b -> covers b b.
Proof.
  destruct b as [[[a b] c] d]. intros (? & ? & ? & ?).
  repeat split; auto; apply Qle_refl.
Qed.

Lemma covers_trans b1 b2 b3 : covers b1 b2 -> covers b2 b3 -> covers b1 b3.
Proof.
  destruct b1 as [[[a1 b1] c1] d1], b2 as [[[a2 b2] c2] d2], b3 as [[[a3 b3] c3] d3].
  intros (Ha & Hb & Hc & Hd) (Ha' & Hb' & Hc' & Hd').
  split; [|split; [|split]]; eapply leq_trans; eassumption.
Qed.

Ltac order_facts :=
  repeat match goal with
         | E : lt ?a ?b = true |- _ => apply lt_val in E; [|assumption|assumption]
         | E : lt ?a ?b = false |- _ => apply lt_val_false in E; [|assumption|assumption]
         end.

(** One step of the limits loop, on finite boxes: the new limits contain
    the old ones and the chunk's box. *)
Lemma limits_step_covers (terrain : Terrain) bounds r key :
  box_finite bounds ->
  box_finite (box_of (getDimension (getChunk terrain key))) ->
  box_finite (fst (global_limits_step terrain (bounds, r) key))
  /\ covers (fst (global_limits_step terrain (bounds, r) key)) bounds
  /\ covers (fst (global_limits_step terrain (bounds, r) key))
       (box_of (getDimension (getChunk terrain key))).
Proof.
  destruct bounds as [[[a b] c] d]. intros (Fa & Fb & Fc & Fd) (Fx & Fy & FX & FY).
  unfold global_limits_step, box_of, fgt in *. simpl in *.
  destruct (lt (getXmin _) a) eqn:E1, (lt (getYmin _) b) eqn:E2,
    (lt c (getXmax _)) eqn:E3, (lt d (getYmax _)) eqn:E4;
    simpl; order_facts; unfold leq;
    repeat split; try assumption; try apply Qle_refl; try (by apply Qlt_le_weak).
Qed.

Lemma limits_fold_covers (terrain : Terrain) chunks bounds r :
  box_finite bounds ->
  (forall key, key ∈ chunks -> box_finite (box_of (getDimension (getChunk terrain key)))) ->
  let res := fold_left (global_limits_step terrain) chunks (bounds, r) in
  box_finite (fst res) /\ covers (fst res) bounds
  /\ forall key, key ∈ chunks ->
       covers (fst res) (box_of (getDimension (getChunk terrain key))).
Proof.
  revert bounds r. induction chunks as [|k l IH]; intros bounds r Hb Hd; cbn [fold_left].
  - split; [assumption|]. split; [by apply covers_refl|].
    intros key Hin. by apply elem_of_nil in Hin.
  - destruct (limits_step_covers terrain bounds r k Hb) as (Hf1 & Hc1 & Hk1);
      [apply Hd; left|].
    destruct (global_limits_step terrain (bounds, r) k) as [bounds1 r1]. simpl in *.
    destruct (IH bounds1 r1 Hf1) as (Hf & Hc & Hall); [intros; apply Hd; by right|].
    split; [assumption|]. split; [eapply covers_trans; eauto|].
    intros key Hin. apply elem_of_cons in Hin as [->|Hin]; [|by apply Hall].
    eapply covers_trans; eauto.
Qed.

(** The bounds of a raster laid out by the resize around the limits
    [(minX, minY, maxX, maxY)] contain those limits. *)
Lemma resized_bounds_cover (cf : Config) (r : Q) (a b c d : Q) gm :
  mTerrainMapRes cf = Fin r -> (0 < r)%Q ->
  span_fits r (Fin a) (Fin c) -> span_fits r (Fin b) (Fin d) ->
  info (mGlobHeightMapMsg gm)
  = {| map_load_time := 0; resolution := mTerrainMapRes cf;
       width := cells_of_span cf (fsub (Fin d) (Fin b));
       height := cells_of_span cf (fsub (Fin c) (Fin a));
       origin_x := Fin b; origin_y := fneg (Fin c) |} ->
  covers (global_bounds gm) (Fin a, Fin b, Fin c, Fin d).
Proof.
  intros Hres Hr Hx Hy Hinfo. unfold global_bounds. rewrite Hinfo. simpl.
  unfold span_fits in *. simpl in *.
  rewrite (cells_of_span_exact cf r (c - a) Hres Hr Hx).
  rewrite (cells_of_span_exact cf r (d - b) Hres Hr Hy).
  rewrite Hres. simpl.
  pose proof (cells_cover r (c - a) Hr) as Hrows.
  pose proof (cells_cover r (d - b) Hr) as Hcols.
  set (h := (inject_Z (Qceiling ((c - a) / r) + 1) * r)%Q) in *.
  set (w := (inject_Z (Qceiling ((d - b) / r) + 1) * r)%Q) in *.
  clearbody h w. unfold leq. simpl. repeat split; lra.
Qed.

(** C5, as the code has it.  In exact arithmetic, with a positive
    resolution, finite boxes and cell counts that fit a [uint32_t]: when
    the box of a selected chunk exceeds the bounds of the global raster,
    the controller selects all valid chunks instead, reallocates the
    height and the cost raster with -1 everywhere, leaves the
    whole-update flag clear, and the bounds of the new raster contain the
    old bounds and the box of every selected chunk.  The point buffer is
    brought to the new cell count when its size differs, but not cleared:
    a point below the old and the new size stays in place. *)
Theorem global_resize_covers_new_terrain (cf : Config) (terrain : Terrain) chunks gm
    (r : Q) (key0 : HashKey) :
  mTerrainMapRes cf = Fin r -> (0 < r)%Q ->
  box_finite (global_bounds gm) ->
  (forall key, key ∈ chunks -> box_finite (box_of (getDimension (getChunk terrain key)))) ->
  key0 ∈ chunks ->
  exceeds (global_bounds gm) (getDimension (getChunk terrain key0)) = true ->
  limits_fit r (global_limits terrain chunks (global_bounds gm)) ->
  let gm' := snd (global_prepare cf terrain chunks gm) in
  let i' := info (mGlobHeightMapMsg gm') in
  fst (global_prepare cf terrain chunks gm) = getAllValidChunk terrain
  /\ data (mGlobHeightMapMsg gm') = vec_fill (u32 (height i' * width i')) (-1)
  /\ data (mGlobCostMapMsg gm') = vec_fill (u32 (height i' * width i')) (-1)
  /\ mGlobMapWholeUpdate gm' = false
  /\ covers (global_bounds gm') (global_bounds gm)
  /\ (forall key, key ∈ chunks ->
        covers (global_bounds gm') (box_of (getDimension (getChunk terrain key))))
  /\ (forall (k : nat) p,
        let pc := mGlobalHeightPointcloudMsg gm in
        pc_data pc !! k = Some p ->
        (k < Z.to_nat (u32 (pc_height pc * pc_width pc)))%nat ->
        (k < Z.to_nat (u32 (height i' * width i')))%nat ->
        pc_data (mGlobalHeightPointcloudMsg gm') !! k = Some p)
  /\ (let pc := mGlobalHeightPointcloudMsg gm in
      pc_width pc <> width i' \/ pc_height pc <> height i' ->
      length (pc_data (mGlobalHeightPointcloudMsg gm'))
      = Z.to_nat (u32 (height i' * width i'))).
Proof.
  intros Hres Hr Hfin Hdims Hin Hex Hfit gm' i'.
  pose proof (global_limits_trigger terrain chunks (global_bounds gm) key0 Hin Hex) as Htrig.
  pose proof (limits_fold_covers terrain chunks (global_bounds gm) false Hfin Hdims)
    as (Hf & Hold & Hall).
  subst gm' i'. unfold global_prepare.
  fold (global_limits terrain chunks (global_bounds gm)) in Hf, Hold, Hall.
  destruct (global_limits terrain chunks (global_bounds gm))
    as [[[[minX minY] maxX] maxY] doResize].
  simpl in Htrig, Hf, Hold, Hall, Hfit. subst doResize.
  destruct Hf as (Fa & Fb & Fc & Fd). destruct Hfit as [Hfx Hfy].
  destruct minX as [a|], minY as [b|], maxX as [c|], maxY as [d|]; try contradiction.
  destruct (global_resize_result cf terrain (Fin a) (Fin b) (Fin c) (Fin d) gm)
    as (Hch & Hdh & Hdc & Hfl & Hinfo & _ & Hpc).
  assert (Hcov : covers (global_bounds (snd (global_resize cf terrain (Fin a) (Fin b)
                                              (Fin c) (Fin d) gm)))
                        (Fin a, Fin b, Fin c, Fin d)).
  { eapply resized_bounds_cover; eauto. }
  split; [exact Hch|]. rewrite Hinfo. cbn [height width].
  split; [exact Hdh|]. split; [exact Hdc|]. split; [exact Hfl|].
  split; [eapply covers_trans; [exact Hcov | exact Hold]|].
  split; [intros key Hk; eapply covers_trans; [exact Hcov | by apply Hall]|].
  split.
  - intros k p Hp Hko Hkn. rewrite Hpc. by apply initGlobalMapMsgs_cloud.
  - intros Hne. rewrite Hpc. by apply initGlobalMapMsgs_cloud_length.
Qed.

End ExactFacts.


(** ** The scene, rasterized *)

Section SceneFacts.

Import Binary32 Scene.

(** The first local cycle of the scene publishes 3 x 3 rasters: the
    valid cells hold height 100 and cost 73, the middle cell -1. *)
Lemma scene_local_cycle :
  observe (fun st => (mMappingReady st,
                      width (info (mLocHeightMapMsg (loc st))),
                      height (info (mLocHeightMapMsg (loc st))),
                      data (mLocHeightMapMsg (loc st)),
                      data (mLocCostMapMsg (loc st))))
    (local_cycle terrain0)
  = Some (true, 3, 3, [100; 100; 100; 100; -1; 100; 100; 100; 100],
          [73; 73; 73; 73; -1; 73; 73; 73; 73]).
Proof. vm_compute. reflexivity. Qed.

Lemma glob0_wf : global_wf glob0.
Proof. vm_compute. split; reflexivity. Qed.

(** C1 at the scene: the global maps of start-up are well sized, so the
    first global rasterization returns. *)
Lemma raster_writes_in_range_scene :
  global_wf glob0
  /\ exists gm' pubs,
       publishGlobalMaps depack (config 3) terrain0 [0] (subscribers 1 1 1 1 0) 42 glob0
       = Some (gm', pubs)
       /\ global_wf gm'.
Proof.
  split; [exact glob0_wf|].
  exact (proj1 (proj2 (proj2 (proj2 (raster_writes_in_range depack))))
           (config 3) terrain0 [0] (subscribers 1 1 1 1 0) 42 glob0 glob0_wf).
Defined.

(** C4 at the scene with radius 1: cell 8 of chunk 0 lies at (1, -1) in
    the map frame, at distance sqrt 2 from the camera at the origin. *)
Lemma local_radius_gating_scene :
  local_cell depack (config 1) (of_Z 0) (of_Z 0) (of_Z 0) (of_Z (-1)) 3 9
    (subscribers 1 1 1 1 1) 42 (chunk 0 (of_Z 2) (dec 73 2)) buffers9 8
  = Some buffers9
  /\ local_target (config 1) (of_Z 0) (of_Z 0) (of_Z 0) (of_Z (-1)) 3 9
       (chunk 0 (of_Z 2) (dec 73 2)) 8 = None.
Proof.
  apply (proj1 (local_radius_gating depack) (config 1) (of_Z 0) (of_Z 0) (of_Z 0)
           (of_Z (-1)) 3 9 (subscribers 1 1 1 1 1) 42 (chunk 0 (of_Z 2) (dec 73 2))
           buffers9 8%nat (of_Z 1) (of_Z 1)); vm_compute; reflexivity.
Defined.



(** C9 at the scene: a local callback without any subscriber. *)
Lemma subscriber_gating_scene :
  localTerrainCallback depack (sensor terrain0) (subscribers 0 0 0 0 0) state0
  = Some (ensure_started (sensor terrain0) state0, []).
Proof.
  apply (proj1 (proj2 (proj2 (proj2 (subscriber_gating depack))))
           (sensor terrain0) (subscribers 0 0 0 0 0) state0); reflexivity.
Defined.

(** C9 as stated fails on the global map: with a cost-map subscriber and
    no height-map subscriber, the rasterization still writes the
    normalized heights of the cells into the height raster. *)
Lemma global_height_raster_written_without_subscriber :
  heightSub (subscribers 0 1 0 0 0) = 0
  /\ data (mGlobHeightMapMsg glob1) = replicate 20 (-1)
  /\ (fun r => data (mGlobHeightMapMsg (fst r)))
       <$> publishGlobalMaps depack (config 3) terrain0 [0] (subscribers 0 1 0 0 0) 42 glob1
     = Some [-1; 100; 100; 100; -1; 100; -1; 100; -1; 100; 100; 100;
             -1; -1; -1; -1; -1; -1; -1; -1].
Proof. split; [reflexivity|]. split; vm_compute; reflexivity. Qed.


(** C3 as stated fails: the cost 65/128 = 0.5078125 lies in [0, 1] and
    [round(cost * 100)] is 51, but the cost raster gets 50. *)
Lemma cost_raster_is_not_rounded :
  flt (of_Z 0) cost_frac = true /\ flt cost_frac (of_Z 1) = true
  /\ spec_cost_norm cost_frac = 51
  /\ observe (fun st => data (mLocCostMapMsg (loc st))) (local_cycle terrain_frac)
     = Some [50; 50; 50; 50; -1; 50; 50; 50; 50]
  /\ observe (fun st => data (mGlobCostMapMsg (glob st)))
       (globalTerrainCallback depack (sensor terrain_frac) no_images
          (subscribers 0 1 0 0 0) (initial_state terrain_frac (config 3)))
     = Some [-1; 50; 50; 50; -1; 50; -1; 50; -1; 50; 50; 50; -1; -1; -1; -1; -1; -1; -1; -1].
Proof. repeat split; vm_compute; reflexivity. Qed.

(** C5 as stated fails for the point buffer: the second global cycle
    meets chunk 1 outside the 4 x 5 raster of the first and reallocates a
    5 x 10 raster, yet point 1 of the buffer is still the point the first
    cycle wrote, not an "unknown" one. *)
Lemma point_buffer_survives_resize :
  observe (fun st => (width (info (mGlobHeightMapMsg (glob st))),
                      height (info (mGlobHeightMapMsg (glob st))),
                      exceeds (global_bounds (glob st)) (getDimension (getChunk terrain1 1)),
                      pc_data (mGlobalHeightPointcloudMsg (glob st)) !! 1%nat))
    global_cycle1
  = Some (4, 5, true, Some point1)
  /\ observe (fun st => (width (info (mGlobHeightMapMsg (glob st))),
                         height (info (mGlobHeightMapMsg (glob st))),
                         length (pc_data (mGlobalHeightPointcloudMsg (glob st))),
                         pc_data (mGlobalHeightPointcloudMsg (glob st)) !! 1%nat))
       global_cycle2
     = Some (5, 10, 50%nat, Some point1)
  /\ point1 <> (of_Z (-1), of_Z (-1), of_Z (-1), of_Z (-1)).
Proof. split; [|split]; vm_compute; [reflexivity | reflexivity | discriminate]. Qed.

(** C2 fails on the code: the quotient is rounded before it is scaled by
    100.  Elevation 2.0 with maximum height 4.0 gives 100 where the
    specification has 50, and elevation 1.0 gives 0 where it has 25; the
    rasters of the scene hold 100 for every valid cell. *)
Theorem height_is_rounded_before_scaling :
  height_norm (config 3) (of_Z 2) = 100
  /\ spec_height_norm (config 3) (of_Z 2) = 50
  /\ height_norm (config 3) (of_Z 1) = 0
  /\ spec_height_norm (config 3) (of_Z 1) = 25
  /\ observe (fun st => data (mLocHeightMapMsg (loc st))) (local_cycle terrain0)
     = Some [100; 100; 100; 100; -1; 100; 100; 100; 100]
  /\ observe (fun st => data (mGlobHeightMapMsg (glob st)))
       (globalTerrainCallback depack (sensor terrain0) no_images (subscribers 1 0 0 0 0)
          state0)
     = Some [-1; 100; 100; 100; -1; 100; -1; 100; -1; 100; 100; 100;
             -1; -1; -1; -1; -1; -1; -1; -1].
Proof. repeat split; vm_compute; reflexivity. Qed.

End SceneFacts.

(** ** Normalized values, sizes and services *)

Lemma Qtrunc_nonneg q : (0 <= q)%Q -> Qtrunc q = Qfloor q.
Proof. intros Hq. unfold Qtrunc. apply Qle_bool_iff in Hq. by rewrite Hq. Qed.

(** In exact arithmetic a cost in [0, 1] is normalized to
    [floor(cost * 100)]. *)
Lemma cost_norm_exact (q : Q) :
  (0 <= q <= 1)%Q -> cost_norm (Exact.Fin q) = Qfloor (q * inject_Z 100).
Proof.
  intros [H0 H1].
  change (cost_norm (Exact.Fin q)) with (i8 (i8 (Qtrunc (q * inject_Z 100)))).
  assert (Hlo : (0 <= q * inject_Z 100)%Q).
  { apply Qmult_le_0_compat; [assumption | discriminate]. }
  assert (Hhi : (q * inject_Z 100 <= inject_Z 100)%Q).
  { rewrite <- (Qmult_1_l (inject_Z 100)) at 2. apply Qmult_le_compat_r; [assumption|].
    discriminate. }
  rewrite (Qtrunc_nonneg _ Hlo).
  pose proof (Qfloor_resp_le _ _ Hlo) as Hf0. pose proof (Qfloor_resp_le _ _ Hhi) as Hf1.
  rewrite Qfloor_Z in Hf1. change (Qfloor 0) with 0 in Hf0.
  rewrite i8_idem. apply i8_small. lia.
Qed.

(** In binary32 a cost is normalized to its product with 100, as a float,
    truncated toward zero. *)
Lemma cost_norm_binary32 (c : Binary32.float) :
  cost_norm c = i8 (Qtrunc (Binary32.B2Q (fmul c (of_int 100)))).
Proof. unfold cost_norm. simpl. apply i8_idem. Qed.

(** C3, as the code has it.  The value written into the cost raster for
    a cell with cost [c] is [static_cast<int8_t>(c * 100)]: the product
    truncated toward zero, which for [c] in [0, 1] is [floor(c * 100)] in
    exact arithmetic; the cost sample 0.73 yields 73.  The local
    rasterizer writes it when the cost map has a subscriber, the global
    one always. *)
Theorem cost_raster_is_truncated :
  (forall (F : Type) (ops : FloatOps F) (sq : FloatSqrt F) (depackColor3f : F -> F * F * F)
          cf camX camY mapMinX mapMinY mapCols totCell subs t chunk b i idx,
      raster_sized totCell b ->
      local_target cf camX camY mapMinX mapMinY mapCols totCell chunk i = Some idx ->
      0 < costSub subs ->
      exists b',
        local_cell depackColor3f cf camX camY mapMinX mapMinY mapCols totCell subs t chunk
          b i = Some b'
        /\ b_cost b' !! Z.to_nat idx = Some (cost_norm (at_ chunk TRAVERSABILITY_COST i)))
  /\ (forall (F : Type) (ops : FloatOps F) cf (i0 : MapMetaData) cloud mrk
             (chunk : TerrainChunk (F := F)) b i idx,
      raster_sized (u32 (width i0 * height i0)) b ->
      isCellValid chunk i = true ->
      global_target cf i0 chunk i = Some idx ->
      exists b',
        global_cell cf i0 cloud mrk chunk b i = Some b'
        /\ b_cost b' !! Z.to_nat idx = Some (cost_norm (at_ chunk TRAVERSABILITY_COST i)))
  /\ (forall q : Q,
      (0 <= q <= 1)%Q -> cost_norm (Exact.Fin q) = Qfloor (q * inject_Z 100))
  /\ (forall c : Binary32.float,
      cost_norm c = i8 (Qtrunc (Binary32.B2Q (fmul c (of_int 100)))))
  /\ cost_norm (Binary32.dec 73 2) = 73.
Proof.
  split; [|split; [|split; [|split]]].
  - intros F ops sq depackColor3f cf camX camY mapMinX mapMinY mapCols totCell subs t chunk
      b i idx Hs Ht Hsub.
    destruct (local_cell_values depackColor3f cf camX camY mapMinX mapMinY mapCols totCell
                subs t chunk b i idx Hs Ht) as (b' & Hb' & Hc & _).
    exists b'. auto.
  - intros F ops cf i0 cloud mrk chunk b i idx Hs Hv Ht.
    destruct (global_cell_values cf i0 cloud mrk chunk b i idx Hs Hv Ht)
      as (b' & Hb' & Hc & _).
    exists b'. auto.
  - exact cost_norm_exact.
  - exact cost_norm_binary32.
  - vm_compute. reflexivity.
Qed.

(** C3 at the exact cost 73/100. *)
Lemma cost_raster_is_truncated_scene :
  cost_norm (Exact.Fin (73 # 100)) = Qfloor ((73 # 100) * inject_Z 100).
Proof.
  apply (proj1 (proj2 (proj2 cost_raster_is_truncated)) (73 # 100)).
  split; discriminate.
Defined.

(** C7.  The local rasters published by [publishLocalMaps] have
    [cells_of_span] of the window's width columns and of its height rows,
    which is [ceil(span / resolution) + 1]: literally so in exact
    arithmetic, for a positive resolution and a count that fits a
    [uint32_t].  The window [0,0]-[1,1] of the scene at resolution 0.5
    gives 3 x 3 rasters. *)
Theorem local_raster_dimensions :
  (forall (F : Type) (ops : FloatOps F) (sq : FloatSqrt F) (depackColor3f : F -> F * F * F)
          cf terrain camX camY minX minY maxX maxY chunks subs t lm,
      let w := local_window cf camX camY minX minY maxX maxY in
      exists lm' pubs,
        publishLocalMaps depackColor3f cf terrain camX camY minX minY maxX maxY chunks subs
          t lm = Some (lm', pubs)
        /\ width (info (mLocHeightMapMsg lm'))
           = cells_of_span cf (fabs (fsub (mapMaxX w) (mapMinX w)))
        /\ height (info (mLocHeightMapMsg lm'))
           = cells_of_span cf (fabs (fsub (mapMaxY w) (mapMinY w)))
        /\ info (mLocCostMapMsg lm') = info (mLocHeightMapMsg lm'))
  /\ (forall (cf : Config) (r s : Q),
      mTerrainMapRes cf = Exact.Fin r -> (0 < r)%Q ->
      0 <= Qceiling (s / r) < 2 ^ 32 - 1 ->
      cells_of_span cf (Exact.Fin s) = Qceiling (s / r) + 1)
  /\ observe (fun st => (width (info (mLocHeightMapMsg (loc st))),
                         height (info (mLocHeightMapMsg (loc st))),
                         length (data (mLocHeightMapMsg (loc st)))))
       (Scene.local_cycle Scene.terrain0)
     = Some (3, 3, 9%nat).
Proof.
  split; [|split].
  - intros F ops sq depackColor3f cf terrain camX camY minX minY maxX maxY chunks subs t lm w.
    destruct (publishLocalMaps_total depackColor3f cf terrain camX camY minX minY maxX maxY
                chunks subs t lm) as (lm' & pubs & Hp & _ & _ & Hw & Hh & Hi).
    exists lm', pubs. split; [assumption|]. split; [exact Hw|]. split; [exact Hh | exact Hi].
  - exact cells_of_span_exact.
  - vm_compute. reflexivity.
Qed.

(** C7 at span 1 and resolution 1/2, exactly. *)
Lemma local_raster_dimensions_scene :
  cells_of_span ExactScene.config (Exact.Fin 1) = Qceiling (1 / (1 # 2)) + 1.
Proof.
  apply (proj1 (proj2 local_raster_dimensions) ExactScene.config (1 # 2) 1%Q).
  - reflexivity.
  - reflexivity.
  - vm_compute. split; [discriminate | reflexivity].
Defined.

(** C5 at the exact scene: chunk 1, at [2,0]-[3,1], exceeds the bounds of
    the start-up raster. *)
Lemma global_resize_covers_new_terrain_scene :
  let gm' := snd (global_prepare ExactScene.config ExactScene.terrain [1] ExactScene.glob0) in
  fst (global_prepare ExactScene.config ExactScene.terrain [1] ExactScene.glob0) = [0; 1]
  /\ data (mGlobHeightMapMsg gm') = vec_fill 36 (-1)
  /\ data (mGlobCostMapMsg gm') = vec_fill 36 (-1)
  /\ mGlobMapWholeUpdate gm' = false
  /\ covers (global_bounds gm') (global_bounds ExactScene.glob0)
  /\ covers (global_bounds gm') (box_of ExactScene.dim).
Proof.
  destruct (global_resize_covers_new_terrain ExactScene.config ExactScene.terrain [1]
              ExactScene.glob0 (1 # 2) 1%Z)
    as (Hch & Hh & Hc & Hfl & Hold & Hall & _).
  - reflexivity.
  - reflexivity.
  - vm_compute. tauto.
  - intros key _. vm_compute. tauto.
  - apply list_elem_of_singleton. reflexivity.
  - vm_compute. reflexivity.
  - vm_compute. repeat split; discriminate.
  - cbv zeta. split; [exact Hch|]. split; [exact Hh|]. split; [exact Hc|].
    split; [exact Hfl|]. split; [exact Hold|]. apply (Hall 1).
    apply list_elem_of_singleton. reflexivity.
Defined.

(** C10 fails on the code: [init] advertises the service "local_cost_map"
    with the handler of the local height map.  Once mapping is active, a
    request for the local cost map is answered with the local height
    raster: in the scene, with the heights 100 and not with the costs
    73. *)
Theorem local_cost_map_service_answers_height_map :
  (forall (F : Type) (st : State (F := F)) (res : OccupancyGrid),
      call_service "local_cost_map" st res = Some (on_get_loc_height_map st res)
      /\ (mMappingReady st = true ->
          call_service "local_cost_map" st res = Some (true, mLocHeightMapMsg (loc st)))
      /\ (mMappingReady st = false ->
          call_service "local_cost_map" st res = Some (false, res)))
  /\ observe (fun st =>
                (fun r => (fst r, data (snd r)))
                  <$> call_service "local_cost_map" st empty_grid)
       (Scene.local_cycle Scene.terrain0)
     = Some (Some (true, [100; 100; 100; 100; -1; 100; 100; 100; 100]))
  /\ observe (fun st => data (mLocCostMapMsg (loc st))) (Scene.local_cycle Scene.terrain0)
     = Some [73; 73; 73; 73; -1; 73; 73; 73; 73]
  /\ observe (fun st => (fst (on_get_loc_cost_map st empty_grid),
                         data (snd (on_get_loc_cost_map st empty_grid))))
       (Scene.local_cycle Scene.terrain0)
     = Some (true, [73; 73; 73; 73; -1; 73; 73; 73; 73]).
Proof.
  split; [|split; [|split]].
  - intros F st res. split; [reflexivity|].
    split; intros Hr; unfold call_service; simpl; unfold on_get_loc_height_map;
      rewrite Hr; reflexivity.
  - vm_compute. reflexivity.
  - vm_compute. reflexivity.
  - vm_compute. reflexivity.
Qed.

(** * Further properties of the node *)

(** ** Loops, two runs side by side *)

Lemma fold_opt_related {A B} (R : B -> B -> Prop) (f : B -> A -> option B) (l : list A)
    (b1 b2 : B) :
  (forall b1 b2 x, x ∈ l -> R b1 b2 ->
     exists b1' b2', f b1 x = Some b1' /\ f b2 x = Some b2' /\ R b1' b2') ->
  R b1 b2 ->
  exists b1' b2', fold_opt f l b1 = Some b1' /\ fold_opt f l b2 = Some b2' /\ R b1' b2'.
Proof.
  revert b1 b2. induction l as [|x l IH]; intros b1 b2 Hf HR; simpl.
  - eauto.
  - destruct (Hf b1 b2 x) as (c1 & c2 & -> & -> & HR'); [left | assumption |]. simpl.
    apply IH; [|assumption]. intros d1 d2 y Hy. apply Hf. by right.
Qed.

Section NodeFacts.

Context {F : Type} `{FloatOps F} `{FloatSqrt F}.
Variable depackColor3f : F -> F * F * F.

(** ** The local maps are rebuilt in every cycle *)

Lemma local_write_related cf subs t chunk i xm ym idx tot b1 b2 :
  same_but_cloud tot b1 b2 -> 0 <= idx < tot ->
  exists b1' b2',
    local_write depackColor3f cf subs t chunk i xm ym idx b1 = Some b1'
    /\ local_write depackColor3f cf subs t chunk i xm ym idx b2 = Some b2'
    /\ same_but_cloud tot b1' b2'.
Proof.
  intros ([Hh1 Hc1] & [Hh2 Hc2] & Eh & Ec & Ep & Eo & Ex) Hidx.
  destruct b1 as [h1 c1 p1 q1 o1 x1], b2 as [h2 c2 p2 q2 o2 x2]. simpl in *. subst.
  unfold local_write. cbn [b_cost b_height].
  rewrite (vec_at_put_Some c2) by lia.
  destruct (0 <? costSub subs); simpl;
    rewrite (vec_at_put_Some h2) by lia;
    destruct (0 <? heightSub subs), (0 <? cloudSub subs), (0 <? mrkSub subs),
      (0 <? mrksSub subs); simpl; try destruct (fgt _ _); simpl;
    (eexists _, _; split; [reflexivity|]; split; [reflexivity|]);
    unfold same_but_cloud, raster_sized; simpl; rewrite ?length_insert; auto 10.
Qed.

Lemma local_rasterize_related cf terrain camX camY mapMinX mapMinY mapCols totCell subs t
    chunks b1 b2 :
  same_but_cloud totCell b1 b2 ->
  exists b1' b2',
    local_rasterize depackColor3f cf terrain camX camY mapMinX mapMinY mapCols totCell subs t
      chunks b1 = Some b1'
    /\ local_rasterize depackColor3f cf terrain camX camY mapMinX mapMinY mapCols totCell
         subs t chunks b2 = Some b2'
    /\ same_but_cloud totCell b1' b2'.
Proof.
  intros Hb. unfold local_rasterize.
  apply (fold_opt_related (same_but_cloud totCell)); [|assumption].
  intros c1 c2 key _ Hc. unfold local_chunk.
  apply (fold_opt_related (same_but_cloud totCell)); [|assumption].
  intros d1 d2 i _ Hd. rewrite !local_cell_target.
  destruct (local_target _ _ _ _ _ _ _ _ _) as [idx|] eqn:Ht; [|by eexists _, _].
  pose proof (local_target_bound _ _ _ _ _ _ _ _ _ _ Ht) as Hidx.
  destruct (index2x_y _ i) as [[xm ym]|]; [|by eexists _, _].
  by apply local_write_related.
Qed.

(** X1.  [publishLocalMaps] builds the local height and cost grids, the
    cube list and the boxes from nothing in every cycle: whatever the local
    maps held before, the two grids it stores and every message it
    publishes other than the point cloud are the same. *)
Theorem local_maps_rebuilt_each_cycle cf terrain camX camY minX minY maxX maxY chunks subs t
    (lm1 lm2 : LocalMaps) :
  exists lm1' pubs1 lm2' pubs2,
    publishLocalMaps depackColor3f cf terrain camX camY minX minY maxX maxY chunks subs t lm1
    = Some (lm1', pubs1)
    /\ publishLocalMaps depackColor3f cf terrain camX camY minX minY maxX maxY chunks subs t
         lm2 = Some (lm2', pubs2)
    /\ mLocHeightMapMsg lm1' = mLocHeightMapMsg lm2'
    /\ mLocCostMapMsg lm1' = mLocCostMapMsg lm2'
    /\ forall p, (forall c, p <> PubLocalHeightCloud c) -> p ∈ pubs1 <-> p ∈ pubs2.
Proof.
  unfold publishLocalMaps.
  set (w := local_window cf camX camY minX minY maxX maxY).
  set (tot := u32 (mapRows w * mapCols w)).
  match goal with
  | |- context [local_rasterize _ _ _ _ _ _ _ _ _ _ _ _
                  {| b_height := ?h; b_cost := ?c; b_cloud := ?p1; b_points := _;
                     b_colors := _; b_boxes := _ |}] =>
    match goal with
    | |- context [local_rasterize _ _ _ _ _ _ _ _ _ _ _ _
                    {| b_height := h; b_cost := c; b_cloud := ?p2; b_points := _;
                       b_colors := _; b_boxes := _ |}] =>
      lazymatch p2 with
      | context [lm2] =>
        destruct (local_rasterize_related cf terrain camX camY (mapMinX w) (mapMinY w)
                    (mapCols w) tot subs t chunks
                    {| b_height := h; b_cost := c; b_cloud := p1; b_points := [];
                       b_colors := []; b_boxes := [] |}
                    {| b_height := h; b_cost := c; b_cloud := p2; b_points := [];
                       b_colors := []; b_boxes := [] |})
          as (b1 & b2 & -> & -> & _ & _ & Eh & Ec & Ep & Eo & Ex)
      end
    end
  end.
  { pose proof (u32_range (mapRows w * mapCols w)).
    unfold same_but_cloud, raster_sized. cbn [b_height b_cost b_points b_colors b_boxes].
    rewrite !vec_fill_length by (unfold tot; lia). auto 10. }
  simpl. eexists _, _, _, _. split; [reflexivity|]. split; [reflexivity|].
  rewrite Eh, Ec, Ep, Eo, Ex. split; [reflexivity|]. split; [reflexivity|].
  intros p Hp. rewrite !elem_of_app.
  destruct (0 <? cloudSub subs); [|tauto].
  rewrite !list_elem_of_singleton. split; intros [?|[?|[E|?]]]; auto; by apply Hp in E.
Qed.

(** ** The cube lists *)

Lemma local_write_cubes cf subs t chunk i xm ym idx tot b :
  raster_sized tot b -> 0 <= idx < tot ->
  length (b_points b) = length (b_colors b) ->
  exists b', local_write depackColor3f cf subs t chunk i xm ym idx b = Some b'
    /\ raster_sized tot b' /\ length (b_points b') = length (b_colors b').
Proof.
  intros [Hh Hc] Hidx Hl. unfold local_write.
  rewrite (vec_at_put_Some (b_cost b)) by lia.
  destruct (0 <? costSub subs); simpl;
    rewrite (vec_at_put_Some (b_height b)) by lia;
    destruct (0 <? heightSub subs), (0 <? cloudSub subs), (0 <? mrkSub subs),
      (0 <? mrksSub subs); simpl; try destruct (fgt _ _); simpl;
    (eexists; split; [reflexivity|]); unfold raster_sized; simpl;
    rewrite ?length_insert, ?length_app, ?length_map; auto.
Qed.

Lemma local_rasterize_cubes cf terrain camX camY mapMinX mapMinY mapCols totCell subs t
    chunks b :
  raster_sized totCell b -> length (b_points b) = length (b_colors b) ->
  exists b', local_rasterize depackColor3f cf terrain camX camY mapMinX mapMinY mapCols
               totCell subs t chunks b = Some b'
    /\ length (b_points b') = length (b_colors b').
Proof.
  intros Hb Hl.
  set (P := fun b1 : Buffers (F := F) =>
    raster_sized totCell b1 /\ length (b_points b1) = length (b_colors b1)).
  destruct (fold_opt_invariant P
              (local_chunk depackColor3f cf terrain camX camY mapMinX mapMinY mapCols
                 totCell subs t) chunks b) as (b' & Hb' & _ & Hl'); [|by split|by eauto].
  intros b1 key _ Hb1. unfold local_chunk.
  apply (fold_opt_invariant P); [|assumption].
  intros b2 i _ [Hs Hl2]. rewrite local_cell_target.
  destruct (local_target _ _ _ _ _ _ _ _ _) as [idx|] eqn:Ht; [|by exists b2].
  pose proof (local_target_bound _ _ _ _ _ _ _ _ _ _ Ht) as Hidx.
  destruct (index2x_y _ i) as [[xm ym]|]; [|by exists b2].
  by apply local_write_cubes.
Qed.

Lemma global_cubes_lengths (cf : Config) (cloud : list (F * F * F * F)) :
  length (fst (global_cubes depackColor3f cf cloud))
  = length (snd (global_cubes depackColor3f cf cloud)).
Proof.
  unfold global_cubes.
  match goal with
  | |- context [fold_left ?f cloud ?a] =>
      enough (forall acc, length (fst acc) = length (snd acc) ->
                length (fst (fold_left f cloud acc)) = length (snd (fold_left f cloud acc)))
        as Hgen by (apply Hgen; reflexivity)
  end.
  induction cloud as [|p cloud IH]; intros acc Hacc; cbn [fold_left]; [exact Hacc|].
  apply IH. destruct p as [[[xm ym] zm] color_f]. cbn [fst snd].
  rewrite !length_app, length_map. lia.
Qed.

Lemma cube_marker_lengths (cf : Config) mrk t (pts cols : list (F * F * F)) :
  length pts = length cols ->
  length (mk_points (cube_marker cf mrk t pts cols))
  = length (mk_colors (cube_marker cf mrk t pts cols)).
Proof. intros Hl. unfold cube_marker. destruct (mrk =? 0); exact Hl. Qed.

(** X2.  The cube-list marker a cycle publishes carries one colour for
    every point, in the local and in the global map. *)
Theorem cube_list_has_a_color_per_point :
  (forall cf terrain camX camY minX minY maxX maxY chunks subs t lm,
      exists lm' pubs,
        publishLocalMaps depackColor3f cf terrain camX camY minX minY maxX maxY chunks subs
          t lm = Some (lm', pubs)
        /\ forall m, PubLocalHeightMrk m ∈ pubs ->
             length (mk_points m) = length (mk_colors m))
  /\ (forall cf terrain chunks subs t gm,
      global_wf gm ->
      exists gm' pubs,
        publishGlobalMaps depackColor3f cf terrain chunks subs t gm = Some (gm', pubs)
        /\ forall m, PubGlobalHeightMrk m ∈ pubs ->
             length (mk_points m) = length (mk_colors m)).
Proof.
  split.
  - intros cf terrain camX camY minX minY maxX maxY chunks subs t lm.
    unfold publishLocalMaps.
    set (w := local_window cf camX camY minX minY maxX maxY).
    match goal with
    | |- context [local_rasterize _ _ _ _ _ _ _ _ _ _ _ _ ?b0] =>
        destruct (local_rasterize_cubes cf terrain camX camY (mapMinX w) (mapMinY w)
                    (mapCols w) (u32 (mapRows w * mapCols w)) subs t chunks b0)
          as (b & -> & Hl)
    end.
    + pose proof (u32_range (mapRows w * mapCols w)).
      split; cbn [b_height b_cost]; apply vec_fill_length; lia.
    + reflexivity.
    + simpl. eexists _, _. split; [reflexivity|]. intros m Hm.
      rewrite !elem_of_app in Hm.
      destruct (0 <? heightSub subs), (0 <? costSub subs), (0 <? cloudSub subs),
        (0 <? mrkSub subs), (0 <? mrksSub subs);
        rewrite ?list_elem_of_singleton, ?elem_of_nil in Hm;
        repeat (destruct Hm as [Hm|Hm]); try discriminate; try contradiction;
        injection Hm as ->; by apply cube_marker_lengths.
  - intros cf terrain chunks subs t gm [Hh Hc]. unfold publishGlobalMaps.
    match goal with
    | |- context [global_rasterize _ _ ?i0 _ _ _ ?b0] =>
        destruct (global_rasterize_sized cf terrain i0 (cloudSub subs) (mrkSub subs) chunks b0)
          as (b & -> & _)
    end.
    { split; simpl; assumption. }
    simpl.
    assert (Hl : length (fst (if 0 <? mrkSub subs
                              then global_cubes depackColor3f cf (b_cloud b)
                              else ([], [])))
                 = length (snd (if 0 <? mrkSub subs
                                then global_cubes depackColor3f cf (b_cloud b)
                                else ([], [])))).
    { destruct (0 <? mrkSub subs); [apply global_cubes_lengths | reflexivity]. }
    destruct (if 0 <? mrkSub subs then _ else _) as [pts cols]. simpl in Hl.
    eexists _, _. split; [reflexivity|]. intros m Hm.
    rewrite !elem_of_app in Hm.
    destruct (0 <? heightSub subs), (0 <? costSub subs), (0 <? cloudSub subs),
      (0 <? mrkSub subs);
      rewrite ?list_elem_of_singleton, ?elem_of_nil in Hm;
      repeat (destruct Hm as [Hm|Hm]); try discriminate; try contradiction;
      injection Hm as ->; by apply cube_marker_lengths.
Qed.

(** ** The global maps keep what a cycle does not touch *)

Lemma global_cell_frame_at cf (i0 : MapMetaData) cloud mrk (chunk : TerrainChunk) b i
    (n : nat) :
  raster_sized (u32 (width i0 * height i0)) b ->
  global_target cf i0 chunk i <> Some (Z.of_nat n) ->
  exists b', global_cell cf i0 cloud mrk chunk b i = Some b'
    /\ raster_sized (u32 (width i0 * height i0)) b'
    /\ b_height b' !! n = b_height b !! n
    /\ b_cost b' !! n = b_cost b !! n
    /\ b_cloud b' !! n = b_cloud b !! n.
Proof.
  intros [Hh Hc] Hne. unfold global_cell, global_target in *.
  destruct (global_sample cf chunk i) as [[hgt hn] cn].
  destruct (index2x_y (getDimension chunk) i) as [[xm ym]|];
    [|exists b; repeat split; auto].
  destruct (global_index cf i0 xm ym) as [idx|] eqn:Hidx;
    [|exists b; repeat split; auto].
  apply global_index_bound in Hidx. unfold global_write, raw_put.
  rewrite (vec_at_put_Some (b_height b)) by lia.
  rewrite (vec_at_put_Some (b_cost b)) by lia. simpl.
  assert (Hn : Z.to_nat idx <> n) by (intros <-; apply Hne; f_equal; lia).
  destruct (Z.leb_spec 0 idx); [|lia].
  destruct ((0 <? cloud) || (0 <? mrk));
    (eexists; split; [reflexivity|]); unfold raster_sized; simpl;
    rewrite ?length_insert, ?list_lookup_insert_ne by assumption; auto.
Qed.

Lemma global_rasterize_frame_at cf terrain (i0 : MapMetaData) cloud mrk chunks b (n : nat) :
  raster_sized (u32 (width i0 * height i0)) b ->
  (forall key i, key ∈ chunks ->
     (i < getFullSizeIdx (getDimension (getChunk terrain key)))%nat ->
     global_target cf i0 (getChunk terrain key) i <> Some (Z.of_nat n)) ->
  exists b', global_rasterize cf terrain i0 cloud mrk chunks b = Some b'
    /\ b_height b' !! n = b_height b !! n
    /\ b_cost b' !! n = b_cost b !! n
    /\ b_cloud b' !! n = b_cloud b !! n.
Proof.
  intros Hb Hfree.
  set (P := fun b1 : Buffers (F := F) =>
    raster_sized (u32 (width i0 * height i0)) b1
    /\ b_height b1 !! n = b_height b !! n
    /\ b_cost b1 !! n = b_cost b !! n
    /\ b_cloud b1 !! n = b_cloud b !! n).
  destruct (fold_opt_invariant P (global_chunk cf terrain i0 cloud mrk) chunks b)
    as (b' & Hb' & _ & HP); [|by unfold P|by eauto].
  intros b1 key Hkey Hb1. unfold global_chunk.
  apply (fold_opt_invariant P); [|assumption].
  intros b2 i Hi (Hs & Eh & Ec & Ep). apply elem_of_seq in Hi.
  destruct (global_cell_frame_at cf i0 cloud mrk (getChunk terrain key) b2 i n Hs)
    as (b3 & Hb3 & Hs3 & Eh3 & Ec3 & Ep3).
  { apply Hfree; [assumption | lia]. }
  exists b3. unfold P. split; [assumption|]. repeat split; try apply Hs3; congruence.
Qed.

(** X3.  The global maps accumulate: a raster index on which no cell of
    the processed chunks lands keeps its height, its cost and its point
    through [publishGlobalMaps]. *)
Theorem global_maps_keep_untouched_cells cf terrain chunks subs t gm (n : nat) :
  global_wf gm ->
  (forall key i, key ∈ chunks ->
     (i < getFullSizeIdx (getDimension (getChunk terrain key)))%nat ->
     global_target cf (info (mGlobHeightMapMsg gm)) (getChunk terrain key) i
     <> Some (Z.of_nat n)) ->
  exists gm' pubs,
    publishGlobalMaps depackColor3f cf terrain chunks subs t gm = Some (gm', pubs)
    /\ data (mGlobHeightMapMsg gm') !! n = data (mGlobHeightMapMsg gm) !! n
    /\ data (mGlobCostMapMsg gm') !! n = data (mGlobCostMapMsg gm) !! n
    /\ pc_data (mGlobalHeightPointcloudMsg gm') !! n
       = pc_data (mGlobalHeightPointcloudMsg gm) !! n.
Proof.
  intros [Hh Hc] Hfree. unfold publishGlobalMaps.
  match goal with
  | |- context [global_rasterize _ _ ?i0 _ _ _ ?b0] =>
      destruct (global_rasterize_frame_at cf terrain i0 (cloudSub subs) (mrkSub subs)
                  chunks b0 n) as (b & -> & Eh & Ec & Ep)
  end.
  - split; simpl; assumption.
  - exact Hfree.
  - simpl in *. destruct (if 0 <? mrkSub subs then _ else _) as [pts cols].
    eexists _, _. split; [reflexivity|]. simpl. auto.
Qed.

(** ** When the global map is resized *)

Lemma global_limits_step_within (terrain : Terrain) bounds r key :
  exceeds bounds (getDimension (getChunk terrain key)) = false ->
  global_limits_step terrain (bounds, r) key = (bounds, r).
Proof.
  destruct bounds as [[[a b] c] d]. unfold global_limits_step, exceeds.
  destruct (flt _ a), (flt _ b), (fgt _ c), (fgt _ d); simpl; auto; discriminate.
Qed.

Lemma global_limits_fold_within (terrain : Terrain) chunks bounds r :
  snd (fold_left (global_limits_step terrain) chunks (bounds, r)) = true ->
  r = true \/ exists key, key ∈ chunks
                /\ exceeds bounds (getDimension (getChunk terrain key)) = true.
Proof.
  induction chunks as [|k l IH]; cbn [fold_left snd]; [auto|].
  destruct (exceeds bounds (getDimension (getChunk terrain k))) eqn:Ek.
  - intros _. right. exists k. split; [left | assumption].
  - rewrite (global_limits_step_within terrain bounds r k Ek). intros Hs.
    destruct (IH Hs) as [->|(key & Hin & Hk)]; [by left|].
    right. exists key. split; [by right | assumption].
Qed.

(** X4.  The limits loop of the global callback asks for a resize exactly
    when the box of some selected chunk exceeds the bounds of the raster;
    when none does, the raster, its origin and the selected chunks stay as
    they are. *)
Theorem global_map_resized_iff_a_chunk_exceeds (cf : Config) (terrain : Terrain)
    (chunks : list HashKey) (gm : GlobalMaps) :
  (snd (global_limits terrain chunks (global_bounds gm)) = true
   <-> exists key, key ∈ chunks
         /\ exceeds (global_bounds gm) (getDimension (getChunk terrain key)) = true)
  /\ ((forall key, key ∈ chunks ->
         exceeds (global_bounds gm) (getDimension (getChunk terrain key)) = false) ->
      global_prepare cf terrain chunks gm = (chunks, gm)).
Proof.
  split; [split|].
  - intros Hs. destruct (global_limits_fold_within terrain chunks _ false Hs) as [?|?];
      [discriminate | assumption].
  - intros (key & Hin & Hk). by apply (global_limits_trigger terrain chunks _ key).
  - intros Hall. unfold global_prepare, global_limits.
    assert (Hid : fold_left (global_limits_step terrain) chunks (global_bounds gm, false)
                  = (global_bounds gm, false)).
    { revert Hall. generalize (global_bounds gm). intros bounds Hall.
      induction chunks as [|k l IH]; cbn [fold_left]; [reflexivity|].
      rewrite global_limits_step_within by (apply Hall; left).
      apply IH. intros key Hk. apply Hall. by right. }
    rewrite Hid. destruct (global_bounds gm) as [[[a b] c] d]. reflexivity.
Qed.

(** ** What a timer callback leaves behind *)

Lemma ensure_started_ready env (st : State) : mMappingReady (ensure_started env st) = true.
Proof. reflexivity. Qed.

Lemma ensure_started_loc env (st : State) : loc (ensure_started env st) = loc st.
Proof.
  unfold ensure_started, startTerrainMapping.
  destruct (mMappingReady st), (zed_present env), (enableTerrainMapping env); reflexivity.
Qed.

Lemma ensure_started_idle env (st : State) :
  mMappingReady st = true ->
  glob (ensure_started env st) = glob st /\ cfg (ensure_started env st) = cfg st
  /\ mTerrain (ensure_started env st) = mTerrain st.
Proof. intros Hr. unfold ensure_started. rewrite Hr. simpl. auto. Qed.

Lemma ensure_started_not_enabled env (st : State) :
  mMappingReady st = false -> zed_present env = true -> enableTerrainMapping env = false ->
  glob (ensure_started env st) = glob st
  /\ cfg (ensure_started env st) = params env (cfg st).
Proof.
  intros Hr Hz He. unfold ensure_started, startTerrainMapping. rewrite Hr, Hz, He.
  simpl. auto.
Qed.

(** Membership in a list of published messages, case by case. *)
Ltac published_cases Hin :=
  rewrite ?elem_of_app in Hin;
  repeat match type of Hin with
         | context [if ?c then _ else _] => destruct c
         end;
  rewrite ?list_elem_of_singleton, ?elem_of_nil in Hin;
  repeat match type of Hin with
         | _ \/ _ => destruct Hin as [Hin|Hin]
         end;
  try discriminate; try contradiction.

(** The messages of one local and of one global cycle. *)
Lemma published_local_cases (s1 s2 s3 s4 s5 : bool) (h c : OccupancyGrid (F := F))
    (pc : PointCloud2 (F := F)) (m : Marker (F := F)) (ms : list (Marker (F := F)))
    (p : Published (F := F)) :
  p ∈ (if s1 then [PubLocalHeightMap h] else [])
      ++ (if s2 then [PubLocalCostMap c] else [])
      ++ (if s3 then [PubLocalHeightCloud pc] else [])
      ++ (if s4 then [PubLocalHeightMrk m] else [])
      ++ (if s5 then [PubLocalHeightMrks ms] else []) ->
  (s1 = true /\ p = PubLocalHeightMap h) \/ (s2 = true /\ p = PubLocalCostMap c)
  \/ (s3 = true /\ p = PubLocalHeightCloud pc) \/ (s4 = true /\ p = PubLocalHeightMrk m)
  \/ (s5 = true /\ p = PubLocalHeightMrks ms).
Proof. intros Hin. published_cases Hin; auto 10. Qed.

Lemma published_global_cases (s1 s2 s3 s4 : bool) (h c : OccupancyGrid (F := F))
    (pc : PointCloud2 (F := F)) (m : Marker (F := F)) (p : Published (F := F)) :
  p ∈ (if s1 then [PubGlobalHeightMap h] else [])
      ++ (if s2 then [PubGlobalCostMap c] else [])
      ++ (if s3 then [PubGlobalHeightCloud pc] else [])
      ++ (if s4 then [PubGlobalHeightMrk m] else []) ->
  (s1 = true /\ p = PubGlobalHeightMap h) \/ (s2 = true /\ p = PubGlobalCostMap c)
  \/ (s3 = true /\ p = PubGlobalHeightCloud pc) \/ (s4 = true /\ p = PubGlobalHeightMrk m).
Proof. intros Hin. published_cases Hin; auto 10. Qed.

Lemma publishLocalMaps_stored cf terrain camX camY minX minY maxX maxY chunks subs t lm :
  exists lm' pubs,
    publishLocalMaps depackColor3f cf terrain camX camY minX minY maxX maxY chunks subs t lm
    = Some (lm', pubs)
    /\ (forall g, PubLocalHeightMap g ∈ pubs -> g = mLocHeightMapMsg lm')
    /\ (forall g, PubLocalCostMap g ∈ pubs -> g = mLocCostMapMsg lm')
    /\ (forall c, PubLocalHeightCloud c ∈ pubs -> c = mLocalHeightPointcloudMsg lm').
Proof.
  unfold publishLocalMaps.
  set (w := local_window cf camX camY minX minY maxX maxY).
  match goal with
  | |- context [local_rasterize _ _ _ _ _ _ _ _ _ _ _ _ ?b0] =>
      destruct (local_rasterize_sized depackColor3f cf terrain camX camY (mapMinX w)
                  (mapMinY w) (mapCols w) (u32 (mapRows w * mapCols w)) subs t chunks b0)
        as (b & -> & _)
  end.
  { pose proof (u32_range (mapRows w * mapCols w)).
    split; cbn [b_height b_cost]; apply vec_fill_length; lia. }
  simpl. eexists _, _. split; [reflexivity|]. simpl.
  repeat split; intros g Hg; apply published_local_cases in Hg;
    destruct Hg as [[_ Hg]|[[_ Hg]|[[_ Hg]|[[_ Hg]|[_ Hg]]]]]; try discriminate;
    by injection Hg.
Qed.

Lemma publishGlobalMaps_stored cf terrain chunks subs t gm :
  global_wf gm ->
  exists gm' pubs,
    publishGlobalMaps depackColor3f cf terrain chunks subs t gm = Some (gm', pubs)
    /\ global_wf gm'
    /\ (forall g, PubGlobalHeightMap g ∈ pubs -> g = mGlobHeightMapMsg gm')
    /\ (forall g, PubGlobalCostMap g ∈ pubs -> g = mGlobCostMapMsg gm')
    /\ (forall c, PubGlobalHeightCloud c ∈ pubs -> c = mGlobalHeightPointcloudMsg gm')
    /\ (forall p, p ∈ pubs ->
          match p with
          | PubGlobalHeightMap _ | PubGlobalCostMap _ | PubGlobalHeightCloud _
          | PubGlobalHeightMrk _ => True
          | _ => False
          end).
Proof.
  intros [Hh Hc]. unfold publishGlobalMaps.
  match goal with
  | |- context [global_rasterize _ _ ?i0 _ _ _ ?b0] =>
      destruct (global_rasterize_sized cf terrain i0 (cloudSub subs) (mrkSub subs) chunks b0)
        as (b & -> & Hh' & Hc')
  end.
  { split; simpl; assumption. }
  simpl in *. destruct (if 0 <? mrkSub subs then _ else _) as [pts cols].
  eexists _, _. split; [reflexivity|]. simpl.
  split; [split; assumption|].
  repeat split; intros g Hg; apply published_global_cases in Hg;
    destruct Hg as [[_ Hg]|[[_ Hg]|[[_ Hg]|[_ Hg]]]]; subst; try exact I; try discriminate;
    by injection Hg.
Qed.

(** The outcome of a local cycle: it returns, the node is ready, and
    either nothing was published and the local maps are as before, or the
    local maps are those of one [publishLocalMaps]. *)
Lemma localTerrainCallback_outcome env subs (st : State) :
  exists st' pubs,
    localTerrainCallback depackColor3f env subs st = Some (st', pubs)
    /\ mMappingReady st' = true
    /\ glob st' = glob (ensure_started env st)
    /\ cfg st' = cfg (ensure_started env st)
    /\ ((pubs = [] /\ loc st' = loc st)
        \/ exists terrain camX camY minX minY maxX maxY chunks,
             retrieveTerrainAsync env = Some terrain
             /\ lookupTransform env = Some (camX, camY)
             /\ chunks = getSurroundingValidChunks terrain (fneg camY) camX
                           (mMapLocalRadius (cfg st'))
             /\ chunks <> []
             /\ local_limits terrain chunks = (minX, minY, maxX, maxY)
             /\ publishLocalMaps depackColor3f (cfg st') terrain camX camY minX minY maxX maxY
                  chunks subs (getReferenceTS terrain) (loc st)
                = Some (loc st', pubs)).
Proof.
  unfold localTerrainCallback.
  pose proof (ensure_started_loc env st) as Hloc.
  pose proof (ensure_started_ready env st) as Hr.
  revert Hloc Hr. generalize (ensure_started env st). intros st1 Hloc Hr.
  destruct (0 <? _); [|by eexists _, _; repeat split; auto].
  destruct (retrieveTerrainAsync env) as [terrain|]; [|by eexists _, _; repeat split; auto].
  destruct (lookupTransform env) as [[camX camY]|]; [|by eexists _, _; repeat split; auto].
  cbn [cfg set_terrain loc].
  destruct (getSurroundingValidChunks terrain (fneg camY) camX (mMapLocalRadius (cfg st1)))
    as [|k chunks] eqn:Hch; [by eexists _, _; repeat split; auto|].
  cbn [length]. rewrite Nat2Z.inj_succ.
  destruct (Z.ltb_spec 0 (Z.succ (Z.of_nat (length chunks)))); [|lia].
  destruct (local_limits terrain (k :: chunks)) as [[[minX minY] maxX] maxY] eqn:Hlim.
  destruct (publishLocalMaps_total depackColor3f (cfg st1) terrain camX camY minX minY maxX
              maxY (k :: chunks) subs (getReferenceTS terrain) (loc st1))
    as (lm' & pubs & Hp & _).
  rewrite Hp. simpl. eexists _, _. split; [reflexivity|]. simpl.
  repeat split; auto. right. exists terrain, camX, camY, minX, minY, maxX, maxY, (k :: chunks).
  rewrite <- Hloc. auto 10.
Qed.

(** The outcome of a global cycle on well-sized maps. *)
Lemma globalTerrainCallback_outcome env imgs subs (st : State) :
  global_wf (glob st) ->
  exists st' pubs,
    globalTerrainCallback depackColor3f env imgs subs st = Some (st', pubs)
    /\ mMappingReady st' = true
    /\ loc st' = loc st
    /\ cfg st' = cfg (ensure_started env st)
    /\ (forall g, PubGlobalHeightMap g ∈ pubs -> g = mGlobHeightMapMsg (glob st'))
    /\ (forall g, PubGlobalCostMap g ∈ pubs -> g = mGlobCostMapMsg (glob st'))
    /\ (forall c, PubGlobalHeightCloud c ∈ pubs -> c = mGlobalHeightPointcloudMsg (glob st')).
Proof.
  intros Hwf. unfold globalTerrainCallback.
  pose proof (ensure_started_loc env st) as Hloc.
  pose proof (ensure_started_ready env st) as Hr.
  pose proof (ensure_started_wf env st Hwf) as Hwf1.
  revert Hloc Hr Hwf1. generalize (ensure_started env st). intros st1 Hloc Hr Hwf1.
  assert (Hnil : forall (s : State),
             mMappingReady s = true -> loc s = loc st -> cfg s = cfg st1 ->
             exists st' pubs, Some (s, ([] : list Published)) = Some (st', pubs)
               /\ mMappingReady st' = true /\ loc st' = loc st /\ cfg st' = cfg st1
               /\ (forall g, PubGlobalHeightMap g ∈ pubs -> g = mGlobHeightMapMsg (glob st'))
               /\ (forall g, PubGlobalCostMap g ∈ pubs -> g = mGlobCostMapMsg (glob st'))
               /\ (forall c, PubGlobalHeightCloud c ∈ pubs
                             -> c = mGlobalHeightPointcloudMsg (glob st'))).
  { intros s ? ? ?. exists s, []. repeat split; auto; intros g Hg; by apply elem_of_nil in Hg. }
  destruct (0 <? _); [|by apply Hnil].
  destruct (retrieveTerrainAsync env) as [terrain|]; [|by apply Hnil].
  change (glob (set_terrain terrain st1)) with (glob st1).
  change (cfg (set_terrain terrain st1)) with (cfg st1).
  rewrite select_chunks_spec.
  set (chunks := if mGlobMapWholeUpdate (glob st1) then _ else _).
  set (gm := {| mGlobHeightMapMsg := _ |}).
  assert (Hgm : global_wf gm) by exact Hwf1.
  destruct (0 <? Z.of_nat (length chunks)); [|by apply Hnil].
  pose proof (global_prepare_spec (cfg st1) terrain chunks gm Hgm) as (Hwf2 & _).
  destruct (global_prepare _ terrain chunks gm) as [chunks' gm2]. simpl in Hwf2.
  destruct (publishGlobalMaps_stored (cfg st1) terrain chunks' subs
              (mLastGlobMapTimestamp gm2) gm2 Hwf2)
    as (gm3 & pubs & Hp & _ & Hph & Hpc & Hpp & Hkind).
  rewrite Hp. simpl. eexists _, _. split; [reflexivity|]. simpl.
  repeat split; auto; intros g Hg; unfold publish_image in Hg; published_cases Hg;
    solve [ by apply Hph | by apply Hpc | by apply Hpp ].
Qed.

(** The handler behind each advertised service, as [init] wires them. *)
Lemma call_service_wired (st : State (F := F)) (res : OccupancyGrid) :
  call_service "static_map" st res = Some (on_get_static_map st res)
  /\ call_service "local_height_map" st res = Some (on_get_loc_height_map st res)
  /\ call_service "local_cost_map" st res = Some (on_get_loc_height_map st res)
  /\ call_service "global_height_map" st res = Some (on_get_glob_height_map st res)
  /\ call_service "global_cost_map" st res = Some (on_get_glob_cost_map st res).
Proof. repeat split. Qed.

(** X5.  After a cycle the map services the node advertises answer with
    the grids that cycle published.  After a local cycle the services
    [local_height_map] and [local_cost_map], which [init] wires to the
    same handler, both return the published height grid.  After a global
    cycle [global_height_map] returns the published height grid,
    [global_cost_map] the published cost grid, and [static_map] the height
    grid when [mDefaultMap] is 0 and the cost grid otherwise. *)
Theorem services_return_the_published_grids :
  (forall env subs (st : State) res,
      exists st' pubs,
        localTerrainCallback depackColor3f env subs st = Some (st', pubs)
        /\ (forall g, PubLocalHeightMap g ∈ pubs ->
              call_service "local_height_map" st' res = Some (true, g)
              /\ call_service "local_cost_map" st' res = Some (true, g)))
  /\ (forall env imgs subs (st : State) res,
      global_wf (glob st) ->
      exists st' pubs,
        globalTerrainCallback depackColor3f env imgs subs st = Some (st', pubs)
        /\ (forall g, PubGlobalHeightMap g ∈ pubs ->
              call_service "global_height_map" st' res = Some (true, g)
              /\ (mDefaultMap (cfg st') = 0 ->
                  call_service "static_map" st' res = Some (true, g)))
        /\ (forall g, PubGlobalCostMap g ∈ pubs ->
              call_service "global_cost_map" st' res = Some (true, g)
              /\ (mDefaultMap (cfg st') <> 0 ->
                  call_service "static_map" st' res = Some (true, g)))).
Proof.
  split.
  - intros env subs st res.
    destruct (localTerrainCallback_outcome env subs st)
      as (st' & pubs & Hcb & Hr & _ & Hcfg & Hout).
    exists st', pubs. split; [assumption|].
    destruct (call_service_wired st' res) as (_ & -> & -> & _).
    unfold on_get_loc_height_map. rewrite Hr. cbn [negb].
    destruct Hout as [[-> _]|(terrain & camX & camY & minX & minY & maxX & maxY & chunks
                              & _ & _ & _ & _ & _ & Hp)].
    + intros g Hg. by apply elem_of_nil in Hg.
    + destruct (publishLocalMaps_stored (cfg st') terrain camX camY minX minY maxX maxY chunks
                  subs (getReferenceTS terrain) (loc st))
        as (lm' & pubs' & Hp' & Hh & _).
      rewrite Hp in Hp'. injection Hp' as <- <-.
      intros g Hg. rewrite <- (Hh g Hg). split; reflexivity.
  - intros env imgs subs st res Hwf.
    destruct (globalTerrainCallback_outcome env imgs subs st Hwf)
      as (st' & pubs & Hcb & Hr & _ & _ & Hh & Hc & _).
    exists st', pubs. split; [assumption|].
    destruct (call_service_wired st' res) as (-> & _ & _ & -> & ->).
    unfold on_get_glob_height_map, on_get_glob_cost_map, on_get_static_map.
    rewrite Hr. cbn [negb].
    split; intros g Hg.
    + rewrite (Hh g Hg). split; [reflexivity|]. intros ->. reflexivity.
    + rewrite (Hc g Hg). split; [reflexivity|]. intros Hd.
      apply Z.eqb_neq in Hd. by rewrite Hd.
Qed.

(** X6.  The two pipelines do not touch each other's maps: a global
    cycle leaves the local maps as they are, and a local cycle on a node
    that is ready leaves the global maps and the parameters as they
    are. *)
Theorem local_and_global_maps_are_independent :
  (forall env imgs subs (st : State),
      global_wf (glob st) ->
      observe loc (globalTerrainCallback depackColor3f env imgs subs st) = Some (loc st))
  /\ (forall env subs (st : State),
      mMappingReady st = true ->
      observe (fun s => (glob s, cfg s)) (localTerrainCallback depackColor3f env subs st)
      = Some (glob st, cfg st)).
Proof.
  split.
  - intros env imgs subs st Hwf.
    destruct (globalTerrainCallback_outcome env imgs subs st Hwf)
      as (st' & pubs & -> & _ & Hloc & _). simpl. by rewrite Hloc.
  - intros env subs st Hr.
    destruct (localTerrainCallback_outcome env subs st)
      as (st' & pubs & -> & _ & Hg & Hc & _). simpl.
    destruct (ensure_started_idle env st Hr) as (Eg & Ec & _). congruence.
Qed.

(** X7.  A timer callback of a node with a camera leaves the node marked
    ready whatever [startTerrainMapping] returned.  When the node was not
    ready and the terrain mapping cannot be enabled, a local callback
    marks it ready all the same, with the parameters as they were read
    and the global maps it held before, which the start has not set up. *)
Theorem timer_callbacks_mark_the_node_ready :
  (forall env subs (st : State),
      zed_present env = true ->
      exists st' pubs,
        localTerrainCallback depackColor3f env subs st = Some (st', pubs)
        /\ mMappingReady st' = true
        /\ (mMappingReady st = false -> enableTerrainMapping env = false ->
            glob st' = glob st /\ cfg st' = params env (cfg st)))
  /\ (forall env imgs subs (st : State),
      zed_present env = true ->
      global_wf (glob st) ->
      exists st' pubs,
        globalTerrainCallback depackColor3f env imgs subs st = Some (st', pubs)
        /\ mMappingReady st' = true).
Proof.
  split.
  - intros env subs st Hz.
    destruct (localTerrainCallback_outcome env subs st)
      as (st' & pubs & Hcb & Hr & Hg & Hc & _).
    exists st', pubs. split; [assumption|]. split; [assumption|].
    intros Hn He. destruct (ensure_started_not_enabled env st Hn Hz He) as [Eg Ec].
    split; congruence.
  - intros env imgs subs st _ Hwf.
    destruct (globalTerrainCallback_outcome env imgs subs st Hwf)
      as (st' & pubs & Hcb & Hr & _).
    eauto.
Qed.

(** ** Cycles without input *)

(** X8.  A local cycle that gets no terrain, no camera transform or no
    chunk around the camera publishes nothing and leaves the local maps
    as they were.  A global cycle that selects no chunk publishes nothing
    either, not even the images, and leaves the global maps as they were;
    but the baseline timestamp has moved to the snapshot's and the
    whole-update flag is cleared. *)
Theorem cycles_without_chunks_publish_nothing :
  (forall env subs (st : State),
      retrieveTerrainAsync env = None \/ lookupTransform env = None
      \/ (forall terrain camX camY,
            retrieveTerrainAsync env = Some terrain ->
            lookupTransform env = Some (camX, camY) ->
            getSurroundingValidChunks terrain (fneg camY) camX
              (mMapLocalRadius (cfg (ensure_started env st))) = []) ->
      exists st',
        localTerrainCallback depackColor3f env subs st = Some (st', [])
        /\ loc st' = loc st)
  /\ (forall env imgs subs (st : State) terrain,
      mMappingReady st = true ->
      retrieveTerrainAsync env = Some terrain ->
      0 < u32 (heightImgSub imgs + colorImgSub imgs + costImgSub imgs + heightSub subs
               + costSub subs + cloudSub subs + mrkSub subs) ->
      fst (select_chunks terrain (glob st)) = [] ->
      exists st',
        globalTerrainCallback depackColor3f env imgs subs st = Some (st', [])
        /\ mGlobHeightMapMsg (glob st') = mGlobHeightMapMsg (glob st)
        /\ mGlobCostMapMsg (glob st') = mGlobCostMapMsg (glob st)
        /\ mGlobalHeightPointcloudMsg (glob st') = mGlobalHeightPointcloudMsg (glob st)
        /\ mLastGlobMapTimestamp (glob st') = getReferenceTS terrain
        /\ mGlobMapWholeUpdate (glob st') = false).
Proof.
  split.
  - intros env subs st Hno.
    destruct (localTerrainCallback_outcome env subs st)
      as (st' & pubs & Hcb & _ & _ & Hcfg & Hout).
    destruct Hout as [[-> Hloc]|(terrain & camX & camY & minX & minY & maxX & maxY & chunks
                                 & Hret & Htf & Hch & Hne & _)]; [by exists st'|].
    exfalso. destruct Hno as [Hn|[Hn|Hn]]; [congruence | congruence |].
    apply Hne. rewrite Hch, Hcfg. by apply Hn.
  - intros env imgs subs st terrain Hr Hret Hrun Hsel.
    unfold globalTerrainCallback, ensure_started. rewrite Hr. cbn [negb].
    apply Z.ltb_lt in Hrun. rewrite Hrun, Hret.
    change (glob (set_terrain terrain (set_ready true st))) with (glob st).
    rewrite select_chunks_spec in *. cbn [fst] in Hsel. rewrite Hsel. simpl.
    eexists. split; [reflexivity|]. simpl. auto 10.
Qed.

(** ** Parameters the global map does not read *)



(** ** New subscribers and the services *)

(** X10.  When a global map topic gets its first subscriber (one of the
    four counts is 1), the next global cycle selects every valid chunk,
    not only the updated ones; the maps themselves are not touched.  With
    no count at 1 the callback changes nothing. *)
Theorem first_subscriber_forces_a_whole_update :
  (forall subs (st : State (F := F)) (terrain : Terrain (F := F)),
      heightSub subs = 1 \/ costSub subs = 1 \/ cloudSub subs = 1 \/ mrkSub subs = 1 ->
      let st' := globalMapSubscribeCallback subs st in
      fst (select_chunks terrain (glob st')) = getAllValidChunk terrain
      /\ mGlobHeightMapMsg (glob st') = mGlobHeightMapMsg (glob st)
      /\ mGlobCostMapMsg (glob st') = mGlobCostMapMsg (glob st)
      /\ mGlobalHeightPointcloudMsg (glob st') = mGlobalHeightPointcloudMsg (glob st)
      /\ mLastGlobMapTimestamp (glob st') = mLastGlobMapTimestamp (glob st)
      /\ loc st' = loc st /\ cfg st' = cfg st /\ mMappingReady st' = mMappingReady st)
  /\ (forall subs (st : State (F := F)),
      heightSub subs <> 1 -> costSub subs <> 1 -> cloudSub subs <> 1 -> mrkSub subs <> 1 ->
      globalMapSubscribeCallback subs st = st).
Proof.
  split.
  - intros subs st terrain Hone. cbv zeta. unfold globalMapSubscribeCallback.
    assert ((heightSub subs =? 1) || (costSub subs =? 1) || (cloudSub subs =? 1)
            || (mrkSub subs =? 1) = true) as ->.
    { rewrite !orb_true_iff, !Z.eqb_eq. tauto. }
    simpl. auto 10.
  - intros subs st H1 H2 H3 H4. unfold globalMapSubscribeCallback.
    apply Z.eqb_neq in H1, H2, H3, H4. by rewrite H1, H2, H3, H4.
Qed.

(** X11.  Every map service the node advertises fails while mapping is
    not ready, leaving the response as the caller passed it, and
    succeeds once it is ready, with one of the four grids the node
    holds; a name the node does not advertise has no handler. *)
Theorem map_services_need_a_ready_node :
  (forall name (st : State (F := F)) (res : OccupancyGrid),
      name ∈ ["static_map"; "local_height_map"; "local_cost_map"; "global_height_map";
              "global_cost_map"]%string ->
      exists r, call_service name st res = Some r
        /\ (mMappingReady st = false -> r = (false, res))
        /\ (mMappingReady st = true ->
            fst r = true
            /\ snd r ∈ [mGlobHeightMapMsg (glob st); mGlobCostMapMsg (glob st);
                        mLocHeightMapMsg (loc st); mLocCostMapMsg (loc st)]))
  /\ (forall name (st : State (F := F)) (res : OccupancyGrid),
      name ∉ ["static_map"; "local_height_map"; "local_cost_map"; "global_height_map";
              "global_cost_map"]%string ->
      call_service name st res = None).
Proof.
  split.
  - intros name st res Hin.
    repeat (apply elem_of_cons in Hin as [->|Hin]); [| | | | |by apply elem_of_nil in Hin];
      (eexists; split; [reflexivity|]);
      unfold on_get_static_map, on_get_loc_height_map, on_get_glob_height_map,
        on_get_glob_cost_map;
      (split; intros ->; cbn [negb fst snd]; [reflexivity|]);
      (split; [reflexivity|]); try destruct (mDefaultMap (cfg st) =? 0);
      cbn [snd]; rewrite !elem_of_cons; auto 10.
  - intros name st res Hout. unfold call_service. simpl.
    repeat match goal with
           | |- context [String.eqb name ?n] =>
               destruct (String.eqb_spec name n) as [->|_];
                 [exfalso; apply Hout; rewrite !elem_of_cons; auto 10|]
           end.
    reflexivity.
Qed.

End NodeFacts.

(** ** Exact arithmetic: raster indices, windows and cube columns *)

Lemma i32_small z : - 2 ^ 31 <= z < 2 ^ 31 -> i32 z = z.
Proof. intros. unfold i32. rewrite Z.mod_small; lia. Qed.

Lemma Qround_away_comp (q q' : Q) : (q == q')%Q -> Qround_away q = Qround_away q'.
Proof.
  intros E. unfold Qround_away. rewrite <- (Qleb_comp 0%Q 0%Q (Qeq_refl 0%Q) q q' E).
  destruct (Qle_bool 0 q); [apply Qfloor_comp | apply Qceiling_comp]; by rewrite E.
Qed.

Lemma Qtrunc_comp (q q' : Q) : (q == q')%Q -> Qtrunc q = Qtrunc q'.
Proof.
  intros E. unfold Qtrunc. rewrite <- (Qleb_comp 0%Q 0%Q (Qeq_refl 0%Q) q q' E).
  destruct (Qle_bool 0 q); [by apply Qfloor_comp | by apply Qceiling_comp].
Qed.

(** An integer that is at most [x + 1/2] is at most [ceil x]. *)
Lemma Qfloor_half_le_ceiling (x : Q) : Qfloor (x + (1 # 2)) <= Qceiling x.
Proof.
  pose proof (Qfloor_le (x + (1 # 2))) as Hf. pose proof (Qle_ceiling x) as Hc.
  assert (Hlt : (inject_Z (Qfloor (x + (1 # 2))) < inject_Z (Qceiling x + 1))%Q).
  { rewrite inject_Z_plus. change (inject_Z 1) with 1%Q. lra. }
  rewrite <- Zlt_Qlt in Hlt. lia.
Qed.

(** [round] of a quotient in [0, s] lies in [0, ceil s]. *)
Lemma Qround_away_le_ceiling (q s : Q) :
  (0 <= q <= s)%Q -> 0 <= Qround_away q <= Qceiling s.
Proof.
  intros [H0 Hs]. unfold Qround_away. apply Qle_bool_iff in H0 as Hb. rewrite Hb. split.
  - assert (Hq : (0 <= q + (1 # 2))%Q) by lra.
    apply Qfloor_resp_le in Hq. exact Hq.
  - pose proof (Qfloor_half_le_ceiling q). pose proof (Qceiling_resp_le q s Hs). lia.
Qed.

Lemma Qeq_bool_pos (r : Q) : (0 < r)%Q -> Qeq_bool r 0 = false.
Proof.
  intros Hr. apply not_true_iff_false. intros E. apply Qeq_bool_iff in E. rewrite E in Hr.
  by apply Qlt_irrefl in Hr.
Qed.

Lemma Qdiv_le_compat_r (a b r : Q) : (0 < r)%Q -> (a <= b)%Q -> (a / r <= b / r)%Q.
Proof.
  intros Hr Hab. unfold Qdiv. apply Qmult_le_compat_r; [assumption|].
  apply Qlt_le_weak, Qinv_lt_0_compat. exact Hr.
Qed.

Lemma Qdiv_nonneg (a r : Q) : (0 < r)%Q -> (0 <= a)%Q -> (0 <= a / r)%Q.
Proof.
  intros Hr Ha. unfold Qdiv. apply Qmult_le_0_compat; [assumption|].
  apply Qlt_le_weak, Qinv_lt_0_compat. exact Hr.
Qed.

Section IndexFacts.

Import Exact.

(** The column or row of a coordinate: [static_cast<uint32_t>(round(a / r))]. *)
Lemma to_uint32_round_div (a r : Q) :
  (0 < r)%Q -> to_uint32 (fround (fdiv (Fin a) (Fin r))) = u32 (Qround_away (a / r)).
Proof.
  intros Hr.
  change (to_uint32 (fround (fdiv (Fin a) (Fin r))))
    with (u32 (to_Z (lift1 (fun x => inject_Z (Qround_away x)) (div (Fin a) (Fin r))))).
  unfold div. rewrite (Qeq_bool_pos r Hr). cbn [lift1 to_Z]. by rewrite Qtrunc_inject_Z.
Qed.

(** The raster index of a point whose column [U] and row [V] are not
    negative: the bounds test lets [U = width] and [V = height] pass. *)
Lemma global_index_exact (cf : Config) (i : MapMetaData) (r ox oy xm ym : Q) :
  mTerrainMapRes cf = Fin r -> (0 < r)%Q ->
  origin_x i = Fin ox -> origin_y i = Fin oy ->
  let U := Qround_away ((ym - ox) / r) in
  let V := Qround_away ((- xm - oy) / r) in
  0 <= U <= width i -> 0 <= V <= height i ->
  U + V * width i < width i * height i -> width i * height i < 2 ^ 31 ->
  global_index cf i (Fin xm) (Fin ym) = Some (U + V * width i).
Proof.
  intros Hres Hr Hox Hoy U V HU HV Hidx Hfit.
  unfold global_index. rewrite Hres, Hox, Hoy.
  change (fsub (Fin ym) (Fin ox)) with (Fin (ym - ox)).
  change (fsub (fneg (Fin xm)) (Fin oy)) with (Fin (- xm - oy)).
  rewrite !(to_uint32_round_div _ r Hr). fold U V. cbv zeta.
  assert (HUV : 0 <= V * width i) by nia.
  assert (Hpos : 0 < width i * height i) by lia.
  assert (Hw : 1 <= width i) by nia.
  assert (Hh : 1 <= height i) by nia.
  assert (HU31 : U < 2 ^ 31) by nia.
  assert (HV31 : V < 2 ^ 31) by nia.
  rewrite !(u32_small U), !(u32_small V) by lia.
  rewrite !(i32_small U), !(i32_small V) by lia.
  rewrite !(u32_small U), !(u32_small V) by lia.
  rewrite (u32_small (V * width i)) by lia.
  rewrite (u32_small (U + V * width i)) by lia.
  rewrite (i32_small (U + V * width i)) by lia.
  rewrite (u32_small (U + V * width i)) by lia.
  rewrite (u32_small (width i * height i)) by lia.
  destruct (Z.ltb_spec U 0); [lia|]. destruct (Z.ltb_spec V 0); [lia|].
  destruct (Z.ltb_spec (width i) U); [lia|]. destruct (Z.ltb_spec (height i) V); [lia|].
  destruct (Z.ltb_spec (U + V * width i) 0); [lia|].
  destruct (Z.leb_spec (width i * height i) (U + V * width i)); [lia|].
  reflexivity.
Qed.

Lemma local_index_exact (cf : Config) (r ox oy xm ym : Q) (cols tot : Z) :
  mTerrainMapRes cf = Fin r -> (0 < r)%Q ->
  let U := Qround_away ((ym - ox) / r) in
  let V := Qround_away ((- xm - oy) / r) in
  0 <= U -> 0 <= V -> 0 <= cols ->
  U + V * cols < tot -> tot <= 2 ^ 32 -> U < 2 ^ 32 -> V < 2 ^ 32 ->
  local_index cf (Fin ox) (Fin oy) cols tot (Fin xm) (Fin ym) = Some (U + V * cols).
Proof.
  intros Hres Hr U V HU HV Hc Hidx Htot HU32 HV32.
  unfold local_index. rewrite Hres.
  change (fsub (Fin ym) (Fin ox)) with (Fin (ym - ox)).
  change (fsub (fneg (Fin xm)) (Fin oy)) with (Fin (- xm - oy)).
  rewrite !(to_uint32_round_div _ r Hr). fold U V. cbv zeta.
  assert (HUV : 0 <= V * cols) by nia.
  rewrite !(u32_small U), !(u32_small V) by lia.
  rewrite (u32_small (U + V * cols)) by lia.
  destruct (Z.leb_spec tot (U + V * cols)); [lia | reflexivity].
Qed.

(** X12.  After a resize around the limits [(a, b, c, d)], every point
    within those limits has a cell of the new raster: its column and row
    are inside the raster and [global_index] gives
    [column + row * width]. *)
Theorem resized_global_raster_holds_every_point (cf : Config) (terrain : Terrain) gm
    (r a b c d xm ym : Q) :
  mTerrainMapRes cf = Fin r -> (0 < r)%Q ->
  span_fits r (Fin a) (Fin c) -> span_fits r (Fin b) (Fin d) ->
  (Qceiling ((c - a) / r) + 1) * (Qceiling ((d - b) / r) + 1) < 2 ^ 31 ->
  (a <= xm <= c)%Q -> (b <= ym <= d)%Q ->
  let i' := info (mGlobHeightMapMsg
                    (snd (global_resize cf terrain (Fin a) (Fin b) (Fin c) (Fin d) gm))) in
  let U := Qround_away ((ym - b) / r) in
  let V := Qround_away ((c - xm) / r) in
  0 <= U < width i' /\ 0 <= V < height i'
  /\ global_index cf i' (Fin xm) (Fin ym) = Some (U + V * width i').
Proof.
  intros Hres Hr Hx Hy Hfit [Hxa Hxc] [Hyb Hyd] i' U V.
  destruct (global_resize_result cf terrain (Fin a) (Fin b) (Fin c) (Fin d) gm)
    as (_ & _ & _ & _ & Hinfo & _).
  subst i'. rewrite Hinfo. cbn [width height].
  unfold span_fits in Hx, Hy. cbn [val] in Hx, Hy.
  change (fsub (Fin d) (Fin b)) with (Fin (d - b)).
  change (fsub (Fin c) (Fin a)) with (Fin (c - a)).
  rewrite (cells_of_span_exact cf r (d - b) Hres Hr Hy).
  rewrite (cells_of_span_exact cf r (c - a) Hres Hr Hx).
  assert (HU : 0 <= U <= Qceiling ((d - b) / r)).
  { apply Qround_away_le_ceiling. split.
    - apply Qdiv_nonneg; [assumption | lra].
    - apply Qdiv_le_compat_r; [assumption | lra]. }
  assert (HV : 0 <= V <= Qceiling ((c - a) / r)).
  { apply Qround_away_le_ceiling. split.
    - apply Qdiv_nonneg; [assumption | lra].
    - apply Qdiv_le_compat_r; [assumption | lra]. }
  split; [lia|]. split; [lia|].
  assert (EV : V = Qround_away ((- xm - - c) / r)).
  { apply Qround_away_comp. apply Qmult_comp; [ring | reflexivity]. }
  set (i0 := {| map_load_time := 0; resolution := mTerrainMapRes cf;
                width := Qceiling ((d - b) / r) + 1; height := Qceiling ((c - a) / r) + 1;
                origin_x := Fin b; origin_y := fneg (Fin c) |}).
  pose proof (global_index_exact cf i0 r b (- c) xm ym Hres Hr eq_refl eq_refl) as Hgi.
  cbv zeta in Hgi. fold U in Hgi. rewrite <- EV in Hgi. cbn [width height i0] in Hgi.
  apply Hgi; nia.
Qed.

(** X13.  The raster index of a point whose column [U] and row [V] are not
    negative is [U + V * width] whenever that is below the cell count; the
    range test of [publishGlobalMaps] compares with [>], so the column
    [U = width], one past the right edge, is let through and lands on the
    first cell of the next row. *)
Theorem global_index_lets_the_column_past_the_edge_through (cf : Config) (i : MapMetaData)
    (r ox oy xm ym : Q) :
  mTerrainMapRes cf = Fin r -> (0 < r)%Q ->
  origin_x i = Fin ox -> origin_y i = Fin oy ->
  width i * height i < 2 ^ 31 ->
  let U := Qround_away ((ym - ox) / r) in
  let V := Qround_away ((- xm - oy) / r) in
  0 <= U <= width i -> 0 <= V <= height i ->
  U + V * width i < width i * height i ->
  global_index cf i (Fin xm) (Fin ym) = Some (U + V * width i)
  /\ (U = width i -> global_index cf i (Fin xm) (Fin ym) = Some (0 + (V + 1) * width i)).
Proof.
  intros Hres Hr Hox Hoy Hfit U V HU HV Hidx.
  pose proof (global_index_exact cf i r ox oy xm ym Hres Hr Hox Hoy HU HV Hidx Hfit) as Hgi.
  split; [exact Hgi|]. intros E. rewrite Hgi. f_equal. fold U V. lia.
Qed.

(** X14.  The window of the local map lies within the local radius of
    the camera on both axes, whatever the limits of the chunks are; when
    the limits overlap that square, the local raster has at most
    [ceil(2 R / resolution) + 1] columns and as many rows. *)
Theorem local_window_stays_within_the_radius (cf : Config) (camX camY R : Q)
    (minX minY maxX maxY : real) :
  mMapLocalRadius cf = Fin R ->
  let w := local_window cf (Fin camX) (Fin camY) minX minY maxX maxY in
  (leq (Fin (camX - R)) (mapMinX w) /\ leq (mapMaxX w) (Fin (camX + R))
   /\ leq (Fin (camY - R)) (mapMinY w) /\ leq (mapMaxY w) (Fin (camY + R)))
  /\ (forall r : Q,
        mTerrainMapRes cf = Fin r -> (0 < r)%Q ->
        0 <= Qceiling ((2 * R) / r) < 2 ^ 32 - 1 ->
        (leq (mapMinX w) (mapMaxX w) -> mapCols w <= Qceiling ((2 * R) / r) + 1)
        /\ (leq (mapMinY w) (mapMaxY w) -> mapRows w <= Qceiling ((2 * R) / r) + 1)).
Proof.
  intros HR w.
  assert (Hbox : leq (Fin (camX - R)) (mapMinX w) /\ leq (mapMaxX w) (Fin (camX + R))
                 /\ leq (Fin (camY - R)) (mapMinY w) /\ leq (mapMaxY w) (Fin (camY + R))).
  { subst w. unfold local_window. rewrite HR. cbn [mapMinX mapMaxX mapMinY mapMaxY].
    change (fsub (Fin camX) (Fin R)) with (Fin (camX - R)).
    change (fadd (Fin camX) (Fin R)) with (Fin (camX + R)).
    change (fsub (Fin camY) (Fin R)) with (Fin (camY - R)).
    change (fadd (Fin camY) (Fin R)) with (Fin (camY + R)).
    unfold fgt. change (@flt real ops) with lt.
    repeat split;
      match goal with
      | |- context [if lt ?a ?b then _ else _] =>
          destruct (lt a b) eqn:E; [|simpl; try exact I; apply Qle_refl]
      end;
      destruct minX as [x0|], minY as [y0|], maxX as [x1|], maxY as [y1|];
      try discriminate; simpl in *; try exact I;
      apply negb_true_iff in E; apply not_true_iff_false in E;
      rewrite Qle_bool_iff in E; apply Qnot_le_lt in E; by apply Qlt_le_weak. }
  split; [exact Hbox|].
  intros r Hres Hr Hfit. destruct Hbox as (Hx0 & Hx1 & Hy0 & Hy1).
  assert (Hspan : forall lo hi c : real,
             leq (Fin (val c - R)) lo -> leq hi (Fin (val c + R)) -> leq lo hi ->
             cells_of_span cf (fabs (fsub hi lo)) <= Qceiling ((2 * R) / r) + 1).
  { intros lo hi c (_ & Flo & Hlo) (Fhi & _ & Hhi) (_ & _ & Hle).
    destruct lo as [l|], hi as [h|]; try contradiction. simpl in Hlo, Hhi, Hle.
    change (fabs (fsub (Fin h) (Fin l))) with (Fin (Qabs (h - l))).
    assert (Habs : (Qabs (h - l) == h - l)%Q) by (apply Qabs_pos; lra).
    assert (Hq : (0 <= Qabs (h - l) / r <= (2 * R) / r)%Q).
    { split; [apply Qdiv_nonneg | apply Qdiv_le_compat_r]; try assumption; lra. }
    destruct Hq as [Hq0 Hq1].
    pose proof (Qceiling_resp_le _ _ Hq0) as Hc0. pose proof (Qceiling_resp_le _ _ Hq1) as Hc1.
    change (Qceiling 0) with 0 in Hc0.
    rewrite (cells_of_span_exact cf r (Qabs (h - l)) Hres Hr) by lia. lia. }
  split; intros Hle.
  - exact (Hspan (mapMinX w) (mapMaxX w) (Fin camX) Hx0 Hx1 Hle).
  - exact (Hspan (mapMinY w) (mapMaxY w) (Fin camY) Hy0 Hy1 Hle).
Qed.

(** X15.  Every point of the local window has a cell of the local
    raster: its column and row are inside the raster, and [local_index]
    gives [column + row * columns]. *)
Theorem local_raster_holds_every_point_of_the_window (cf : Config)
    (camX camY minX minY maxX maxY : real) (r x0 x1 y0 y1 xm ym : Q) :
  mTerrainMapRes cf = Fin r -> (0 < r)%Q ->
  let w := local_window cf camX camY minX minY maxX maxY in
  mapMinX w = Fin x0 -> mapMaxX w = Fin x1 -> mapMinY w = Fin y0 -> mapMaxY w = Fin y1 ->
  (Qceiling ((x1 - x0) / r) + 1) * (Qceiling ((y1 - y0) / r) + 1) < 2 ^ 32 ->
  (x0 <= ym <= x1)%Q -> (y0 <= - xm <= y1)%Q ->
  let U := Qround_away ((ym - x0) / r) in
  let V := Qround_away ((- xm - y0) / r) in
  0 <= U < mapCols w /\ 0 <= V < mapRows w
  /\ local_index cf (mapMinX w) (mapMinY w) (mapCols w) (u32 (mapRows w * mapCols w))
       (Fin xm) (Fin ym) = Some (U + V * mapCols w).
Proof.
  intros Hres Hr w Ex0 Ex1 Ey0 Ey1 Hfit [Hxa Hxb] [Hya Hyb] U V.
  assert (Hc0 : 0 <= Qceiling ((x1 - x0) / r)).
  { assert (Hq : (0 <= (x1 - x0) / r)%Q) by (apply Qdiv_nonneg; [assumption | lra]).
    apply Qceiling_resp_le in Hq. exact Hq. }
  assert (Hr0 : 0 <= Qceiling ((y1 - y0) / r)).
  { assert (Hq : (0 <= (y1 - y0) / r)%Q) by (apply Qdiv_nonneg; [assumption | lra]).
    apply Qceiling_resp_le in Hq. exact Hq. }
  assert (Hcols : mapCols w = Qceiling ((x1 - x0) / r) + 1).
  { change (mapCols w) with (cells_of_span cf (fabs (fsub (mapMaxX w) (mapMinX w)))).
    rewrite Ex0, Ex1. change (fabs (fsub (Fin x1) (Fin x0))) with (Fin (Qabs (x1 - x0))).
    assert (Habs : (Qabs (x1 - x0) / r == (x1 - x0) / r)%Q).
    { apply Qmult_comp; [apply Qabs_pos; lra | reflexivity]. }
    rewrite (cells_of_span_exact cf r (Qabs (x1 - x0)) Hres Hr);
      rewrite (Qceiling_comp _ _ Habs); [reflexivity|]. nia. }
  assert (Hrows : mapRows w = Qceiling ((y1 - y0) / r) + 1).
  { change (mapRows w) with (cells_of_span cf (fabs (fsub (mapMaxY w) (mapMinY w)))).
    rewrite Ey0, Ey1. change (fabs (fsub (Fin y1) (Fin y0))) with (Fin (Qabs (y1 - y0))).
    assert (Habs : (Qabs (y1 - y0) / r == (y1 - y0) / r)%Q).
    { apply Qmult_comp; [apply Qabs_pos; lra | reflexivity]. }
    rewrite (cells_of_span_exact cf r (Qabs (y1 - y0)) Hres Hr);
      rewrite (Qceiling_comp _ _ Habs); [reflexivity|]. nia. }
  assert (HU : 0 <= U <= Qceiling ((x1 - x0) / r)).
  { apply Qround_away_le_ceiling. split.
    - apply Qdiv_nonneg; [assumption | lra].
    - apply Qdiv_le_compat_r; [assumption | lra]. }
  assert (HV : 0 <= V <= Qceiling ((y1 - y0) / r)).
  { apply Qround_away_le_ceiling. split.
    - apply Qdiv_nonneg; [assumption | lra].
    - apply Qdiv_le_compat_r; [assumption | lra]. }
  split; [lia|]. split; [lia|].
  rewrite Ex0, Ey0, Hcols, Hrows.
  rewrite (u32_small ((Qceiling ((y1 - y0) / r) + 1) * (Qceiling ((x1 - x0) / r) + 1)))
    by nia.
  apply (local_index_exact cf r x0 y0 xm ym); try assumption; fold U V; nia.
Qed.

End IndexFacts.

(** [floor] and [ceil] from bounds. *)
Lemma Qfloor_bounds (x : Q) (n : Z) :
  (inject_Z n <= x)%Q -> (x < inject_Z (n + 1))%Q -> Qfloor x = n.
Proof.
  intros Hlo Hhi. pose proof (Qfloor_le x) as Hf. pose proof (Qlt_floor x) as Hl.
  assert (H1 : (inject_Z (Qfloor x) < inject_Z (n + 1))%Q) by lra.
  assert (H2 : (inject_Z n < inject_Z (Qfloor x + 1))%Q) by lra.
  rewrite <- Zlt_Qlt in H1, H2. lia.
Qed.

Lemma Qceiling_bounds (x : Q) (n : Z) :
  (inject_Z (n - 1) < x)%Q -> (x <= inject_Z n)%Q -> Qceiling x = n.
Proof.
  intros Hlo Hhi. pose proof (Qle_ceiling x) as Hc. pose proof (Qceiling_lt x) as Hl.
  assert (H1 : (inject_Z (n - 1) < inject_Z (Qceiling x))%Q) by lra.
  assert (H2 : (inject_Z (Qceiling x - 1) < inject_Z n)%Q) by lra.
  rewrite <- Zlt_Qlt in H1, H2. lia.
Qed.

(** [round] near zero and near one. *)
Lemma Qround_away_small (q : Q) : (Qabs q < 1 # 2)%Q -> Qround_away q = 0.
Proof.
  intros Hq. apply Qabs_Qlt_condition in Hq as [Hlo Hhi]. unfold Qround_away.
  destruct (Qle_bool 0 q) eqn:E.
  - apply Qle_bool_iff in E.
    apply Qfloor_bounds; [change (inject_Z 0) with 0%Q | change (inject_Z (0 + 1)) with 1%Q];
      lra.
  - apply not_true_iff_false in E. rewrite Qle_bool_iff in E. apply Qnot_le_lt in E.
    apply Qceiling_bounds;
      [change (inject_Z (0 - 1)) with (-1 # 1)%Q | change (inject_Z 0) with 0%Q]; lra.
Qed.

Lemma Qround_away_unit (q : Q) :
  (1 # 2 <= Qabs q)%Q -> (Qabs q < 3 # 2)%Q -> Z.abs (Qround_away q) = 1.
Proof.
  intros Hlo Hhi. apply Qabs_Qlt_condition in Hhi as [Hh1 Hh2]. unfold Qround_away.
  destruct (Qle_bool 0 q) eqn:E.
  - apply Qle_bool_iff in E. rewrite (Qabs_pos q E) in Hlo.
    rewrite (Qfloor_bounds (q + (1 # 2)) 1); [reflexivity | |];
      [change (inject_Z 1) with 1%Q | change (inject_Z (1 + 1)) with 2%Q]; lra.
  - apply not_true_iff_false in E. rewrite Qle_bool_iff in E. apply Qnot_le_lt in E.
    rewrite (Qabs_neg q) in Hlo by lra.
    rewrite (Qceiling_bounds (q - (1 # 2)) (-1)); [reflexivity | |];
      [change (inject_Z (-1 - 1)) with (-2 # 1)%Q | change (inject_Z (-1)) with (-1 # 1)%Q];
      lra.
Qed.

Lemma Qabs_div (h m : Q) : (0 < m)%Q -> (Qabs (h / m) == Qabs h / m)%Q.
Proof.
  intros Hm. unfold Qdiv. rewrite Qabs_Qmult.
  rewrite (Qabs_pos (/ m)); [reflexivity|]. apply Qlt_le_weak, Qinv_lt_0_compat. exact Hm.
Qed.

Lemma Qdiv_lt_compat_r (a b r : Q) : (0 < r)%Q -> (a < b)%Q -> (a / r < b / r)%Q.
Proof.
  intros Hr Hab. unfold Qdiv. apply Qmult_lt_compat_r; [|assumption].
  apply Qinv_lt_0_compat. exact Hr.
Qed.

Section ValueFacts.

Import Exact.

(** The normalized height, computed. *)
Lemma height_norm_exact (cf : Config) (m h : Q) :
  mMapMaxHeight cf = Fin m -> (0 < m)%Q ->
  height_norm cf (Fin h) = i8 (100 * Z.abs (Qround_away (h / m))).
Proof.
  intros Hm Hpos. unfold height_norm. rewrite Hm.
  change (to_int8 (fabs (fmul (fround (fdiv (Fin h) (Fin m))) (of_int 100))))
    with (i8 (to_Z (lift1 Qabs (lift2 Qmult
                 (lift1 (fun x => inject_Z (Qround_away x)) (div (Fin h) (Fin m)))
                 (Fin (inject_Z 100)))))).
  unfold div. rewrite (Qeq_bool_pos m Hpos). cbn [lift1 lift2 to_Z].
  change (Qabs (inject_Z (Qround_away (h / m)) * inject_Z 100))
    with (inject_Z (Z.abs (Qround_away (h / m) * 100))).
  rewrite Qtrunc_inject_Z, i8_idem. f_equal. lia.
Qed.

(** X16.  The height raster has few levels: the quotient
    [elevation / maxHeight] is rounded to an integer before it is scaled, so
    the normalized height is [100 * |round(elevation / maxHeight)|] as an
    [int8_t]; it is 0 for every elevation below half the maximum height
    and 100 from there up to one and a half times the maximum. *)
Theorem normalized_height_moves_in_steps_of_100 (cf : Config) (m h : Q) :
  mMapMaxHeight cf = Fin m -> (0 < m)%Q ->
  height_norm cf (Fin h) = i8 (100 * Z.abs (Qround_away (h / m)))
  /\ ((Qabs h < m / 2)%Q -> height_norm cf (Fin h) = 0)
  /\ ((m / 2 <= Qabs h)%Q -> (Qabs h < 3 * m / 2)%Q -> height_norm cf (Fin h) = 100).
Proof.
  intros Hm Hpos. rewrite (height_norm_exact cf m h Hm Hpos).
  assert (Hhalf : (m / 2 / m == 1 # 2)%Q) by (field; lra).
  assert (Hthree : (3 * m / 2 / m == 3 # 2)%Q) by (field; lra).
  split; [reflexivity|]. split.
  - intros Hh. rewrite Qround_away_small; [reflexivity|].
    rewrite (Qabs_div h m Hpos), <- Hhalf. by apply Qdiv_lt_compat_r.
  - intros Hlo Hhi. rewrite Qround_away_unit; [reflexivity| |].
    + rewrite (Qabs_div h m Hpos), <- Hhalf. by apply Qdiv_le_compat_r.
    + rewrite (Qabs_div h m Hpos), <- Hthree. by apply Qdiv_lt_compat_r.
Qed.

(** X17.  The column of cubes of a cell with elevation [z], at height
    resolution [rz]: [ceil(|z| / rz)] cubes, all at the cell's position,
    the [k]-th at height [k * rz] on the side of the elevation's sign; the
    last one reaches the elevation and passes it by less than one cube. *)
Theorem cube_column_reaches_the_elevation (cf : Config) (rz z : Q) (x y : real) :
  mMapHeightResol cf = Fin rz -> (0 < rz)%Q ->
  let n := Qceiling (Qabs z / rz) in
  n < 2 ^ 31 ->
  let col := cube_column cf x y (Fin z)
               (i32 (to_int (fceil (fdiv (fabs (Fin z)) (mMapHeightResol cf))))) in
  length col = Z.to_nat n
  /\ (forall k : nat, (k < Z.to_nat n)%nat ->
        exists pz, col !! k = Some (x, y, Fin pz)
          /\ (pz == (if Qle_bool 0 z then 1 else -1) * (inject_Z (Z.of_nat (S k)) * rz))%Q)
  /\ (Qabs z <= inject_Z n * rz)%Q /\ (inject_Z n * rz < Qabs z + rz)%Q.
Proof.
  intros Hrz Hpos n Hfit col.
  assert (Hn0 : 0 <= n).
  { assert (Hq : (0 <= Qabs z / rz)%Q) by (apply Qdiv_nonneg; [assumption | apply Qabs_nonneg]).
    apply Qceiling_resp_le in Hq. exact Hq. }
  assert (Hcount : i32 (to_int (fceil (fdiv (fabs (Fin z)) (mMapHeightResol cf)))) = n).
  { rewrite Hrz.
    change (to_int (fceil (fdiv (fabs (Fin z)) (Fin rz))))
      with (i32 (to_Z (lift1 (fun x => inject_Z (Qceiling x)) (div (Fin (Qabs z)) (Fin rz))))).
    unfold div. rewrite (Qeq_bool_pos rz Hpos). cbn [lift1 to_Z].
    rewrite Qtrunc_inject_Z. fold n. rewrite !(i32_small n) by lia. reflexivity. }
  subst col. rewrite Hcount. unfold cube_column. rewrite Hrz.
  split; [by rewrite length_map, length_seq|]. split.
  - intros k Hk. rewrite list_lookup_fmap, lookup_seq_lt by assumption. cbn [fmap option_fmap option_map].
    change (@flt real ops (Fin z) (of_int 0)) with (negb (Qle_bool 0 z)).
    destruct (Qle_bool 0 z); cbn [negb].
    + eexists. split; [reflexivity|]. change (1 + k)%nat with (S k). ring.
    + eexists. split; [reflexivity|]. change (1 + k)%nat with (S k).
      change (inject_Z 1) with 1%Q. ring.
  - pose proof (Qle_ceiling (Qabs z / rz)) as Hc. pose proof (Qceiling_lt (Qabs z / rz)) as Hl.
    fold n in Hc, Hl.
    assert (Hz : (Qabs z == Qabs z / rz * rz)%Q) by (field; lra).
    assert (H1 : (Qabs z / rz * rz <= inject_Z n * rz)%Q).
    { apply Qmult_le_compat_r; [assumption | by apply Qlt_le_weak]. }
    assert (H2 : (inject_Z (n - 1) * rz < Qabs z / rz * rz)%Q).
    { apply Qmult_lt_compat_r; assumption. }
    assert (H3 : (inject_Z (n - 1) * rz == inject_Z n * rz - rz)%Q).
    { replace (n - 1) with (n + -1) by lia. rewrite inject_Z_plus.
      change (inject_Z (-1)) with (-1 # 1)%Q. ring. }
    rewrite H3 in H2. rewrite <- Hz in H1, H2.
    set (t := (inject_Z n * rz)%Q) in *. clearbody t. split; lra.
Qed.

End ValueFacts.

(** ** The limits of the chunks around the camera *)

Section LimitsFacts.

Context {F : Type} `{FloatOps F}.

(** The local and the global callback run the same limits loop; the local
    one starts from the empty box and keeps no flag. *)
Lemma local_limits_as_global (terrain : Terrain) (chunks : list HashKey) :
  local_limits terrain chunks
  = fst (global_limits terrain chunks (FLT_MAX, FLT_MAX, fneg FLT_MAX, fneg FLT_MAX)).
Proof.
  unfold local_limits, global_limits.
  generalize (FLT_MAX, FLT_MAX, fneg FLT_MAX, fneg FLT_MAX) false.
  induction chunks as [|k l IH]; intros acc r; cbn [fold_left]; [reflexivity|].
  destruct acc as [[[a b] c] d].
  rewrite (IH _ (snd (global_limits_step terrain (a, b, c, d, r) k))). do 2 f_equal.
  unfold global_limits_step.
  destruct (flt _ a), (flt _ b), (fgt _ c), (fgt _ d); reflexivity.
Qed.

(** Each limit is the bound the loop started from or a coordinate of a
    chunk's box. *)
Lemma global_limits_step_attained (terrain : Terrain) (a b c d : F) r key :
  let dim := getDimension (getChunk terrain key) in
  let res := fst (global_limits_step terrain (a, b, c, d, r) key) in
  (fst (fst (fst res)) = a \/ fst (fst (fst res)) = getXmin dim)
  /\ (snd (fst (fst res)) = b \/ snd (fst (fst res)) = getYmin dim)
  /\ (snd (fst res) = c \/ snd (fst res) = getXmax dim)
  /\ (snd res = d \/ snd res = getYmax dim).
Proof.
  unfold global_limits_step.
  destruct (flt _ a), (flt _ b), (fgt _ c), (fgt _ d); simpl; auto.
Qed.

Lemma global_limits_fold_attained (terrain : Terrain) chunks (a b c d : F) r :
  let res := fst (fold_left (global_limits_step terrain) chunks (a, b, c, d, r)) in
  (fst (fst (fst res)) = a
   \/ exists k, k ∈ chunks /\ fst (fst (fst res)) = getXmin (getDimension (getChunk terrain k)))
  /\ (snd (fst (fst res)) = b
      \/ exists k, k ∈ chunks
           /\ snd (fst (fst res)) = getYmin (getDimension (getChunk terrain k)))
  /\ (snd (fst res) = c
      \/ exists k, k ∈ chunks /\ snd (fst res) = getXmax (getDimension (getChunk terrain k)))
  /\ (snd res = d
      \/ exists k, k ∈ chunks /\ snd res = getYmax (getDimension (getChunk terrain k))).
Proof.
  revert a b c d r. induction chunks as [|k l IH]; intros a b c d r; cbn [fold_left].
  - simpl. auto.
  - pose proof (global_limits_step_attained terrain a b c d r k) as Hs.
    destruct (global_limits_step terrain (a, b, c, d, r) k) as [[[[a1 b1] c1] d1] r1].
    cbn [fst snd] in Hs. destruct Hs as (Ha & Hb & Hc & Hd).
    destruct (IH a1 b1 c1 d1 r1) as (Ia & Ib & Ic & Id).
    repeat split.
    + destruct Ia as [->|(k' & Hk' & ->)]; [|right; exists k'; split; [by right | reflexivity]].
      destruct Ha as [->| ->]; [by left | right; exists k; split; [left | reflexivity]].
    + destruct Ib as [->|(k' & Hk' & ->)]; [|right; exists k'; split; [by right | reflexivity]].
      destruct Hb as [->| ->]; [by left | right; exists k; split; [left | reflexivity]].
    + destruct Ic as [->|(k' & Hk' & ->)]; [|right; exists k'; split; [by right | reflexivity]].
      destruct Hc as [->| ->]; [by left | right; exists k; split; [left | reflexivity]].
    + destruct Id as [->|(k' & Hk' & ->)]; [|right; exists k'; split; [by right | reflexivity]].
      destruct Hd as [->| ->]; [by left | right; exists k; split; [left | reflexivity]].
Qed.

End LimitsFacts.

Section ExactLimits.

Import Exact.

(** X18.  The limits the local callback computes for a non-empty list
    of chunks are their bounding box: they contain the box of every
    chunk, and each of the four is attained by some chunk (in exact
    arithmetic, for boxes with coordinates in the range of [float]). *)
Theorem local_limits_is_the_bounding_box (terrain : Terrain) (chunks : list HashKey) :
  chunks <> [] ->
  (forall key, key ∈ chunks ->
     box_in_float_range (box_of (getDimension (getChunk terrain key)))) ->
  let lim := local_limits terrain chunks in
  box_finite lim
  /\ (forall key, key ∈ chunks -> covers lim (box_of (getDimension (getChunk terrain key))))
  /\ (exists k, k ∈ chunks
        /\ (val (fst (fst (fst lim))) == val (getXmin (getDimension (getChunk terrain k))))%Q)
  /\ (exists k, k ∈ chunks
        /\ (val (snd (fst (fst lim))) == val (getYmin (getDimension (getChunk terrain k))))%Q)
  /\ (exists k, k ∈ chunks
        /\ (val (snd (fst lim)) == val (getXmax (getDimension (getChunk terrain k))))%Q)
  /\ (exists k, k ∈ chunks
        /\ (val (snd lim) == val (getYmax (getDimension (getChunk terrain k))))%Q).
Proof.
  intros Hne Hrange lim. subst lim. rewrite local_limits_as_global. unfold global_limits.
  assert (Hfin : forall key, key ∈ chunks ->
                   box_finite (box_of (getDimension (getChunk terrain key)))).
  { intros key Hk. specialize (Hrange key Hk). unfold box_in_float_range, box_of in *.
    destruct Hrange as ([_ (? & _)] & [_ (? & _)] & [_ (? & _)] & [_ (? & _)]).
    repeat split; assumption. }
  pose proof (limits_fold_covers terrain chunks
                (FLT_MAX, FLT_MAX, fneg FLT_MAX, fneg FLT_MAX) false) as Hcov.
  pose proof (global_limits_fold_attained terrain chunks FLT_MAX FLT_MAX (fneg FLT_MAX)
                (fneg FLT_MAX) false) as Hatt.
  cbv zeta in Hcov, Hatt.
  destruct (fold_left (global_limits_step terrain) chunks
              (FLT_MAX, FLT_MAX, fneg FLT_MAX, fneg FLT_MAX, false))
    as [[[[a b] c] d] r].
  cbn [fst snd] in *.
  destruct Hcov as (Hf & _ & Hall); [by repeat split | exact Hfin |].
  split; [exact Hf|]. split; [exact Hall|].
  destruct chunks as [|k0 l]; [by destruct Hne|].
  assert (Hk0 : k0 ∈ k0 :: l) by left.
  pose proof (Hall k0 Hk0) as Hc0. pose proof (Hrange k0 Hk0) as Hr0.
  unfold covers, box_of, box_in_float_range, in_float_range in Hc0, Hr0.
  destruct Hc0 as ((_ & _ & La) & (_ & _ & Lb) & (_ & _ & Lc) & (_ & _ & Ld)).
  destruct Hr0 as ([(_ & _ & Ra1) (_ & _ & Ra2)] & [(_ & _ & Rb1) (_ & _ & Rb2)]
                   & [(_ & _ & Rc1) (_ & _ & Rc2)] & [(_ & _ & Rd1) (_ & _ & Rd2)]).
  destruct Hatt as (Ha & Hb & Hc & Hd).
  repeat split.
  - destruct Ha as [->|(k & Hk & ->)]; [|by exists k]. exists k0. split; [assumption|].
    apply Qle_antisym; assumption.
  - destruct Hb as [->|(k & Hk & ->)]; [|by exists k]. exists k0. split; [assumption|].
    apply Qle_antisym; assumption.
  - destruct Hc as [->|(k & Hk & ->)]; [|by exists k]. exists k0. split; [assumption|].
    apply Qle_antisym; assumption.
  - destruct Hd as [->|(k & Hk & ->)]; [|by exists k]. exists k0. split; [assumption|].
    apply Qle_antisym; assumption.
Qed.

End ExactLimits.

(** ** Start-up *)

Section StartFacts.

Context {F : Type} `{FloatOps F}.

(** X19.  [startTerrainMapping] succeeds exactly when the camera is there
    and the SDK enables the mapping.  Without a camera it changes
    nothing.  When enabling fails, the parameters have been read, the node
    is marked not ready and the maps are as before.  On success the node
    is ready and holds a fresh global map: well sized, every cell of both
    rasters unknown, the whole-update flag set; the local maps are as
    before. *)
Theorem startTerrainMapping_outcomes (env : Sensor) (st : State) :
  (snd (startTerrainMapping env st) = true
   <-> zed_present env = true /\ enableTerrainMapping env = true)
  /\ (zed_present env = false -> startTerrainMapping env st = (st, false))
  /\ (zed_present env = true -> enableTerrainMapping env = false ->
      let st' := fst (startTerrainMapping env st) in
      mMappingReady st' = false /\ cfg st' = params env (cfg st)
      /\ glob st' = glob st /\ loc st' = loc st)
  /\ (zed_present env = true -> enableTerrainMapping env = true ->
      let st' := fst (startTerrainMapping env st) in
      mMappingReady st' = true /\ cfg st' = params env (cfg st) /\ loc st' = loc st
      /\ global_wf (glob st')
      /\ mGlobMapWholeUpdate (glob st') = true
      /\ info (mGlobCostMapMsg (glob st')) = info (mGlobHeightMapMsg (glob st'))
      /\ (forall n v,
            data (mGlobHeightMapMsg (glob st')) !! n = Some v
            \/ data (mGlobCostMapMsg (glob st')) !! n = Some v -> v = -1)).
Proof.
  unfold startTerrainMapping.
  destruct (zed_present env), (enableTerrainMapping env); cbn [negb fst snd];
    (split; [split; [try discriminate; auto | intros [? ?]; try discriminate; auto]|]);
    (split; [try discriminate; auto|]); (split; [try discriminate; auto|]);
    try discriminate.
  intros _ _. cbv zeta. cbn [mMappingReady cfg loc glob set_ready set_glob set_cfg].
  split; [reflexivity|]. split; [reflexivity|]. split; [reflexivity|].
  split; [apply initGlobalMapMsgs_wf|]. split; [reflexivity|]. split; [reflexivity|].
  intros n v [Hn|Hn]; cbn [initGlobalMapMsgs mGlobHeightMapMsg mGlobCostMapMsg data] in Hn;
    unfold vec_fill in Hn; apply lookup_replicate in Hn; tauto.
Qed.

End StartFacts.

(** ** The rasters after a cycle *)

Section CycleFacts.

Context {F : Type} `{FloatOps F} `{FloatSqrt F}.
Variable depackColor3f : F -> F * F * F.

Lemma local_cell_holds cf camX camY mapMinX mapMinY mapCols totCell subs t
    (chunk : TerrainChunk) b i idx hv cv :
  raster_sized totCell b -> 0 <= idx ->
  (local_target cf camX camY mapMinX mapMinY mapCols totCell chunk i = Some idx ->
   height_norm cf (at_ chunk ELEVATION i) = hv
   /\ cost_norm (at_ chunk TRAVERSABILITY_COST i) = cv) ->
  exists b', local_cell depackColor3f cf camX camY mapMinX mapMinY mapCols totCell
               subs t chunk b i = Some b'
    /\ raster_sized totCell b'
    /\ (local_holds subs (Z.to_nat idx) hv cv b -> local_holds subs (Z.to_nat idx) hv cv b')
    /\ (local_target cf camX camY mapMinX mapMinY mapCols totCell chunk i = Some idx ->
        local_holds subs (Z.to_nat idx) hv cv b').
Proof.
  intros Hs Hidx Hval.
  destruct (local_cell_spec depackColor3f cf camX camY mapMinX mapMinY mapCols totCell subs t
              chunk b i Hs) as (b' & Hb' & Hs' & Hc' & Hh' & _).
  exists b'. split; [assumption|]. split; [assumption|].
  destruct (local_target cf camX camY mapMinX mapMinY mapCols totCell chunk i) as [j|] eqn:Hj.
  - pose proof (local_target_bound _ _ _ _ _ _ _ _ _ _ Hj) as Hjb. destruct Hs as [Hlh Hlc].
    destruct (Z.eq_dec j idx) as [->|Hne].
    + destruct (Hval eq_refl) as [<- <-].
      assert (local_holds subs (Z.to_nat idx) (height_norm cf (at_ chunk ELEVATION i))
                (cost_norm (at_ chunk TRAVERSABILITY_COST i)) b').
      { split; intros Hsub; apply Z.ltb_lt in Hsub; rewrite Hsub in *;
          [rewrite Hh' | rewrite Hc']; apply list_lookup_insert_eq; lia. }
      auto.
    + split; [|congruence]. intros [Hu1 Hu2]. split; intros Hsub.
      * rewrite Hh'. destruct (0 <? heightSub subs); [|by apply Hu1].
        rewrite list_lookup_insert_ne by lia. by apply Hu1.
      * rewrite Hc'. destruct (0 <? costSub subs); [|by apply Hu2].
        rewrite list_lookup_insert_ne by lia. by apply Hu2.
  - split; [|discriminate]. unfold local_holds. rewrite Hc', Hh'. auto.
Qed.

Lemma local_rasterize_holds cf terrain camX camY mapMinX mapMinY mapCols totCell subs t
    chunks b key i idx :
  raster_sized totCell b ->
  key ∈ chunks ->
  (i < getFullSizeIdx (getDimension (getChunk terrain key)))%nat ->
  local_target cf camX camY mapMinX mapMinY mapCols totCell (getChunk terrain key) i
  = Some idx ->
  (forall key' i', key' ∈ chunks ->
     (i' < getFullSizeIdx (getDimension (getChunk terrain key')))%nat ->
     local_target cf camX camY mapMinX mapMinY mapCols totCell (getChunk terrain key') i'
     = Some idx ->
     key' = key /\ i' = i) ->
  exists b', local_rasterize depackColor3f cf terrain camX camY mapMinX mapMinY mapCols
               totCell subs t chunks b = Some b'
    /\ local_holds subs (Z.to_nat idx)
         (height_norm cf (at_ (getChunk terrain key) ELEVATION i))
         (cost_norm (at_ (getChunk terrain key) TRAVERSABILITY_COST i)) b'.
Proof.
  intros Hb Hkey Hi Ht Huniq.
  pose proof (local_target_bound _ _ _ _ _ _ _ _ _ _ Ht) as Hidx.
  set (hv := height_norm cf (at_ (getChunk terrain key) ELEVATION i)).
  set (cv := cost_norm (at_ (getChunk terrain key) TRAVERSABILITY_COST i)).
  assert (Hval : forall key' i', key' ∈ chunks ->
            (i' < getFullSizeIdx (getDimension (getChunk terrain key')))%nat ->
            local_target cf camX camY mapMinX mapMinY mapCols totCell (getChunk terrain key') i'
            = Some idx ->
            height_norm cf (at_ (getChunk terrain key') ELEVATION i') = hv
            /\ cost_norm (at_ (getChunk terrain key') TRAVERSABILITY_COST i') = cv).
  { intros key' i' Hk' Hi' Ht'. destruct (Huniq key' i' Hk' Hi' Ht') as [-> ->]. by split. }
  unfold local_rasterize.
  destruct (fold_opt_establish (raster_sized totCell)
              (local_holds subs (Z.to_nat idx) hv cv)
              (local_chunk depackColor3f cf terrain camX camY mapMinX mapMinY mapCols totCell
                 subs t) chunks b) as (b' & Hb' & _ & HP); [| |assumption|by eauto].
  - intros b1 key' Hkey' Hb1. unfold local_chunk.
    apply (fold_opt_invariant
             (fun b2 => raster_sized totCell b2
                        /\ (local_holds subs (Z.to_nat idx) hv cv b1
                            -> local_holds subs (Z.to_nat idx) hv cv b2)));
      [|by split].
    intros b2 i' Hi' [Hs Hk]. apply elem_of_seq in Hi'.
    destruct (local_cell_holds cf camX camY mapMinX mapMinY mapCols totCell subs t
                (getChunk terrain key') b2 i' idx hv cv Hs) as (b3 & Hb3 & Hs3 & Hk3 & _);
      [lia | apply Hval; [assumption | lia] |].
    exists b3. split; [assumption|]. split; [assumption|]. auto.
  - exists key. split; [assumption|]. intros b1 b1' Hb1 Hrun. unfold local_chunk in Hrun.
    destruct (fold_opt_establish (raster_sized totCell)
                (local_holds subs (Z.to_nat idx) hv cv)
                (local_cell depackColor3f cf camX camY mapMinX mapMinY mapCols totCell subs t
                   (getChunk terrain key))
                (seq 0 (getFullSizeIdx (getDimension (getChunk terrain key)))) b1)
      as (b2 & Hb2 & _ & Hu); [| |assumption|congruence].
    + intros b2 i' Hi' Hs. apply elem_of_seq in Hi'.
      destruct (local_cell_holds cf camX camY mapMinX mapMinY mapCols totCell subs t
                  (getChunk terrain key) b2 i' idx hv cv Hs) as (b3 & Hb3 & Hs3 & Hk3 & _);
        [lia | apply Hval; [assumption | lia] |].
      eauto.
    + exists i. split; [apply elem_of_seq; lia|]. intros b2 b2' Hs Hstep.
      destruct (local_cell_holds cf camX camY mapMinX mapMinY mapCols totCell subs t
                  (getChunk terrain key) b2 i idx hv cv Hs) as (b3 & Hb3 & _ & _ & Hest);
        [lia | apply Hval; [assumption | lia] |].
      rewrite Hstep in Hb3. injection Hb3 as ->. by apply Hest.
Qed.

(** X20.  After a local cycle the rasters hold the samples of every
    valid cell within the radius at the cell's index: the normalized
    height when the height map has a subscriber, the normalized cost
    when the cost map has one (for a cell that shares its index with no
    other processed cell). *)
Theorem local_rasters_hold_the_cells_in_reach cf (terrain : Terrain) camX camY minX minY maxX
    maxY chunks subs t lm key i idx :
  let w := local_window cf camX camY minX minY maxX maxY in
  let tot := u32 (mapRows w * mapCols w) in
  key ∈ chunks ->
  (i < getFullSizeIdx (getDimension (getChunk terrain key)))%nat ->
  local_target cf camX camY (mapMinX w) (mapMinY w) (mapCols w) tot (getChunk terrain key) i
  = Some idx ->
  (forall key' i', key' ∈ chunks ->
     (i' < getFullSizeIdx (getDimension (getChunk terrain key')))%nat ->
     local_target cf camX camY (mapMinX w) (mapMinY w) (mapCols w) tot
       (getChunk terrain key') i' = Some idx ->
     key' = key /\ i' = i) ->
  exists lm' pubs,
    publishLocalMaps depackColor3f cf terrain camX camY minX minY maxX maxY chunks subs t lm
    = Some (lm', pubs)
    /\ (0 < heightSub subs ->
        data (mLocHeightMapMsg lm') !! Z.to_nat idx
        = Some (height_norm cf (at_ (getChunk terrain key) ELEVATION i)))
    /\ (0 < costSub subs ->
        data (mLocCostMapMsg lm') !! Z.to_nat idx
        = Some (cost_norm (at_ (getChunk terrain key) TRAVERSABILITY_COST i))).
Proof.
  intros w tot Hkey Hi Ht Huniq. unfold publishLocalMaps. fold w. fold tot.
  match goal with
  | |- context [local_rasterize _ _ _ _ _ _ _ _ _ _ _ _ ?b0] =>
      destruct (local_rasterize_holds cf terrain camX camY (mapMinX w) (mapMinY w)
                  (mapCols w) tot subs t chunks b0 key i idx)
        as (b & -> & Hh & Hc); try assumption
  end.
  - pose proof (u32_range (mapRows w * mapCols w)).
    split; cbn [b_height b_cost]; apply vec_fill_length; unfold tot; lia.
  - simpl. eexists _, _. split; [reflexivity|]. simpl. auto.
Qed.

Lemma global_cell_holds cf (i0 : MapMetaData) cloud mrk (chunk : TerrainChunk) b i idx hv cv :
  raster_sized (u32 (width i0 * height i0)) b -> 0 <= idx ->
  (global_target cf i0 chunk i = Some idx ->
   i8 (snd (fst (global_sample cf chunk i))) = hv /\ i8 (snd (global_sample cf chunk i)) = cv) ->
  exists b', global_cell cf i0 cloud mrk chunk b i = Some b'
    /\ raster_sized (u32 (width i0 * height i0)) b'
    /\ (global_holds (Z.to_nat idx) hv cv b -> global_holds (Z.to_nat idx) hv cv b')
    /\ (global_target cf i0 chunk i = Some idx -> global_holds (Z.to_nat idx) hv cv b').
Proof.
  intros Hs Hidx Hval.
  destruct (global_cell_spec cf i0 cloud mrk chunk b i Hs)
    as (b' & Hb' & Hs' & Hh' & Hc' & _).
  exists b'. split; [assumption|]. split; [assumption|].
  destruct (global_target cf i0 chunk i) as [j|] eqn:Hj.
  - assert (Hjb : 0 <= j < u32 (width i0 * height i0)).
    { unfold global_target in Hj.
      destruct (index2x_y (getDimension chunk) i) as [[xm ym]|]; [|discriminate].
      by apply global_index_bound in Hj. }
    destruct Hs as [Hlh Hlc].
    destruct (Z.eq_dec j idx) as [->|Hne].
    + destruct (Hval eq_refl) as [<- <-].
      assert (global_holds (Z.to_nat idx) (i8 (snd (fst (global_sample cf chunk i))))
                (i8 (snd (global_sample cf chunk i))) b').
      { split; [rewrite Hh' | rewrite Hc']; apply list_lookup_insert_eq; lia. }
      auto.
    + split; [|congruence]. intros [Hu1 Hu2].
      split; [rewrite Hh' | rewrite Hc']; rewrite list_lookup_insert_ne by lia; assumption.
  - split; [|discriminate]. intros [Hu1 Hu2]. split; congruence.
Qed.

Lemma global_rasterize_holds cf terrain (i0 : MapMetaData) cloud mrk chunks b key i idx :
  raster_sized (u32 (width i0 * height i0)) b ->
  key ∈ chunks ->
  (i < getFullSizeIdx (getDimension (getChunk terrain key)))%nat ->
  global_target cf i0 (getChunk terrain key) i = Some idx ->
  (forall key' i', key' ∈ chunks ->
     (i' < getFullSizeIdx (getDimension (getChunk terrain key')))%nat ->
     global_target cf i0 (getChunk terrain key') i' = Some idx ->
     key' = key /\ i' = i) ->
  exists b', global_rasterize cf terrain i0 cloud mrk chunks b = Some b'
    /\ global_holds (Z.to_nat idx)
         (i8 (snd (fst (global_sample cf (getChunk terrain key) i))))
         (i8 (snd (global_sample cf (getChunk terrain key) i))) b'.
Proof.
  intros Hb Hkey Hi Ht Huniq.
  assert (Hidx : 0 <= idx).
  { unfold global_target in Ht.
    destruct (index2x_y (getDimension (getChunk terrain key)) i) as [[xm ym]|];
      [|discriminate].
    apply global_index_bound in Ht. lia. }
  set (hv := i8 (snd (fst (global_sample cf (getChunk terrain key) i)))).
  set (cv := i8 (snd (global_sample cf (getChunk terrain key) i))).
  assert (Hval : forall key' i', key' ∈ chunks ->
            (i' < getFullSizeIdx (getDimension (getChunk terrain key')))%nat ->
            global_target cf i0 (getChunk terrain key') i' = Some idx ->
            i8 (snd (fst (global_sample cf (getChunk terrain key') i'))) = hv
            /\ i8 (snd (global_sample cf (getChunk terrain key') i')) = cv).
  { intros key' i' Hk' Hi' Ht'. destruct (Huniq key' i' Hk' Hi' Ht') as [-> ->]. by split. }
  unfold global_rasterize.
  destruct (fold_opt_establish (raster_sized (u32 (width i0 * height i0)))
              (global_holds (Z.to_nat idx) hv cv)
              (global_chunk cf terrain i0 cloud mrk) chunks b)
    as (b' & Hb' & _ & HP); [| |assumption|by eauto].
  - intros b1 key' Hkey' Hb1. unfold global_chunk.
    apply (fold_opt_invariant
             (fun b2 => raster_sized (u32 (width i0 * height i0)) b2
                        /\ (global_holds (Z.to_nat idx) hv cv b1
                            -> global_holds (Z.to_nat idx) hv cv b2)));
      [|by split].
    intros b2 i' Hi' [Hs Hk]. apply elem_of_seq in Hi'.
    destruct (global_cell_holds cf i0 cloud mrk (getChunk terrain key') b2 i' idx hv cv Hs
                Hidx) as (b3 & Hb3 & Hs3 & Hk3 & _); [apply Hval; [assumption | lia] |].
    exists b3. split; [assumption|]. split; [assumption|]. auto.
  - exists key. split; [assumption|]. intros b1 b1' Hb1 Hrun. unfold global_chunk in Hrun.
    destruct (fold_opt_establish (raster_sized (u32 (width i0 * height i0)))
                (global_holds (Z.to_nat idx) hv cv)
                (global_cell cf i0 cloud mrk (getChunk terrain key))
                (seq 0 (getFullSizeIdx (getDimension (getChunk terrain key)))) b1)
      as (b2 & Hb2 & _ & Hu); [| |assumption|congruence].
    + intros b2 i' Hi' Hs. apply elem_of_seq in Hi'.
      destruct (global_cell_holds cf i0 cloud mrk (getChunk terrain key) b2 i' idx hv cv Hs
                  Hidx) as (b3 & Hb3 & Hs3 & Hk3 & _); [apply Hval; [assumption | lia] |].
      eauto.
    + exists i. split; [apply elem_of_seq; lia|]. intros b2 b2' Hs Hstep.
      destruct (global_cell_holds cf i0 cloud mrk (getChunk terrain key) b2 i idx hv cv Hs
                  Hidx) as (b3 & Hb3 & _ & _ & Hest); [apply Hval; [assumption | lia] |].
      rewrite Hstep in Hb3. injection Hb3 as ->. by apply Hest.
Qed.

(** X21.  After a global cycle the rasters hold the samples of every
    processed cell at the cell's index, whoever subscribes: the
    normalized height and cost of a valid cell, -1 and -1 for a cell
    without observation (for a cell that shares its index with no other
    processed cell). *)
Theorem global_rasters_hold_the_processed_cells cf (terrain : Terrain) chunks subs t gm key i
    idx :
  global_wf gm ->
  key ∈ chunks ->
  (i < getFullSizeIdx (getDimension (getChunk terrain key)))%nat ->
  global_target cf (info (mGlobHeightMapMsg gm)) (getChunk terrain key) i = Some idx ->
  (forall key' i', key' ∈ chunks ->
     (i' < getFullSizeIdx (getDimension (getChunk terrain key')))%nat ->
     global_target cf (info (mGlobHeightMapMsg gm)) (getChunk terrain key') i' = Some idx ->
     key' = key /\ i' = i) ->
  exists gm' pubs,
    publishGlobalMaps depackColor3f cf terrain chunks subs t gm = Some (gm', pubs)
    /\ data (mGlobHeightMapMsg gm') !! Z.to_nat idx
       = Some (if isCellValid (getChunk terrain key) i
               then height_norm cf (at_ (getChunk terrain key) ELEVATION i) else -1)
    /\ data (mGlobCostMapMsg gm') !! Z.to_nat idx
       = Some (if isCellValid (getChunk terrain key) i
               then cost_norm (at_ (getChunk terrain key) TRAVERSABILITY_COST i) else -1).
Proof.
  intros [Hh Hc] Hkey Hi Ht Huniq. unfold publishGlobalMaps.
  match goal with
  | |- context [global_rasterize _ _ ?i0 _ _ _ ?b0] =>
      destruct (global_rasterize_holds cf terrain i0 (cloudSub subs) (mrkSub subs)
                  chunks b0 key i idx) as (b & -> & Hbh & Hbc); try assumption
  end.
  - split; simpl; assumption.
  - simpl. destruct (if 0 <? mrkSub subs then _ else _) as [pts cols].
    eexists _, _. split; [reflexivity|]. simpl. rewrite Hbh, Hbc.
    destruct (isCellValid (getChunk terrain key) i) eqn:Hv.
    + rewrite (global_sample_valid cf _ i Hv). cbn [fst snd].
      by rewrite height_norm_i8, cost_norm_i8.
    + rewrite (global_sample_invalid cf _ i Hv). split; reflexivity.
Qed.

End CycleFacts.

(** ** Time stamps, box markers and images *)

Section MessageFacts.

Context {F : Type} `{FloatOps F} `{FloatSqrt F}.
Variable depackColor3f : F -> F * F * F.

Lemma local_write_boxes (Q : Marker -> Prop) cf subs t chunk i xm ym idx tot b :
  raster_sized tot b -> 0 <= idx < tot ->
  Forall Q (b_boxes b) ->
  Q (local_box cf t idx xm ym (at_ chunk ELEVATION i) (depackColor3f (at_ chunk COLOR i))) ->
  exists b', local_write depackColor3f cf subs t chunk i xm ym idx b = Some b'
    /\ raster_sized tot b' /\ Forall Q (b_boxes b').
Proof.
  intros [Hh Hc] Hidx Hl Hnew. unfold local_write.
  rewrite (vec_at_put_Some (b_cost b)) by lia.
  assert (Hbox : Forall Q
                   (b_boxes b ++ [local_box cf t idx xm ym (at_ chunk ELEVATION i)
                                    (depackColor3f (at_ chunk COLOR i))])).
  { apply Forall_app. split; [assumption|]. by apply Forall_singleton. }
  destruct (0 <? costSub subs); simpl;
    rewrite (vec_at_put_Some (b_height b)) by lia;
    destruct (0 <? heightSub subs), (0 <? cloudSub subs), (0 <? mrkSub subs),
      (0 <? mrksSub subs); simpl; try destruct (fgt _ _); simpl;
    (eexists; split; [reflexivity|]); unfold raster_sized; simpl;
    rewrite ?length_insert; auto.
Qed.

Lemma local_rasterize_boxes cf terrain camX camY mapMinX mapMinY mapCols totCell subs t
    chunks b :
  raster_sized totCell b -> b_boxes b = [] ->
  exists b', local_rasterize depackColor3f cf terrain camX camY mapMinX mapMinY mapCols
               totCell subs t chunks b = Some b'
    /\ Forall (box_of_cycle depackColor3f cf terrain chunks camX camY mapMinX mapMinY mapCols
                 totCell t) (b_boxes b').
Proof.
  intros Hb Hl.
  set (Q := box_of_cycle depackColor3f cf terrain chunks camX camY mapMinX mapMinY mapCols
              totCell t).
  set (P := fun b1 : Buffers (F := F) => raster_sized totCell b1 /\ Forall Q (b_boxes b1)).
  destruct (fold_opt_invariant P
              (local_chunk depackColor3f cf terrain camX camY mapMinX mapMinY mapCols
                 totCell subs t) chunks b) as (b' & Hb' & _ & Hl');
    [|split; [assumption | rewrite Hl; apply Forall_nil_2]|by eauto].
  intros b1 key Hkey Hb1. unfold local_chunk.
  apply (fold_opt_invariant P); [|assumption].
  intros b2 i Hi [Hs Hl2]. rewrite local_cell_target.
  destruct (local_target _ _ _ _ _ _ _ _ _) as [idx|] eqn:Ht; [|by exists b2].
  pose proof (local_target_bound _ _ _ _ _ _ _ _ _ _ Ht) as Hidx.
  destruct (index2x_y _ i) as [[xm ym]|] eqn:Hxy; [|by exists b2].
  apply local_write_boxes; try assumption.
  exists key, i, xm, ym, idx. split; [assumption|].
  split; [apply elem_of_seq in Hi; lia|]. by repeat split.
Qed.

Lemma modifier_resize_stamp n (c : PointCloud2) :
  pc_stamp (modifier_resize n c) = pc_stamp c.
Proof. unfold modifier_resize. destruct (pc_height c =? 1), (pc_width c =? 1); reflexivity. Qed.

Lemma cube_marker_stamp (cf : Config) mrk t (pts cols : list (F * F * F)) :
  (0 <? mrk) = true -> mk_stamp (cube_marker cf mrk t pts cols) = t.
Proof.
  intros Hm. apply Z.ltb_lt in Hm. unfold cube_marker.
  destruct (Z.eqb_spec mrk 0); [lia | reflexivity].
Qed.

Lemma publishLocalMaps_stamped cf terrain camX camY minX minY maxX maxY chunks subs t lm :
  let w := local_window cf camX camY minX minY maxX maxY in
  exists lm' pubs,
    publishLocalMaps depackColor3f cf terrain camX camY minX minY maxX maxY chunks subs t lm
    = Some (lm', pubs)
    /\ (forall p, p ∈ pubs -> stamped t p)
    /\ (forall ms m, PubLocalHeightMrks ms ∈ pubs -> m ∈ ms ->
          box_of_cycle depackColor3f cf terrain chunks camX camY (mapMinX w) (mapMinY w)
            (mapCols w) (u32 (mapRows w * mapCols w)) t m).
Proof.
  intros w. unfold publishLocalMaps. fold w.
  match goal with
  | |- context [local_rasterize _ _ _ _ _ _ _ _ _ _ _ _ ?b0] =>
      destruct (local_rasterize_boxes cf terrain camX camY (mapMinX w) (mapMinY w)
                  (mapCols w) (u32 (mapRows w * mapCols w)) subs t chunks b0)
        as (b & -> & Hbox)
  end.
  { pose proof (u32_range (mapRows w * mapCols w)).
    split; cbn [b_height b_cost]; apply vec_fill_length; lia. }
  { reflexivity. }
  cbn [mbind option_bind]. eexists _, _. split; [reflexivity|].
  rewrite Forall_forall in Hbox. split.
  - intros p Hp. apply published_local_cases in Hp.
    destruct Hp as [[_ ->]|[[_ ->]|[[_ ->]|[[Em ->]|[_ ->]]]]];
      cbn [stamped stamp info map_load_time]; auto using cube_marker_stamp.
    + unfold set_pc_data. cbn [pc_stamp].
      destruct (negb _ || negb _); [by rewrite modifier_resize_stamp|reflexivity].
    + intros m Hm. destruct (Hbox m Hm) as (key & i & xm & ym & idx & _ & _ & _ & _ & ->).
      reflexivity.
  - intros ms m Hp Hm. apply published_local_cases in Hp.
    destruct Hp as [[_ Hp]|[[_ Hp]|[[_ Hp]|[[_ Hp]|[_ Hp]]]]]; try discriminate.
    injection Hp as ->. by apply Hbox.
Qed.

Lemma publishGlobalMaps_stamped cf terrain chunks subs t gm :
  global_wf gm ->
  exists gm' pubs,
    publishGlobalMaps depackColor3f cf terrain chunks subs t gm = Some (gm', pubs)
    /\ (forall p, p ∈ pubs -> stamped t p)
    /\ (forall p, p ∈ pubs ->
          match p with
          | PubGlobalHeightMap _ | PubGlobalCostMap _ | PubGlobalHeightCloud _
          | PubGlobalHeightMrk _ => True
          | _ => False
          end).
Proof.
  intros [Hh Hc]. unfold publishGlobalMaps.
  match goal with
  | |- context [global_rasterize _ _ ?i0 _ _ _ ?b0] =>
      destruct (global_rasterize_sized cf terrain i0 (cloudSub subs) (mrkSub subs) chunks b0)
        as (b & -> & Hh' & Hc')
  end.
  { split; simpl; assumption. }
  cbn [mbind option_bind]. destruct (if 0 <? mrkSub subs then _ else _) as [pts cols].
  eexists _, _. split; [reflexivity|]. split.
  - intros p Hp. apply published_global_cases in Hp.
    destruct Hp as [[_ ->]|[[_ ->]|[[_ ->]|[Em ->]]]]; simpl; auto using cube_marker_stamp.
  - intros p Hp. apply published_global_cases in Hp.
    destruct Hp as [[_ ->]|[[_ ->]|[[_ ->]|[_ ->]]]]; exact I.
Qed.

Lemma publish_image_elem sub (terrain : Terrain (F := F)) layer
    (pub : Mat (F := F) -> Published (F := F)) p :
  p ∈ publish_image sub terrain layer pub
  <-> 0 < sub
      /\ 0 < mat_width (generateTerrainMap terrain layer)
             * mat_height (generateTerrainMap terrain layer)
      /\ p = pub (generateTerrainMap terrain layer).
Proof.
  unfold publish_image. destruct (Z.ltb_spec 0 sub).
  - destruct (Z.ltb_spec 0 (mat_width (generateTerrainMap terrain layer)
                            * mat_height (generateTerrainMap terrain layer))).
    + rewrite list_elem_of_singleton. tauto.
    + rewrite elem_of_nil. split; [tauto | lia].
  - rewrite elem_of_nil. split; [tauto | lia].
Qed.

(** The three ways a global cycle can go: idle (no subscriber or no
    terrain), no chunk selected, or one [publishGlobalMaps] followed by
    the images. *)
Lemma globalTerrainCallback_cases env imgs subs (st : State) :
  global_wf (glob st) ->
  let st1 := ensure_started env st in
  let run := u32 (heightImgSub imgs + colorImgSub imgs + costImgSub imgs + heightSub subs
                  + costSub subs + cloudSub subs + mrkSub subs) in
  exists st' pubs,
    globalTerrainCallback depackColor3f env imgs subs st = Some (st', pubs)
    /\ ((pubs = [] /\ glob st' = glob st1
         /\ ((0 <? run) = false \/ retrieveTerrainAsync env = None))
        \/ (pubs = []
            /\ exists terrain,
                 retrieveTerrainAsync env = Some terrain
                 /\ fst (select_chunks terrain (glob st1)) = []
                 /\ glob st' = snd (select_chunks terrain (glob st1)))
        \/ exists terrain pubs0,
             (0 <? run) = true
             /\ retrieveTerrainAsync env = Some terrain
             /\ fst (select_chunks terrain (glob st1)) <> []
             /\ (let prep := global_prepare (cfg st1) terrain
                               (fst (select_chunks terrain (glob st1)))
                               (snd (select_chunks terrain (glob st1))) in
                 global_wf (snd prep)
                 /\ publishGlobalMaps depackColor3f (cfg st1) terrain (fst prep) subs
                      (getReferenceTS terrain) (snd prep)
                    = Some (glob st', pubs0))
             /\ pubs = pubs0
                       ++ publish_image (heightImgSub imgs) terrain ELEVATION
                            PubGlobalHeightMapImg
                       ++ publish_image (colorImgSub imgs) terrain COLOR PubGlobalColorMapImg
                       ++ publish_image (costImgSub imgs) terrain TRAVERSABILITY_COST
                            PubGlobalCostMapImg).
Proof.
  intros Hwf st1 run. unfold globalTerrainCallback. fold st1. fold run.
  pose proof (ensure_started_wf env st Hwf) as Hwf1. fold st1 in Hwf1.
  clearbody st1.
  destruct (0 <? run) eqn:Hrun; [|eexists _, _; split; [reflexivity|]; auto 10].
  destruct (retrieveTerrainAsync env) as [terrain|];
    [|eexists _, _; split; [reflexivity|]; auto 10].
  change (glob (set_terrain terrain st1)) with (glob st1).
  change (cfg (set_terrain terrain st1)) with (cfg st1).
  assert (Hwf2 : global_wf (snd (select_chunks terrain (glob st1)))
                 /\ mLastGlobMapTimestamp (snd (select_chunks terrain (glob st1)))
                    = getReferenceTS terrain).
  { rewrite select_chunks_spec. split; [exact Hwf1 | reflexivity]. }
  destruct Hwf2 as [Hwf2 Hts2].
  destruct (select_chunks terrain (glob st1)) as [chunks gm] eqn:Hsel. cbn [fst snd] in *.
  destruct chunks as [|k chunks].
  - eexists _, _. split; [reflexivity|].
    right. left. split; [reflexivity|]. exists terrain. rewrite Hsel. auto.
  - cbn [length]. rewrite Nat2Z.inj_succ.
    destruct (Z.ltb_spec 0 (Z.succ (Z.of_nat (length chunks)))); [|lia].
    pose proof (global_prepare_spec (cfg st1) terrain (k :: chunks) gm Hwf2)
      as (Hwf3 & Hts3 & _).
    destruct (global_prepare (cfg st1) terrain (k :: chunks) gm) as [chunks' gm2] eqn:Hprep.
    cbn [fst snd] in *.
    destruct (publishGlobalMaps_total depackColor3f (cfg st1) terrain chunks' subs
                (mLastGlobMapTimestamp gm2) gm2 Hwf3)
      as (gm3 & pubs0 & Hp & _).
    rewrite Hp. cbn [mbind option_bind fst snd]. eexists _, _. split; [reflexivity|].
    right. right. exists terrain, pubs0. rewrite Hts3, Hts2 in Hp.
    rewrite Hsel. cbn [fst snd]. rewrite Hprep. cbn [fst snd].
    split; [reflexivity|]. split; [reflexivity|]. split; [discriminate|].
    split; [split; [exact Hwf3 | exact Hp] | reflexivity].
Qed.

(** X22.  Everything a cycle publishes carries the reference time stamp
    of the terrain snapshot retrieved in that cycle: the header and the
    load time of a grid, the header of a cloud, of the cube list and of
    every box marker. *)
Theorem published_messages_carry_the_snapshot_time :
  (forall env subs (st : State) terrain,
      retrieveTerrainAsync env = Some terrain ->
      exists st' pubs,
        localTerrainCallback depackColor3f env subs st = Some (st', pubs)
        /\ forall p, p ∈ pubs -> stamped (getReferenceTS terrain) p)
  /\ (forall env imgs subs (st : State) terrain,
      global_wf (glob st) ->
      retrieveTerrainAsync env = Some terrain ->
      exists st' pubs,
        globalTerrainCallback depackColor3f env imgs subs st = Some (st', pubs)
        /\ forall p, p ∈ pubs -> stamped (getReferenceTS terrain) p).
Proof.
  split.
  - intros env subs st terrain Hret.
    destruct (localTerrainCallback_outcome depackColor3f env subs st)
      as (st' & pubs & Hcb & _ & _ & _ & Hout).
    exists st', pubs. split; [assumption|].
    destruct Hout as [[-> _]|(terrain' & camX & camY & minX & minY & maxX & maxY & chunks
                              & Hret' & _ & _ & _ & _ & Hp)].
    + intros p Hp. by apply elem_of_nil in Hp.
    + rewrite Hret in Hret'. injection Hret' as <-.
      destruct (publishLocalMaps_stamped (cfg st') terrain camX camY minX minY maxX maxY chunks
                  subs (getReferenceTS terrain) (loc st)) as (lm' & pubs' & Hp' & Hst & _).
      rewrite Hp in Hp'. injection Hp' as <- <-. exact Hst.
  - intros env imgs subs st terrain Hwf Hret.
    destruct (globalTerrainCallback_cases env imgs subs st Hwf)
      as (st' & pubs & Hcb & Hcases).
    exists st', pubs. split; [assumption|].
    destruct Hcases as [[-> _]|[[-> _]|(terrain' & pubs0 & _ & Hret' & _ & [Hwf' Hp] & ->)]];
      try (intros p Hp; by apply elem_of_nil in Hp).
    rewrite Hret in Hret'. injection Hret' as <-.
    match type of Hp with
    | publishGlobalMaps _ ?c ?tr ?ch ?s ?t ?g = _ =>
        destruct (publishGlobalMaps_stamped c tr ch s t g Hwf')
          as (gm3 & pubs' & Hp' & Hst & _)
    end.
    rewrite Hp in Hp'. injection Hp' as <- <-.
    intros p Hin. rewrite !elem_of_app in Hin.
    destruct Hin as [Hin|[Hin|[Hin|Hin]]]; [by apply Hst | | |];
      apply publish_image_elem in Hin as (_ & _ & ->); exact I.
Qed.

(** X23.  Every box marker of a local cycle belongs to a valid cell of
    the cycle's chunks: its id is the raster index the cycle computes for
    that cell, which lies below the cell count of the raster; it is in the
    namespace "height_boxes", carries the time stamp of the cycle and
    stands at the centre of the cell, at half the cell's elevation.  The
    window has fewer than 2^31 cells, so that the index is the same number
    as a signed 32-bit id. *)
Theorem box_markers_are_named_by_raster_index cf (terrain : Terrain) camX camY minX minY maxX
    maxY chunks subs t lm :
  let w := local_window cf camX camY minX minY maxX maxY in
  let tot := u32 (mapRows w * mapCols w) in
  tot < 2 ^ 31 ->
  exists lm' pubs,
    publishLocalMaps depackColor3f cf terrain camX camY minX minY maxX maxY chunks subs t lm
    = Some (lm', pubs)
    /\ forall ms m, PubLocalHeightMrks ms ∈ pubs -> m ∈ ms ->
         exists key i xm ym idx,
           key ∈ chunks
           /\ (i < getFullSizeIdx (getDimension (getChunk terrain key)))%nat
           /\ isCellValid (getChunk terrain key) i = true
           /\ index2x_y (getDimension (getChunk terrain key)) i = Some (xm, ym)
           /\ local_index cf (mapMinX w) (mapMinY w) (mapCols w) tot xm ym = Some idx
           /\ mk_id m = idx /\ i32 idx = idx
           /\ 0 <= mk_id m < Z.of_nat (length (data (mLocHeightMapMsg lm')))
           /\ mk_ns m = "height_boxes"%string /\ mk_stamp m = t
           /\ mk_position m
              = (fadd ym (fdiv (mTerrainMapRes cf) (of_int 2)),
                 fadd (fneg xm) (fdiv (mTerrainMapRes cf) (of_int 2)),
                 fdiv (at_ (getChunk terrain key) ELEVATION i) (of_int 2)).
Proof.
  intros w tot Hsmall.
  destruct (publishLocalMaps_stamped cf terrain camX camY minX minY maxX maxY chunks subs t lm)
    as (lm' & pubs & Hp & _ & Hbox).
  destruct (publishLocalMaps_total depackColor3f cf terrain camX camY minX minY maxX maxY
              chunks subs t lm) as (lm2 & pubs2 & Hp2 & Hlen & _).
  rewrite Hp in Hp2. injection Hp2 as <- <-.
  exists lm', pubs. split; [assumption|]. intros ms m Hms Hm.
  destruct (Hbox ms m Hms Hm) as (key & i & xm & ym & idx & Hkey & Hi & Hxy & Ht & ->).
  fold w in Ht, Hlen. fold tot in Ht, Hlen.
  pose proof (local_target_bound _ _ _ _ _ _ _ _ _ _ Ht) as Hidx.
  destruct (local_target_inv _ _ _ _ _ _ _ _ _ _ Ht) as (Hv & xm' & ym' & Hxy' & _ & Hli).
  rewrite Hxy in Hxy'. injection Hxy' as <- <-.
  exists key, i, xm, ym, idx. cbn [local_box mk_id mk_ns mk_stamp mk_position].
  rewrite Hlen, i32_small by lia. repeat split; auto; lia.
Qed.

(** X24.  A terrain image is published only for a subscriber of its
    topic, only when the generated map has a positive area, and it is the
    map the SDK generates from the retrieved snapshot for the topic's
    layer; in a cycle that selects at least one chunk it is published
    whenever both conditions hold. *)
Theorem terrain_images_follow_their_subscribers env imgs subs (st : State) :
  global_wf (glob st) ->
  exists st' pubs,
    globalTerrainCallback depackColor3f env imgs subs st = Some (st', pubs)
    /\ (forall p, p ∈ pubs ->
          match p with
          | PubGlobalHeightMapImg m =>
              0 < heightImgSub imgs /\ 0 < mat_width m * mat_height m
              /\ exists terrain, retrieveTerrainAsync env = Some terrain
                   /\ m = generateTerrainMap terrain ELEVATION
          | PubGlobalColorMapImg m =>
              0 < colorImgSub imgs /\ 0 < mat_width m * mat_height m
              /\ exists terrain, retrieveTerrainAsync env = Some terrain
                   /\ m = generateTerrainMap terrain COLOR
          | PubGlobalCostMapImg m =>
              0 < costImgSub imgs /\ 0 < mat_width m * mat_height m
              /\ exists terrain, retrieveTerrainAsync env = Some terrain
                   /\ m = generateTerrainMap terrain TRAVERSABILITY_COST
          | _ => True
          end)
    /\ (forall terrain,
          retrieveTerrainAsync env = Some terrain ->
          0 < u32 (heightImgSub imgs + colorImgSub imgs + costImgSub imgs + heightSub subs
                   + costSub subs + cloudSub subs + mrkSub subs) ->
          fst (select_chunks terrain (glob (ensure_started env st))) <> [] ->
          forall layer sub (pub : Mat -> Published),
            (layer, sub, pub) ∈ [(ELEVATION, heightImgSub imgs, PubGlobalHeightMapImg);
                                 (COLOR, colorImgSub imgs, PubGlobalColorMapImg);
                                 (TRAVERSABILITY_COST, costImgSub imgs, PubGlobalCostMapImg)] ->
            0 < sub ->
            0 < mat_width (generateTerrainMap terrain layer)
                * mat_height (generateTerrainMap terrain layer) ->
            pub (generateTerrainMap terrain layer) ∈ pubs).
Proof.
  intros Hwf.
  destruct (globalTerrainCallback_cases env imgs subs st Hwf)
    as (st' & pubs & Hcb & Hcases).
  exists st', pubs. split; [assumption|].
  destruct Hcases as [(-> & _ & Hidle)|[[-> (terrain' & Hret' & Hnil & _)]
                                       |(terrain' & pubs0 & _ & Hret' & Hne & [Hwf' Hp] & ->)]].
  - split; [intros p Hp; by apply elem_of_nil in Hp|].
    intros terrain Hret Hrun Hsel. exfalso.
    destruct Hidle as [Hr|Hr]; [apply Z.ltb_lt in Hrun | ]; congruence.
  - split; [intros p Hp; by apply elem_of_nil in Hp|].
    intros terrain Hret Hrun Hsel. exfalso.
    rewrite Hret in Hret'. injection Hret' as <-. contradiction.
  - match type of Hp with
    | publishGlobalMaps _ ?c ?tr ?ch ?s ?t ?g = _ =>
        destruct (publishGlobalMaps_stamped c tr ch s t g Hwf')
          as (gm3 & pubs' & Hp' & _ & Hkind)
    end.
    rewrite Hp in Hp'. injection Hp' as <- <-. split.
    + intros p Hin. rewrite !elem_of_app in Hin.
      destruct Hin as [Hin|[Hin|[Hin|Hin]]].
      * apply Hkind in Hin. destruct p; try exact I; contradiction.
      * apply publish_image_elem in Hin as (? & ? & ->). eauto 6.
      * apply publish_image_elem in Hin as (? & ? & ->). eauto 6.
      * apply publish_image_elem in Hin as (? & ? & ->). eauto 6.
    + intros terrain Hret Hrun Hsel layer sub pub Hin Hsub Harea.
      rewrite Hret in Hret'. injection Hret' as <-.
      rewrite !elem_of_app.
      repeat (apply elem_of_cons in Hin as [Hin|Hin]); [| | |by apply elem_of_nil in Hin];
        injection Hin as -> -> ->;
        [right; left | right; right; left | right; right; right];
        apply publish_image_elem; auto.
Qed.

(** ** What every run of callbacks keeps *)

Lemma modifier_resize_sized n (c : PointCloud2) :
  0 <= n < 2 ^ 32 ->
  cloud_sized (modifier_resize n c) /\ length (pc_data (modifier_resize n c)) = Z.to_nat n.
Proof.
  intros Hn. split; [|by rewrite modifier_resize_data, vec_resize_length].
  unfold cloud_sized. rewrite modifier_resize_data, vec_resize_length.
  unfold modifier_resize.
  destruct (pc_height c =? 1), (pc_width c =? 1); cbn [pc_height pc_width];
    rewrite ?Z.mul_1_l, ?Z.mul_1_r, !(u32_small n) by lia; lia.
Qed.

Lemma initGlobalMapMsgs_fits cf (w h : F) gm :
  cloud_sized (mGlobalHeightPointcloudMsg gm) ->
  global_cloud_fits (initGlobalMapMsgs cf w h gm).
Proof.
  intros Hc. split; [split; [apply initGlobalMapMsgs_wf | reflexivity]|].
  pose proof (u32_range (cells_of_span cf h * cells_of_span cf w)) as Hr.
  unfold initGlobalMapMsgs.
  cbn [mGlobalHeightPointcloudMsg mGlobHeightMapMsg data].
  assert (Hfill : length (vec_fill (u32 (cells_of_span cf h * cells_of_span cf w)) (-1))
                  = Z.to_nat (u32 (cells_of_span cf h * cells_of_span cf w))).
  { unfold vec_fill. apply length_replicate. }
  rewrite Hfill.
  destruct (Z.eqb_spec (pc_width (mGlobalHeightPointcloudMsg gm)) (cells_of_span cf w))
    as [Ew|Ew];
    [destruct (Z.eqb_spec (pc_height (mGlobalHeightPointcloudMsg gm)) (cells_of_span cf h))
       as [Eh|Eh]|]; cbn [negb orb].
  - split; [exact Hc|]. unfold cloud_sized in Hc. rewrite Ew, Eh in Hc. lia.
  - apply modifier_resize_sized. lia.
  - apply modifier_resize_sized. lia.
Qed.

Lemma ensure_started_fits env (st : State) :
  global_cloud_fits (glob st) -> global_cloud_fits (glob (ensure_started env st)).
Proof.
  intros Hfit. unfold ensure_started, startTerrainMapping.
  destruct (mMappingReady st); simpl; [assumption|].
  destruct (zed_present env); simpl; [|assumption].
  destruct (enableTerrainMapping env); simpl; [|assumption].
  apply initGlobalMapMsgs_fits. apply Hfit.
Qed.

Lemma select_chunks_fits (terrain : Terrain (F := F)) (gm : GlobalMaps (F := F)) :
  global_cloud_fits gm -> global_cloud_fits (snd (select_chunks terrain gm)).
Proof. intros Hfit. rewrite select_chunks_spec. exact Hfit. Qed.

Lemma global_prepare_fits cf terrain chunks gm :
  global_cloud_fits gm -> global_cloud_fits (snd (global_prepare cf terrain chunks gm)).
Proof.
  intros Hfit. unfold global_prepare.
  destruct (global_limits terrain chunks (global_bounds gm)) as [[[[minX minY] maxX] maxY] [|]];
    [|exact Hfit].
  pose proof (initGlobalMapMsgs_fits cf (fsub maxY minY) (fsub maxX minX) gm
                (proj1 (proj2 Hfit))) as ([[Hh Hc] Hi] & Hs & Hl).
  unfold global_resize. cbn [snd].
  split; [split; [split|]|split]; simpl in *; try assumption. reflexivity.
Qed.

Lemma global_rasterize_cloud_length cf terrain (i0 : MapMetaData) cloud mrk chunks b :
  raster_sized (u32 (width i0 * height i0)) b ->
  exists b', global_rasterize cf terrain i0 cloud mrk chunks b = Some b'
    /\ raster_sized (u32 (width i0 * height i0)) b'
    /\ length (b_cloud b') = length (b_cloud b).
Proof.
  intros Hb.
  set (P := fun b1 : Buffers (F := F) =>
    raster_sized (u32 (width i0 * height i0)) b1 /\ length (b_cloud b1) = length (b_cloud b)).
  unfold global_rasterize. apply (fold_opt_invariant P); [|by split].
  intros b1 key _ Hb1. unfold global_chunk.
  apply (fold_opt_invariant P); [|assumption].
  intros b2 i _ [[Hh Hc] Hl]. unfold global_cell.
  destruct (global_sample cf (getChunk terrain key) i) as [[hgt hn] cn].
  destruct (index2x_y _ i) as [[xm ym]|]; [|exists b2; by repeat split].
  destruct (global_index cf i0 xm ym) as [idx|] eqn:Hidx; [|exists b2; by repeat split].
  apply global_index_bound in Hidx. unfold global_write, raw_put.
  rewrite (vec_at_put_Some (b_height b2)) by lia.
  rewrite (vec_at_put_Some (b_cost b2)) by lia. simpl.
  destruct ((0 <? cloud) || (0 <? mrk)), (0 <=? idx);
    (eexists; split; [reflexivity|]); unfold P, raster_sized; simpl;
    rewrite ?length_insert; auto.
Qed.

Lemma publishGlobalMaps_fits cf terrain chunks subs t gm :
  global_cloud_fits gm ->
  exists gm' pubs,
    publishGlobalMaps depackColor3f cf terrain chunks subs t gm = Some (gm', pubs)
    /\ global_cloud_fits gm'.
Proof.
  intros ([[Hh Hc] Hinfo] & Hs & Hl). unfold publishGlobalMaps.
  match goal with
  | |- context [global_rasterize _ _ ?i0 _ _ _ ?b0] =>
      destruct (global_rasterize_cloud_length cf terrain i0 (cloudSub subs) (mrkSub subs)
                  chunks b0) as (b & -> & [Hh' Hc'] & Hl')
  end.
  { split; simpl; assumption. }
  cbn [mbind option_bind]. destruct (if 0 <? mrkSub subs then _ else _) as [pts cols].
  eexists _, _. split; [reflexivity|].
  unfold global_cloud_fits, global_twins, global_wf, cloud_sized. simpl in *.
  rewrite Hinfo, Hl'. repeat split; auto. apply Nat2Z.inj. congruence.
Qed.

Lemma step_fits e (st : State) :
  global_cloud_fits (glob st) ->
  exists st' pubs, step depackColor3f e st = Some (st', pubs) /\ global_cloud_fits (glob st').
Proof.
  intros Hfit. destruct e as [env subs|env imgs subs|subs|r level]; simpl.
  - destruct (localTerrainCallback_outcome depackColor3f env subs st)
      as (st' & pubs & Hcb & _ & Hg & _).
    exists st', pubs. split; [assumption|]. rewrite Hg. by apply ensure_started_fits.
  - pose proof (ensure_started_fits env st Hfit) as Hfit1.
    destruct (globalTerrainCallback_cases env imgs subs st (proj1 (proj1 Hfit)))
      as (st' & pubs & Hcb & Hcases).
    exists st', pubs. split; [assumption|].
    destruct Hcases as [(_ & -> & _)|[[_ (terrain & _ & _ & ->)]
                                     |(terrain & pubs0 & _ & _ & _ & [_ Hp] & _)]].
    + exact Hfit1.
    + by apply select_chunks_fits.
    + match type of Hp with
      | publishGlobalMaps _ ?c ?tr ?ch ?s ?t ?g = _ =>
          destruct (publishGlobalMaps_fits c tr ch s t g) as (gm3 & pubs' & Hp' & Hfit3)
      end.
      { apply global_prepare_fits. by apply select_chunks_fits. }
      rewrite Hp in Hp'. injection Hp' as <- <-. exact Hfit3.
  - eexists _, _. split; [reflexivity|]. unfold globalMapSubscribeCallback.
    destruct (_ || _); exact Hfit.
  - eexists _, _. split; [reflexivity|]. unfold dynamicReconfCallback.
    destruct (level =? 0); exact Hfit.
Qed.

Lemma run_fits es (st : State) :
  global_cloud_fits (glob st) ->
  exists st' pubs, run depackColor3f es st = Some (st', pubs) /\ global_cloud_fits (glob st').
Proof.
  revert st. induction es as [|e es IH]; intros st Hfit; simpl.
  - by eexists _, _.
  - destruct (step_fits e st Hfit) as (st1 & p1 & -> & Hfit1). simpl.
    destruct (IH st1 Hfit1) as (st2 & p2 & -> & Hfit2). simpl.
    by eexists _, _.
Qed.

Lemma initial_state_fits (terrain : Terrain) (cf : Config) :
  global_cloud_fits (glob (initial_state terrain cf)).
Proof. repeat split. Qed.

(** X25.  Along every run of callbacks from the node's initial state the
    global height grid and the global cost grid describe the same raster:
    they have the same metadata (size, resolution, origin, load time) and
    as many cells. *)
Theorem global_grids_share_their_metadata (terrain : Terrain) (cf : Config)
    (es : list Event) :
  exists st' pubs,
    run depackColor3f es (initial_state terrain cf) = Some (st', pubs)
    /\ info (mGlobCostMapMsg (glob st')) = info (mGlobHeightMapMsg (glob st'))
    /\ length (data (mGlobCostMapMsg (glob st')))
       = length (data (mGlobHeightMapMsg (glob st'))).
Proof.
  destruct (run_fits es (initial_state terrain cf) (initial_state_fits terrain cf))
    as (st' & pubs & Hr & [[Hh Hc] Hinfo] & _).
  exists st', pubs. split; [assumption|]. split; [assumption|].
  apply Nat2Z.inj. congruence.
Qed.

(** X26.  Along every run of callbacks from the node's initial state the
    global point buffer holds exactly one point per cell of the global
    rasters, so the stores through the raw pointer at a raster index stay
    inside the buffer. *)
Theorem global_point_buffer_has_a_point_per_cell (terrain : Terrain) (cf : Config)
    (es : list Event) :
  exists st' pubs,
    run depackColor3f es (initial_state terrain cf) = Some (st', pubs)
    /\ length (pc_data (mGlobalHeightPointcloudMsg (glob st')))
       = length (data (mGlobHeightMapMsg (glob st')))
    /\ forall (cfx : Config) (xm ym : F) idx,
         global_index cfx (info (mGlobHeightMapMsg (glob st'))) xm ym = Some idx ->
         (Z.to_nat idx < length (pc_data (mGlobalHeightPointcloudMsg (glob st'))))%nat.
Proof.
  destruct (run_fits es (initial_state terrain cf) (initial_state_fits terrain cf))
    as (st' & pubs & Hr & [[Hh Hc] Hinfo] & _ & Hl).
  exists st', pubs. split; [assumption|]. split; [assumption|].
  intros cfx xm ym idx Hidx. apply global_index_bound in Hidx. rewrite Hl. lia.
Qed.

Lemma local_write_cloud cf subs t chunk i xm ym idx tot b :
  raster_sized tot b -> 0 <= idx < tot ->
  exists b', local_write depackColor3f cf subs t chunk i xm ym idx b = Some b'
    /\ raster_sized tot b' /\ length (b_cloud b') = length (b_cloud b).
Proof.
  intros [Hh Hc] Hidx. unfold local_write, raw_put.
  rewrite (vec_at_put_Some (b_cost b)) by lia.
  destruct (0 <? costSub subs); simpl;
    rewrite (vec_at_put_Some (b_height b)) by lia;
    destruct (0 <? heightSub subs), (0 <? cloudSub subs), (0 <? mrkSub subs),
      (0 <? mrksSub subs), (0 <=? idx); simpl; try destruct (fgt _ _); simpl;
    (eexists; split; [reflexivity|]); unfold raster_sized; simpl;
    rewrite ?length_insert; auto.
Qed.

Lemma local_rasterize_cloud cf terrain camX camY mapMinX mapMinY mapCols totCell subs t
    chunks b :
  raster_sized totCell b ->
  exists b', local_rasterize depackColor3f cf terrain camX camY mapMinX mapMinY mapCols
               totCell subs t chunks b = Some b'
    /\ raster_sized totCell b' /\ length (b_cloud b') = length (b_cloud b).
Proof.
  intros Hb.
  set (P := fun b1 : Buffers (F := F) =>
    raster_sized totCell b1 /\ length (b_cloud b1) = length (b_cloud b)).
  unfold local_rasterize. apply (fold_opt_invariant P); [|by split].
  intros b1 key _ Hb1. unfold local_chunk.
  apply (fold_opt_invariant P); [|assumption].
  intros b2 i _ [Hs Hl2]. rewrite local_cell_target.
  destruct (local_target _ _ _ _ _ _ _ _ _) as [idx|] eqn:Ht; [|by exists b2].
  pose proof (local_target_bound _ _ _ _ _ _ _ _ _ _ Ht) as Hidx.
  destruct (index2x_y _ i) as [[xm ym]|]; [|by exists b2].
  destruct (local_write_cloud cf subs t (getChunk terrain key) i xm ym idx totCell b2 Hs Hidx)
    as (b3 & Hw & Hs3 & Hl3).
  exists b3. split; [assumption|]. split; [assumption|]. congruence.
Qed.

(** X27.  A local cycle whose window has fewer than 2^31 cells, started
    with a point cloud message that holds [height * width] points, leaves
    a message of that kind again, with exactly one point per cell of the
    local rasters: the stores through the raw pointer at a raster index
    stay inside the buffer. *)
Theorem local_point_buffer_has_a_point_per_cell cf terrain camX camY minX minY maxX maxY
    chunks subs t lm :
  let w := local_window cf camX camY minX minY maxX maxY in
  cloud_sized (mLocalHeightPointcloudMsg lm) ->
  u32 (mapRows w * mapCols w) < 2 ^ 31 ->
  exists lm' pubs,
    publishLocalMaps depackColor3f cf terrain camX camY minX minY maxX maxY chunks subs t lm
    = Some (lm', pubs)
    /\ cloud_sized (mLocalHeightPointcloudMsg lm')
    /\ length (pc_data (mLocalHeightPointcloudMsg lm'))
       = length (data (mLocHeightMapMsg lm'))
    /\ forall (xm ym : F) idx,
         local_index cf (mapMinX w) (mapMinY w) (mapCols w) (u32 (mapRows w * mapCols w))
           xm ym = Some idx ->
         (Z.to_nat idx < length (pc_data (mLocalHeightPointcloudMsg lm')))%nat.
Proof.
  intros w Hs Hsmall. unfold publishLocalMaps. fold w.
  set (tot := u32 (mapRows w * mapCols w)) in *.
  pose proof (u32_range (mapRows w * mapCols w)) as Hr. fold tot in Hr.
  rewrite (i32_small tot) by lia.
  set (pc0 := set_pc_stamp t (mLocalHeightPointcloudMsg lm)).
  set (pc1 := if negb (pc_width pc0 =? mapCols w) || negb (pc_height pc0 =? mapRows w)
              then modifier_resize tot (setPointCloud2Fields pc0) else pc0).
  assert (Hpc1 : cloud_sized pc1 /\ length (pc_data pc1) = Z.to_nat tot).
  { subst pc1.
    destruct (Z.eqb_spec (pc_width pc0) (mapCols w)) as [Ew|Ew];
      [destruct (Z.eqb_spec (pc_height pc0) (mapRows w)) as [Eh|Eh]|]; cbn [negb orb].
    - assert (Hs0 : cloud_sized pc0) by exact Hs.
      split; [exact Hs0|]. unfold cloud_sized in Hs0. rewrite Ew, Eh in Hs0.
      fold tot in Hs0. lia.
    - apply modifier_resize_sized. lia.
    - apply modifier_resize_sized. lia. }
  destruct Hpc1 as [Hs1 Hl1].
  match goal with
  | |- context [local_rasterize _ _ _ _ _ _ _ _ _ _ _ _ ?b0] =>
      destruct (local_rasterize_cloud cf terrain camX camY (mapMinX w) (mapMinY w)
                  (mapCols w) tot subs t chunks b0) as (b & -> & [Hh' Hc'] & Hl')
  end.
  { split; simpl; apply vec_fill_length; lia. }
  cbn [mbind option_bind]. eexists _, _. split; [reflexivity|].
  simpl in Hl'. unfold cloud_sized. simpl.
  rewrite Hl'. split; [exact Hs1|]. split; [lia|].
  intros xm ym idx Hidx. apply local_index_bound in Hidx. lia.
Qed.

End MessageFacts.

(** ** The further properties at the scenes *)

Section SceneWitnesses.

Import Binary32 Scene.

(** X1 at the scene: from the empty local maps and from those of an
    earlier cycle. *)
Lemma local_maps_rebuilt_each_cycle_scene :
  exists lm1' pubs1 lm2' pubs2,
    publishLocalMaps depack (config 3) terrain0 (of_Z 0) (of_Z 0) (of_Z 0) (of_Z 0) (of_Z 1)
      (of_Z 1) [0] (subscribers 1 1 1 1 1) 42 empty_local = Some (lm1', pubs1)
    /\ publishLocalMaps depack (config 3) terrain0 (of_Z 0) (of_Z 0) (of_Z 0) (of_Z 0)
         (of_Z 1) (of_Z 1) [0] (subscribers 1 1 1 1 1) 42
         {| mLocHeightMapMsg := mGlobHeightMapMsg glob_left;
            mLocCostMapMsg := mGlobCostMapMsg glob_left;
            mLocalHeightPointcloudMsg := mGlobalHeightPointcloudMsg glob_left |}
       = Some (lm2', pubs2)
    /\ mLocHeightMapMsg lm1' = mLocHeightMapMsg lm2'
    /\ mLocCostMapMsg lm1' = mLocCostMapMsg lm2'
    /\ forall p, (forall c, p <> PubLocalHeightCloud c) -> p ∈ pubs1 <-> p ∈ pubs2.
Proof.
  exact (local_maps_rebuilt_each_cycle depack (config 3) terrain0 (of_Z 0) (of_Z 0) (of_Z 0)
           (of_Z 0) (of_Z 1) (of_Z 1) [0] (subscribers 1 1 1 1 1) 42 empty_local _).
Defined.

(** X2 at the scene: the cube list of the first global map. *)
Lemma cube_list_has_a_color_per_point_scene :
  exists gm' pubs,
    publishGlobalMaps depack (config 3) terrain0 [0] (subscribers 0 0 0 1 0) 42 glob0
    = Some (gm', pubs)
    /\ forall m, PubGlobalHeightMrk m ∈ pubs -> length (mk_points m) = length (mk_colors m).
Proof.
  exact (proj2 (cube_list_has_a_color_per_point depack) (config 3) terrain0 [0]
           (subscribers 0 0 0 1 0) 42 glob0 glob0_wf).
Defined.

Lemma glob_left_wf : global_wf glob_left.
Proof. vm_compute. split; reflexivity. Qed.

(** X3 at the scene: no cell of chunk 0 lands on index 12 of the global
    rasters, which held 55 there. *)
Lemma global_maps_keep_untouched_cells_scene :
  exists gm' pubs,
    publishGlobalMaps depack (config 3) terrain0 [0] (subscribers 1 1 1 0 0) 42 glob_left
    = Some (gm', pubs)
    /\ data (mGlobHeightMapMsg gm') !! 12%nat = data (mGlobHeightMapMsg glob_left) !! 12%nat
    /\ data (mGlobCostMapMsg gm') !! 12%nat = data (mGlobCostMapMsg glob_left) !! 12%nat
    /\ pc_data (mGlobalHeightPointcloudMsg gm') !! 12%nat
       = pc_data (mGlobalHeightPointcloudMsg glob_left) !! 12%nat.
Proof.
  apply (global_maps_keep_untouched_cells depack (config 3) terrain0 [0]
           (subscribers 1 1 1 0 0) 42 glob_left 12 glob_left_wf).
  intros key i Hk Hi. apply list_elem_of_singleton in Hk. subst key.
  vm_compute in Hi.
  do 9 (destruct i as [|i]; [vm_compute; discriminate |]).
  lia.
Defined.

(** X4 at the scene: chunk 0 lies within the raster that was laid out
    around it. *)
Lemma global_map_resized_iff_a_chunk_exceeds_scene :
  global_prepare (config 3) terrain0 [0] glob1 = ([0], glob1).
Proof.
  apply (proj2 (global_map_resized_iff_a_chunk_exceeds (config 3) terrain0 [0] glob1)).
  intros key Hk. apply list_elem_of_singleton in Hk. subst key. vm_compute. reflexivity.
Defined.

Lemma state0_wf : global_wf (glob state0).
Proof. vm_compute. split; reflexivity. Qed.

(** X5 at the scene: the first global cycle, with a subscriber for each
    grid. *)
Lemma services_return_the_published_grids_scene :
  exists st' pubs,
    globalTerrainCallback depack (sensor terrain0) no_images (subscribers 1 1 0 0 0) state0
    = Some (st', pubs)
    /\ (forall g, PubGlobalHeightMap g ∈ pubs ->
          call_service "global_height_map" st' empty_grid = Some (true, g)
          /\ (mDefaultMap (cfg st') = 0 ->
              call_service "static_map" st' empty_grid = Some (true, g)))
    /\ (forall g, PubGlobalCostMap g ∈ pubs ->
          call_service "global_cost_map" st' empty_grid = Some (true, g)
          /\ (mDefaultMap (cfg st') <> 0 ->
              call_service "static_map" st' empty_grid = Some (true, g))).
Proof.
  exact (proj2 (services_return_the_published_grids depack) (sensor terrain0) no_images
           (subscribers 1 1 0 0 0) state0 empty_grid state0_wf).
Defined.

(** X6 at the scene. *)
Lemma local_and_global_maps_are_independent_scene :
  observe loc (globalTerrainCallback depack (sensor terrain0) no_images
                 (subscribers 1 1 0 0 0) state0) = Some (loc state0)
  /\ observe (fun s => (glob s, cfg s))
       (localTerrainCallback depack (sensor terrain0) (subscribers 1 1 0 0 0) state_ready)
     = Some (glob state_ready, cfg state_ready).
Proof.
  split.
  - exact (proj1 (local_and_global_maps_are_independent depack) (sensor terrain0) no_images
             (subscribers 1 1 0 0 0) state0 state0_wf).
  - exact (proj2 (local_and_global_maps_are_independent depack) (sensor terrain0)
             (subscribers 1 1 0 0 0) state_ready eq_refl).
Defined.

(** X7 at the scene: a local tick of a node on whose camera the terrain
    mapping cannot be enabled. *)
Lemma timer_callbacks_mark_the_node_ready_scene :
  exists st' pubs,
    localTerrainCallback depack no_mapping (subscribers 1 0 0 0 0) state0 = Some (st', pubs)
    /\ mMappingReady st' = true /\ glob st' = glob state0 /\ cfg st' = cfg state0.
Proof.
  destruct (proj1 (timer_callbacks_mark_the_node_ready depack) no_mapping
              (subscribers 1 0 0 0 0) state0 eq_refl) as (st' & pubs & Hcb & Hr & Hz).
  exists st', pubs. split; [exact Hcb|]. split; [exact Hr|]. exact (Hz eq_refl eq_refl).
Defined.

(** X8 at the scene: a local tick without transform, and a global tick
    on a snapshot in which nothing has changed. *)
Lemma cycles_without_chunks_publish_nothing_scene :
  (exists st',
     localTerrainCallback depack no_transform (subscribers 1 1 1 1 1) state0 = Some (st', [])
     /\ loc st' = loc state0)
  /\ (exists st',
        globalTerrainCallback depack (sensor terrain_quiet)
          {| heightImgSub := 1; colorImgSub := 1; costImgSub := 1 |} (subscribers 1 1 1 1 0)
          state_ready = Some (st', [])
        /\ mGlobHeightMapMsg (glob st') = mGlobHeightMapMsg (glob state_ready)
        /\ mGlobCostMapMsg (glob st') = mGlobCostMapMsg (glob state_ready)
        /\ mGlobalHeightPointcloudMsg (glob st') = mGlobalHeightPointcloudMsg (glob state_ready)
        /\ mLastGlobMapTimestamp (glob st') = 44
        /\ mGlobMapWholeUpdate (glob st') = false).
Proof.
  split.
  - apply (proj1 (cycles_without_chunks_publish_nothing depack) no_transform
             (subscribers 1 1 1 1 1) state0).
    right. left. reflexivity.
  - apply (proj2 (cycles_without_chunks_publish_nothing depack) (sensor terrain_quiet)
             {| heightImgSub := 1; colorImgSub := 1; costImgSub := 1 |} (subscribers 1 1 1 1 0)
             state_ready terrain_quiet); reflexivity.
Defined.


(** X10 at the scene: the first subscriber of the global height map. *)
Lemma first_subscriber_forces_a_whole_update_scene :
  fst (select_chunks terrain1 (glob (globalMapSubscribeCallback (subscribers 1 0 0 0 0)
                                       state_ready)))
  = [0; 1].
Proof.
  exact (proj1 (proj1 first_subscriber_forces_a_whole_update (subscribers 1 0 0 0 0)
                  state_ready terrain1 (or_introl eq_refl))).
Defined.

(** X11 at the scene: the static map of a node that is not ready. *)
Lemma map_services_need_a_ready_node_scene :
  exists r, call_service "static_map" state0 empty_grid = Some r
    /\ (mMappingReady state0 = false -> r = (false, empty_grid))
    /\ (mMappingReady state0 = true ->
        fst r = true
        /\ snd r ∈ [mGlobHeightMapMsg (glob state0); mGlobCostMapMsg (glob state0);
                    mLocHeightMapMsg (loc state0); mLocCostMapMsg (loc state0)]).
Proof.
  apply (proj1 map_services_need_a_ready_node "static_map" state0 empty_grid). left.
Defined.

(** X19 at the scene: the start of the node, and the start without
    camera. *)
Lemma startTerrainMapping_outcomes_scene :
  startTerrainMapping no_camera state0 = (state0, false)
  /\ mMappingReady (fst (startTerrainMapping (sensor terrain0) state0)) = true
  /\ global_wf (glob (fst (startTerrainMapping (sensor terrain0) state0)))
  /\ mGlobMapWholeUpdate (glob (fst (startTerrainMapping (sensor terrain0) state0))) = true.
Proof.
  split.
  - exact (proj1 (proj2 (startTerrainMapping_outcomes no_camera state0)) eq_refl).
  - destruct (proj2 (proj2 (proj2 (startTerrainMapping_outcomes (sensor terrain0) state0)))
                eq_refl eq_refl) as (Hr & _ & _ & Hwf & Hfl & _).
    split; [exact Hr|]. split; [exact Hwf | exact Hfl].
Defined.

End SceneWitnesses.

Section ExactWitnesses.

Import Exact.

(** X12 at the exact scene: the point (5/2, 1/2) of chunk 1 in the raster
    laid out around the chunk's box. *)
Lemma resized_global_raster_holds_every_point_scene :
  let i' := info (mGlobHeightMapMsg
                    (snd (global_resize ExactScene.config ExactScene.terrain (Fin 2) (Fin 0)
                            (Fin 3) (Fin 1) ExactScene.glob0))) in
  let U := Qround_away (((1 # 2) - 0) / (1 # 2)) in
  let V := Qround_away ((3 - (5 # 2)) / (1 # 2)) in
  0 <= U < width i' /\ 0 <= V < height i'
  /\ global_index ExactScene.config i' (Fin (5 # 2)) (Fin (1 # 2)) = Some (U + V * width i').
Proof.
  apply (resized_global_raster_holds_every_point ExactScene.config ExactScene.terrain
           ExactScene.glob0 (1 # 2) 2 0 3 1 (5 # 2) (1 # 2)).
  - reflexivity.
  - reflexivity.
  - vm_compute. split; [discriminate | reflexivity].
  - vm_compute. split; [discriminate | reflexivity].
  - vm_compute. reflexivity.
  - split; discriminate.
  - split; discriminate.
Defined.

(** X13 at a 3 x 3 raster of cells of size 1/2: the point at y = 3/2 has
    column 3, and lands on index 3, the first cell of row 1. *)
Lemma global_index_lets_the_column_past_the_edge_through_scene :
  global_index ExactScene.config ExactScene.info33 (Fin 0) (Fin (3 # 2))
  = Some (0 + (Qround_away ((- 0 - 0) / (1 # 2)) + 1) * 3).
Proof.
  apply (global_index_lets_the_column_past_the_edge_through ExactScene.config
           ExactScene.info33 (1 # 2) 0 0 0 (3 # 2));
    try reflexivity; vm_compute; try reflexivity; split; discriminate.
Defined.

(** X14 at the exact scene: the camera at the origin, radius 3. *)
Lemma local_window_stays_within_the_radius_scene :
  let w := local_window ExactScene.config (Fin 0) (Fin 0) (Fin 2) (Fin 0) (Fin 3) (Fin 1) in
  leq (Fin (0 - 3)) (mapMinX w) /\ leq (mapMaxX w) (Fin (0 + 3))
  /\ leq (Fin (0 - 3)) (mapMinY w) /\ leq (mapMaxY w) (Fin (0 + 3)).
Proof.
  exact (proj1 (local_window_stays_within_the_radius ExactScene.config 0 0 3 (Fin 2) (Fin 0)
                  (Fin 3) (Fin 1) eq_refl)).
Defined.

(** X15 at the exact scene: the window is [0, 1] x [-3, -2]. *)
Lemma local_raster_holds_every_point_of_the_window_scene :
  let w := local_window ExactScene.config (Fin 0) (Fin 0) (Fin 2) (Fin 0) (Fin 3) (Fin 1) in
  let U := Qround_away (((1 # 2) - 0) / (1 # 2)) in
  let V := Qround_away ((- (5 # 2) - - (3)) / (1 # 2)) in
  0 <= U < mapCols w /\ 0 <= V < mapRows w
  /\ local_index ExactScene.config (mapMinX w) (mapMinY w) (mapCols w)
       (u32 (mapRows w * mapCols w)) (Fin (5 # 2)) (Fin (1 # 2)) = Some (U + V * mapCols w).
Proof.
  apply (local_raster_holds_every_point_of_the_window ExactScene.config (Fin 0) (Fin 0)
           (Fin 2) (Fin 0) (Fin 3) (Fin 1) (1 # 2) 0 1 (- (3)) (- (2)) (5 # 2) (1 # 2));
    try reflexivity; try (vm_compute; reflexivity); split; discriminate.
Defined.

(** X16 with the maximum height 4: the elevations 1 and 2. *)
Lemma normalized_height_moves_in_steps_of_100_scene :
  height_norm ExactScene.config (Fin 1) = 0 /\ height_norm ExactScene.config (Fin 2) = 100.
Proof.
  split.
  - apply (proj1 (proj2 (normalized_height_moves_in_steps_of_100 ExactScene.config 4 1
                           eq_refl eq_refl))).
    reflexivity.
  - apply (proj2 (proj2 (normalized_height_moves_in_steps_of_100 ExactScene.config 4 2
                           eq_refl eq_refl))).
    + discriminate.
    + reflexivity.
Defined.

(** X17 with the height resolution 1: the elevation 5/2 gives 3 cubes. *)
Lemma cube_column_reaches_the_elevation_scene :
  length (cube_column ExactScene.config (Fin 0) (Fin 0) (Fin (5 # 2))
            (i32 (to_int (fceil (fdiv (fabs (Fin (5 # 2)))
                                   (mMapHeightResol ExactScene.config))))))
  = Z.to_nat (Qceiling (Qabs (5 # 2) / 1)).
Proof.
  apply (cube_column_reaches_the_elevation ExactScene.config 1 (5 # 2) (Fin 0) (Fin 0));
    reflexivity.
Defined.

(** X18 at the exact scene: two chunks with the box [2,0]-[3,1]. *)
Lemma local_limits_is_the_bounding_box_scene :
  box_finite (local_limits ExactScene.terrain [0; 1])
  /\ forall key, key ∈ [0; 1] ->
       covers (local_limits ExactScene.terrain [0; 1])
         (box_of (getDimension (getChunk ExactScene.terrain key))).
Proof.
  destruct (local_limits_is_the_bounding_box ExactScene.terrain [0; 1]) as (Hf & Hc & _).
  - discriminate.
  - intros key _. vm_compute. repeat split; discriminate.
  - split; [exact Hf | exact Hc].
Defined.

End ExactWitnesses.

Section CycleWitnesses.

Import Binary32 Scene.

(** X20 at the scene: cell 0 of chunk 0 lands on index 6 of the local
    rasters. *)
Lemma local_rasters_hold_the_cells_in_reach_scene :
  exists lm' pubs,
    publishLocalMaps depack (config 3) terrain0 (of_Z 0) (of_Z 0) (of_Z 0) (of_Z 0) (of_Z 1)
      (of_Z 1) [0] (subscribers 1 1 0 0 0) 42 empty_local = Some (lm', pubs)
    /\ (0 < heightSub (subscribers 1 1 0 0 0) ->
        data (mLocHeightMapMsg lm') !! Z.to_nat 6
        = Some (height_norm (config 3) (at_ (getChunk terrain0 0) ELEVATION 0%nat)))
    /\ (0 < costSub (subscribers 1 1 0 0 0) ->
        data (mLocCostMapMsg lm') !! Z.to_nat 6
        = Some (cost_norm (at_ (getChunk terrain0 0) TRAVERSABILITY_COST 0%nat))).
Proof.
  apply (local_rasters_hold_the_cells_in_reach depack (config 3) terrain0 (of_Z 0) (of_Z 0)
           (of_Z 0) (of_Z 0) (of_Z 1) (of_Z 1) [0] (subscribers 1 1 0 0 0) 42 empty_local
           0 0%nat 6).
  - apply list_elem_of_singleton. reflexivity.
  - vm_compute. lia.
  - vm_compute. reflexivity.
  - intros key' i' Hk Hi Ht. apply list_elem_of_singleton in Hk. subst key'.
    vm_compute in Hi.
    destruct i' as [|i']; [split; reflexivity|].
    do 8 (destruct i' as [|i']; [vm_compute in Ht; discriminate|]).
    lia.
Defined.

(** X21 at the scene: cell 0 of chunk 0 lands on index 9 of the global
    rasters. *)
Lemma global_rasters_hold_the_processed_cells_scene :
  exists gm' pubs,
    publishGlobalMaps depack (config 3) terrain0 [0] (subscribers 0 0 0 0 0) 42 glob_left
    = Some (gm', pubs)
    /\ data (mGlobHeightMapMsg gm') !! Z.to_nat 9
       = Some (if isCellValid (getChunk terrain0 0) 0
               then height_norm (config 3) (at_ (getChunk terrain0 0) ELEVATION 0%nat)
               else -1)
    /\ data (mGlobCostMapMsg gm') !! Z.to_nat 9
       = Some (if isCellValid (getChunk terrain0 0) 0
               then cost_norm (at_ (getChunk terrain0 0) TRAVERSABILITY_COST 0%nat)
               else -1).
Proof.
  apply (global_rasters_hold_the_processed_cells depack (config 3) terrain0 [0]
           (subscribers 0 0 0 0 0) 42 glob_left 0 0%nat 9 glob_left_wf).
  - apply list_elem_of_singleton. reflexivity.
  - vm_compute. lia.
  - vm_compute. reflexivity.
  - intros key' i' Hk Hi Ht. apply list_elem_of_singleton in Hk. subst key'.
    vm_compute in Hi.
    destruct i' as [|i']; [split; reflexivity|].
    do 8 (destruct i' as [|i']; [vm_compute in Ht; discriminate|]).
    lia.
Defined.

(** X22 at the scene: the snapshot of the first cycles is taken at 42. *)
Lemma published_messages_carry_the_snapshot_time_scene :
  (exists st' pubs,
     localTerrainCallback depack (sensor terrain0) (subscribers 1 1 1 1 1) state0
     = Some (st', pubs)
     /\ forall p, p ∈ pubs -> stamped 42 p)
  /\ (exists st' pubs,
        globalTerrainCallback depack (sensor terrain0) no_images (subscribers 1 1 1 1 0) state0
        = Some (st', pubs)
        /\ forall p, p ∈ pubs -> stamped 42 p).
Proof.
  split.
  - exact (proj1 (published_messages_carry_the_snapshot_time depack) (sensor terrain0)
             (subscribers 1 1 1 1 1) state0 terrain0 eq_refl).
  - exact (proj2 (published_messages_carry_the_snapshot_time depack) (sensor terrain0)
             no_images (subscribers 1 1 1 1 0) state0 terrain0 state0_wf eq_refl).
Defined.

(** X23 at the scene: the 3 x 3 window around chunk 0. *)
Lemma box_markers_are_named_by_raster_index_scene :
  exists lm' pubs,
    publishLocalMaps depack (config 3) terrain0 (of_Z 0) (of_Z 0) (of_Z 0) (of_Z 0) (of_Z 1)
      (of_Z 1) [0] (subscribers 0 0 0 0 1) 42 empty_local = Some (lm', pubs)
    /\ forall ms m, PubLocalHeightMrks ms ∈ pubs -> m ∈ ms ->
         exists key i xm ym idx,
           key ∈ [0]
           /\ (i < getFullSizeIdx (getDimension (getChunk terrain0 key)))%nat
           /\ isCellValid (getChunk terrain0 key) i = true
           /\ index2x_y (getDimension (getChunk terrain0 key)) i = Some (xm, ym)
           /\ (let w := local_window (config 3) (of_Z 0) (of_Z 0) (of_Z 0) (of_Z 0) (of_Z 1)
                           (of_Z 1) in
               local_index (config 3) (mapMinX w) (mapMinY w) (mapCols w)
                 (u32 (mapRows w * mapCols w)) xm ym = Some idx)
           /\ mk_id m = idx /\ i32 idx = idx
           /\ 0 <= mk_id m < Z.of_nat (length (data (mLocHeightMapMsg lm')))
           /\ mk_ns m = "height_boxes"%string /\ mk_stamp m = 42
           /\ mk_position m
              = (fadd ym (fdiv (mTerrainMapRes (config 3)) (of_int 2)),
                 fadd (fneg xm) (fdiv (mTerrainMapRes (config 3)) (of_int 2)),
                 fdiv (at_ (getChunk terrain0 key) ELEVATION i) (of_int 2)).
Proof.
  apply (box_markers_are_named_by_raster_index depack (config 3) terrain0 (of_Z 0) (of_Z 0)
           (of_Z 0) (of_Z 0) (of_Z 1) (of_Z 1) [0] (subscribers 0 0 0 0 1) 42 empty_local).
  vm_compute. reflexivity.
Defined.

(** X24 at the scene with 2 x 2 images: the height image is published
    for its subscriber. *)
Lemma terrain_images_follow_their_subscribers_scene :
  exists st' pubs,
    globalTerrainCallback depack (sensor terrain_pictured)
      {| heightImgSub := 1; colorImgSub := 0; costImgSub := 0 |} (subscribers 0 0 0 0 0) state0
    = Some (st', pubs)
    /\ PubGlobalHeightMapImg (generateTerrainMap terrain_pictured ELEVATION) ∈ pubs.
Proof.
  destruct (terrain_images_follow_their_subscribers depack (sensor terrain_pictured)
              {| heightImgSub := 1; colorImgSub := 0; costImgSub := 0 |}
              (subscribers 0 0 0 0 0) state0 state0_wf) as (st' & pubs & Hcb & _ & Hif).
  exists st', pubs. split; [exact Hcb|].
  apply (Hif terrain_pictured eq_refl) with (sub := 1).
  - vm_compute. reflexivity.
  - vm_compute. discriminate.
  - left.
  - reflexivity.
  - vm_compute. reflexivity.
Defined.

(** X27 at the scene: the first local cycle, from the empty cloud. *)
Lemma local_point_buffer_has_a_point_per_cell_scene :
  exists lm' pubs,
    publishLocalMaps depack (config 3) terrain0 (of_Z 0) (of_Z 0) (of_Z 0) (of_Z 0) (of_Z 1)
      (of_Z 1) [0] (subscribers 1 1 1 0 0) 42 empty_local = Some (lm', pubs)
    /\ length (pc_data (mLocalHeightPointcloudMsg lm'))
       = length (data (mLocHeightMapMsg lm')).
Proof.
  destruct (local_point_buffer_has_a_point_per_cell depack (config 3) terrain0 (of_Z 0)
              (of_Z 0) (of_Z 0) (of_Z 0) (of_Z 1) (of_Z 1) [0] (subscribers 1 1 1 0 0) 42
              empty_local) as (lm' & pubs & Hp & _ & Hl & _).
  - vm_compute. reflexivity.
  - vm_compute. reflexivity.
  - exists lm', pubs. split; assumption.
Defined.

End CycleWitnesses.
